(** * The stdio bridge of the Kiwi TCMS MCP HTTP wrapper (wrapper.js)

    A shallow embedding of [KiwiTcmsMCPWrapper]: the line framing of the
    worker's standard output, the queue of pending calls, the timers and the
    promises handed to the HTTP route, followed by the properties of the
    bridge that the design document states.

    How the program is read:
    - the wrapper object is a record with the fields of the class; the
      promises created by [forwardToMCP], the pending [setTimeout] callbacks,
      the clock of the event loop and the console are kept next to them;
    - a promise is named by the number of its creation, and [resolve] and
      [reject] settle it once;
    - [JSON.parse], [JSON.stringify], [process.env] and [spawn] belong to the
      runtime: they are parameters, and request bodies and parsed responses
      are values of an arbitrary type of which only the [id] property is
      read (bodies are objects or arrays, as [express.json()] yields them);
    - what happens to the wrapper from outside is an event: a POST on
      [/mcp], a chunk on the worker's stdout or stderr, the worker's exit,
      time passing, the next timer running;
    - a chunk arrives as a [Buffer], which the handler reads on its own
      as UTF-8; the events carry the text so read, [Buffer] has the bytes
      and their reading, and strings have code units below 256.

    The definitions that follow those of the bridge embed what runs in
    the worker: its check of the environment, the validation utilities,
    the logger, the texts of test steps as the two services write and
    read them, the names and identifiers of statuses and priorities, and
    the counts of a run report. Their properties come after those of the
    bridge, together with what the wrapper and the worker do to each
    other: the life of the worker, its log on the channel of the
    responses, and its environment. *)

From Stdlib Require Import ZArith Ascii String.
From Stdlib Require QArith Qcanon DecimalString DecimalNat Strings.Byte.
From stdpp Require Import base option list gmap strings.

Local Open Scope Z_scope.

(** ** JavaScript strings

    A string is a sequence of code units; the model keeps the code units
    below 256, which covers the framing characters and JSON punctuation. *)

Module JsString.

Definition newline : ascii := "010"%char.

(** The characters [String.prototype.trim] strips, among the code units
    below 256: TAB, LF, VT, FF, CR, SPACE and NBSP. *)
Definition is_white (c : ascii) : bool :=
  match c with
  | "009" | "010" | "011" | "012" | "013" | " " | "160" => true
  | _ => false
  end%char.

Definition is_empty (s : string) : bool :=
  match s with "" => true | String _ _ => false end.

(** [s.split('\n')]: always at least one piece. *)
Fixpoint split (s : string) : list string :=
  match s with
  | "" => [""]
  | String c s' =>
      if Ascii.eqb c newline then "" :: split s'
      else match split s' with
           | [] => [String c ""]
           | piece :: pieces => String c piece :: pieces
           end
  end.

(** [Array.prototype.pop]: the removed last element, [undefined] on an
    empty array, and the array that is left. *)
Definition pop {A} (l : list A) : option A * list A :=
  (last l, removelast l).

Fixpoint trimStart (s : string) : string :=
  match s with
  | "" => ""
  | String c s' => if is_white c then trimStart s' else s
  end.

Fixpoint trimEnd (s : string) : string :=
  match s with
  | "" => ""
  | String c s' =>
      let t := trimEnd s' in
      if is_white c && is_empty t then "" else String c t
  end.

Definition trim (s : string) : string := trimEnd (trimStart s).

(** [s.startsWith(p)] *)
Definition startsWith (s p : string) : bool := String.prefix p s.

(** [s.substring(0, n)] *)
Definition substring0 (n : nat) (s : string) : string := String.substring 0 n s.

(** A string used as a condition: only the empty string is falsy. *)
Definition truthy (s : string) : bool := negb (is_empty s).

(** [lines.join('\n') + '\n'] piece by piece: every line with its
    terminator. *)
Fixpoint unlines (ls : list string) : string :=
  match ls with
  | [] => ""
  | l :: ls' => l +:+ String newline (unlines ls')
  end.

Fixpoint concat (chunks : list string) : string :=
  match chunks with
  | [] => ""
  | c :: cs => c +:+ concat cs
  end.

Fixpoint has_newline (s : string) : bool :=
  match s with
  | "" => false
  | String c s' => Ascii.eqb c newline || has_newline s'
  end.

End JsString.

Import JsString.

(** ** Buffers

    The worker's output reaches the wrapper as chunks of bytes, and
    [data.toString()] reads each chunk on its own as UTF-8. *)

Module Buffer.

Definition between (lower upper b : N) : bool := ((lower <=? b) && (b <=? upper))%N.

(** The six low bits of a continuation byte. *)
Definition low6 (b : N) : N := N.land b 63.

(** The bytes read as UTF-8: the scalar value of each character, and
    [None] for each sequence of bytes that is no character, which is a
    byte that cannot start one, or the first bytes of a character that
    another byte or the end of the bytes cuts short. After the bytes E0,
    ED, F0 and F4 the first continuation byte has a range of its own. *)
Fixpoint scalars (bytes : list Byte.byte) : list (option N) :=
  match bytes with
  | [] => []
  | b0 :: rest =>
      let b := Byte.to_N b0 in
      if (b <? 128)%N then Some b :: scalars rest
      else if between 194 223 b then
        match rest with
        | c0 :: rest1 =>
            let c := Byte.to_N c0 in
            if between 128 191 c
            then Some (N.lor (N.shiftl (N.land b 31) 6) (low6 c)) :: scalars rest1
            else None :: scalars rest
        | [] => [None]
        end
      else if between 224 239 b then
        let lower := if (b =? 224)%N then 160%N else 128%N in
        let upper := if (b =? 237)%N then 159%N else 191%N in
        match rest with
        | c0 :: rest1 =>
            let c := Byte.to_N c0 in
            if between lower upper c then
              match rest1 with
              | d0 :: rest2 =>
                  let d := Byte.to_N d0 in
                  if between 128 191 d
                  then Some (N.lor (N.shiftl (N.land b 15) 12)
                               (N.lor (N.shiftl (low6 c) 6) (low6 d))) :: scalars rest2
                  else None :: scalars rest1
              | [] => [None]
              end
            else None :: scalars rest
        | [] => [None]
        end
      else if between 240 244 b then
        let lower := if (b =? 240)%N then 144%N else 128%N in
        let upper := if (b =? 244)%N then 143%N else 191%N in
        match rest with
        | c0 :: rest1 =>
            let c := Byte.to_N c0 in
            if between lower upper c then
              match rest1 with
              | d0 :: rest2 =>
                  let d := Byte.to_N d0 in
                  if between 128 191 d then
                    match rest2 with
                    | e0 :: rest3 =>
                        let e := Byte.to_N e0 in
                        if between 128 191 e
                        then Some (N.lor (N.shiftl (N.land b 7) 18)
                                     (N.lor (N.shiftl (low6 c) 12)
                                        (N.lor (N.shiftl (low6 d) 6) (low6 e))))
                             :: scalars rest3
                        else None :: scalars rest2
                    | [] => [None]
                    end
                  else None :: scalars rest1
              | [] => [None]
              end
            else None :: scalars rest
        | [] => [None]
        end
      else None :: scalars rest
  end.

(** The code units of a character: itself, or two surrogates from
    U+10000 on; U+FFFD takes the place of what is no character. *)
Definition code_units (scalar : option N) : list N :=
  match scalar with
  | None => [65533%N]
  | Some cp =>
      if (cp <? 65536)%N then [cp]
      else [(55296 + N.shiftr (cp - 65536) 10)%N; (56320 + N.land (cp - 65536) 1023)%N]
  end.

(** [data.toString()], as the code units of the text. *)
Definition toString (data : list Byte.byte) : list N := scalars data ≫= code_units.

(** The bytes are characters from the first to the last: none is cut
    short. *)
Definition whole (data : list Byte.byte) : bool :=
  forallb (λ scalar, bool_decide (is_Some scalar)) (scalars data).

(** The string that has these code units. The strings of this
    development have code units below 256: there is none when a code
    unit is larger. *)
Definition text (units : list N) : option string :=
  string_of_list_ascii <$>
    mapM (λ u, if (u <? 256)%N then Some (ascii_of_N u) else None) units.

(** [Buffer.from(s)] for a string of this development: one byte for a
    code unit below 128, two bytes for the others. *)
Definition encode (c : ascii) : list Byte.byte :=
  let n := N_of_ascii c in
  if (n <? 128)%N then [byte_of_ascii c]
  else default [] (b1 ← Byte.of_N (N.lor 192 (N.shiftr n 6));
                   b2 ← Byte.of_N (N.lor 128 (N.land n 63));
                   Some [b1; b2]).

Definition from (s : string) : list Byte.byte := list_ascii_of_string s ≫= encode.

End Buffer.

(** ** JavaScript values that serve as correlation identifiers

    Numbers are the integral ones, which covers [Date.now()] and the usual
    JSON-RPC identifiers; objects and arrays are heap references. *)

Inductive jsval :=
| VUndefined
| VNull
| VBool (b : bool)
| VNum (n : Z)
| VStr (s : string)
| VObject (ref : nat).

Definition truthy (v : jsval) : bool :=
  match v with
  | VUndefined | VNull => false
  | VBool b => b
  | VNum n => negb (n =? 0)
  | VStr s => JsString.truthy s
  | VObject _ => true
  end.

(** [a || b] *)
Definition or_else (a b : jsval) : jsval := if truthy a then a else b.

(** [a === b] between two values of the heap. *)
Definition strict_equal (a b : jsval) : bool :=
  match a, b with
  | VUndefined, VUndefined | VNull, VNull => true
  | VBool x, VBool y => Bool.eqb x y
  | VNum x, VNum y => x =? y
  | VStr x, VStr y => String.eqb x y
  | VObject x, VObject y => Nat.eqb x y
  | _, _ => false
  end.

(** [stored === parsed] where [parsed] was read from the result of a
    [JSON.parse] call made in the same invocation: an object or array in
    that result is newly allocated, hence identical to nothing stored. *)
Definition strict_equal_parsed (stored parsed : jsval) : bool :=
  match parsed with
  | VObject _ => false
  | _ => strict_equal stored parsed
  end.

(** ** Exceptions and promises *)

Record Error := { message : string }.

Inductive completion (A : Type) :=
| Normal (a : A)
| Throw (e : Error).
Arguments Normal {A} a.
Arguments Throw {A} e.

(** [new Error('Request timeout after 2 minutes')] *)
Definition timeout_error : Error :=
  {| message := "Request timeout after 2 minutes" |}.

(** The [TypeError] of [this.mcpProcess.stdin] when [mcpProcess] is [null]. *)
Definition null_process_error : Error :=
  {| message := "Cannot read properties of null (reading 'stdin')" |}.

(** The [TypeError] of [request.resolve] when [request] is [undefined]. *)
Definition undefined_request_error : Error :=
  {| message := "Cannot read properties of undefined (reading 'resolve')" |}.

Inductive outcome (V : Type) :=
| Resolved (v : V)
| Rejected (e : Error).
Arguments Resolved {V} v.
Arguments Rejected {V} e.

(** ** The data of the wrapper *)

(** [{ id: requestId, resolve, reject }]: [resolve] and [reject] are the two
    capabilities of one promise, named here by its allocation number. *)
Record entry := { entry_id : jsval; entry_promise : nat }.

Global Instance jsval_eq_dec : EqDecision jsval.
Proof. solve_decision. Defined.

Global Instance entry_eq_dec : EqDecision entry.
Proof. solve_decision. Defined.

(** The callbacks handed to [setTimeout]. *)
Inductive callback :=
| RequestTimeout (requestId : jsval) (reject : nat)
| WorkerReady
| Restart.

Record timer := { due : Z; action : callback }.

(** The child returned by [spawn], with what has been written to its
    standard input. *)
Record child_process := {
  spawnfile : string;
  spawnargs : list string;
  child_env : gmap string string;
  stdin : list string
}.

Inductive log_entry :=
| LogInitializing
| LogConnecting (base_url : string)
| LogTokenLength (n : nat)
| LogWorkerStderr (warning : bool) (text : string)
| LogWorkerExited (code : Z)
| LogWorkerStartFailed (e : Error)
| LogWorkerReady
| LogQueuedRequests (n : nat)
| LogParseFailed (e : Error)
| LogResponseText (text : string).

Record wrapper (V : Type) := {
  (* the fields of KiwiTcmsMCPWrapper *)
  mcpProcess : option child_process;
  isReady : bool;
  requestQueue : list entry;
  responseBuffer : string;
  (* the runtime it lives in *)
  promises : gmap nat (outcome V);   (* the settled promises *)
  next_promise : nat;
  timers : list timer;               (* pending, by due time *)
  clock : Z;
  console : list log_entry
}.
Arguments mcpProcess {V} w.
Arguments isReady {V} w.
Arguments requestQueue {V} w.
Arguments responseBuffer {V} w.
Arguments promises {V} w.
Arguments next_promise {V} w.
Arguments timers {V} w.
Arguments clock {V} w.
Arguments console {V} w.

(** The Node process: running with a wrapper, or gone through
    [process.exit] or an exception nobody caught. *)
Inductive process (V : Type) :=
| Running (w : wrapper V)
| Exited (code : Z).
Arguments Running {V} w.
Arguments Exited {V} code.

(** What the outside world does to the wrapper. *)
Inductive event (V : Type) :=
| Post (body : V) (date_now : Z) (write_error : option Error)
| StdoutData (data : string)   (* the text [data.toString()] of the chunk *)
| StderrData (data : string)
| Close (code : Z)
| SpawnError (error : Error)
| Elapse (ms : Z)
| TimerFires.
Arguments Post {V} body date_now write_error.
Arguments StdoutData {V} data.
Arguments StderrData {V} data.
Arguments Close {V} code.
Arguments SpawnError {V} error.
Arguments Elapse {V} ms.
Arguments TimerFires {V}.

Section Setters.
Context {V : Type}.
Implicit Type w : wrapper V.

Definition set_mcpProcess (x : option child_process) w : wrapper V :=
  {| mcpProcess := x; isReady := isReady w; requestQueue := requestQueue w;
     responseBuffer := responseBuffer w; promises := promises w;
     next_promise := next_promise w; timers := timers w; clock := clock w;
     console := console w |}.

Definition set_isReady (x : bool) w : wrapper V :=
  {| mcpProcess := mcpProcess w; isReady := x; requestQueue := requestQueue w;
     responseBuffer := responseBuffer w; promises := promises w;
     next_promise := next_promise w; timers := timers w; clock := clock w;
     console := console w |}.

Definition set_requestQueue (x : list entry) w : wrapper V :=
  {| mcpProcess := mcpProcess w; isReady := isReady w; requestQueue := x;
     responseBuffer := responseBuffer w; promises := promises w;
     next_promise := next_promise w; timers := timers w; clock := clock w;
     console := console w |}.

Definition set_responseBuffer (x : string) w : wrapper V :=
  {| mcpProcess := mcpProcess w; isReady := isReady w; requestQueue := requestQueue w;
     responseBuffer := x; promises := promises w;
     next_promise := next_promise w; timers := timers w; clock := clock w;
     console := console w |}.

Definition set_promises (x : gmap nat (outcome V)) w : wrapper V :=
  {| mcpProcess := mcpProcess w; isReady := isReady w; requestQueue := requestQueue w;
     responseBuffer := responseBuffer w; promises := x;
     next_promise := next_promise w; timers := timers w; clock := clock w;
     console := console w |}.

Definition set_next_promise (x : nat) w : wrapper V :=
  {| mcpProcess := mcpProcess w; isReady := isReady w; requestQueue := requestQueue w;
     responseBuffer := responseBuffer w; promises := promises w;
     next_promise := x; timers := timers w; clock := clock w;
     console := console w |}.

Definition set_timers (x : list timer) w : wrapper V :=
  {| mcpProcess := mcpProcess w; isReady := isReady w; requestQueue := requestQueue w;
     responseBuffer := responseBuffer w; promises := promises w;
     next_promise := next_promise w; timers := x; clock := clock w;
     console := console w |}.

Definition set_clock (x : Z) w : wrapper V :=
  {| mcpProcess := mcpProcess w; isReady := isReady w; requestQueue := requestQueue w;
     responseBuffer := responseBuffer w; promises := promises w;
     next_promise := next_promise w; timers := timers w; clock := x;
     console := console w |}.

Definition set_console (x : list log_entry) w : wrapper V :=
  {| mcpProcess := mcpProcess w; isReady := isReady w; requestQueue := requestQueue w;
     responseBuffer := responseBuffer w; promises := promises w;
     next_promise := next_promise w; timers := timers w; clock := clock w;
     console := x |}.

(** [console.log] and [console.error] *)
Definition log (entries : list log_entry) w : wrapper V :=
  set_console (console w ++ entries) w.

End Setters.

(** ** Arrays and timers *)

(** [arr.findIndex(f)]: [None] stands for [-1]. *)
Definition findIndex {A} (f : A → bool) (arr : list A) : option nat :=
  fst <$> list_find (λ x, f x = true) arr.

(** [arr.splice(i, 1)] *)
Definition splice1 {A} (i : nat) (arr : list A) : list A := delete i arr.

(** Timers run in the order of their due times, and in the order of their
    creation when these agree. *)
Fixpoint insert_timer (t : timer) (ts : list timer) : list timer :=
  match ts with
  | [] => [t]
  | t' :: ts' => if due t <? due t' then t :: ts else t' :: insert_timer t ts'
  end.

(** [setTimeout(cb, ms)] *)
Definition setTimeout {V} (cb : callback) (ms : Z) (w : wrapper V) : wrapper V :=
  set_timers (insert_timer {| due := clock w + ms; action := cb |} (timers w)) w.

(** [resolve(v)] and [reject(e)] on promise [p]: the first settlement
    stays, later ones are ignored. *)
Definition settle {V} (p : nat) (o : outcome V) (w : wrapper V) : wrapper V :=
  match promises w !! p with
  | Some _ => w
  | None => set_promises (<[p := o]> (promises w)) w
  end.

(** [for (x of arr) f(x)] with a body that may throw. *)
Fixpoint forEach {A S} (f : A → S → completion S) (arr : list A) (s : S) : completion S :=
  match arr with
  | [] => Normal s
  | x :: arr' =>
      match f x s with
      | Normal s' => forEach f arr' s'
      | Throw e => Throw e
      end
  end.

(** [this.mcpProcess.stdin.write(line)]; [write_error] is the exception the
    stream raises, if it raises one. *)
Definition stdin_write (line : string) (write_error : option Error)
    (proc : option child_process) : completion child_process :=
  match proc with
  | None => Throw null_process_error
  | Some child =>
      match write_error with
      | Some error => Throw error
      | None =>
          Normal {| spawnfile := spawnfile child; spawnargs := spawnargs child;
                    child_env := child_env child; stdin := stdin child ++ [line] |}
      end
  end.

(** [const timeout = 120000] *)
Definition timeout : Z := 120000.

(** A value of [process.env] used as a condition. *)
Definition env_set (x : option string) : bool :=
  match x with
  | Some s => JsString.truthy s
  | None => false
  end.

(** ** The wrapper's methods and handlers *)

Module KiwiTcmsMCPWrapper.
Section Bridge.
(** The values that pass through the bridge (request bodies, parsed
    responses) are opaque but for their [id] property. *)
Context {V : Type}.
Variable get_id : V → jsval.
Variable JSON_parse : string → completion V.
Variable JSON_stringify : V → string.
(** [process.env], the directory of the script, and whether [spawn]
    throws for the given command, arguments and environment. *)
Variable process_env : gmap string string.
Variable dirname : string.
Variable spawn_throws : string → list string → gmap string string → option Error.

Implicit Type w : wrapper V.

Definition spawn (command : string) (args : list string) (env : gmap string string)
    : completion child_process :=
  match spawn_throws command args env with
  | Some e => Throw e
  | None => Normal {| spawnfile := command; spawnargs := args; child_env := env; stdin := [] |}
  end.

(** [new KiwiTcmsMCPWrapper()] before [initializeMCP] runs. *)
Definition constructed : wrapper V :=
  {| mcpProcess := None; isReady := false; requestQueue := []; responseBuffer := "";
     promises := ∅; next_promise := 0%nat; timers := []; clock := 0; console := [] |}.

(** wrapper.js, lines 105-193 *)
Definition initializeMCP w : process V :=
  let w := log [LogInitializing] w in
  let kiwiBaseUrl := process_env !! "KIWI_BASE_URL" in
  let kiwiToken := process_env !! "KIWI_TOKEN" in
  if negb (env_set kiwiBaseUrl) || negb (env_set kiwiToken) then
    Exited 1
  else
    let w := log [LogConnecting (default "" kiwiBaseUrl);
                  LogTokenLength (String.length (default "" kiwiToken))] w in
    let mcpServerPath := dirname +:+ "/dist/index.js" in
    let LOG_LEVEL :=
      if env_set (process_env !! "LOG_LEVEL") then default "" (process_env !! "LOG_LEVEL")
      else "INFO" in
    match spawn "node" [mcpServerPath]
            (<["LOG_LEVEL" := LOG_LEVEL]>
               (<["KIWI_TOKEN" := default "" kiwiToken]>
                  (<["KIWI_BASE_URL" := default "" kiwiBaseUrl]> process_env))) with
    | Throw error => Exited 1
    | Normal child => Running (setTimeout WorkerReady 3000 (set_mcpProcess (Some child) w))
    end.

(** wrapper.js, lines 195-220; the promise it returns is
    [next_promise w]. *)
Definition forwardToMCP (request : V) (date_now : Z) (write_error : option Error) w
    : wrapper V :=
  let p := next_promise w in
  let w := set_next_promise (S p) w in
  let requestId := or_else (get_id request) (VNum date_now) in
  let w := set_requestQueue (requestQueue w ++ [{| entry_id := requestId; entry_promise := p |}]) w in
  match stdin_write (JSON_stringify request +:+ String newline "") write_error (mcpProcess w) with
  | Throw error => settle p (Rejected error) w
  | Normal child =>
      setTimeout (RequestTimeout requestId p) timeout (set_mcpProcess (Some child) w)
  end.

(** The callback of lines 212-218. *)
Definition request_timeout (requestId : jsval) (reject : nat) w : wrapper V :=
  match findIndex (λ req, strict_equal (entry_id req) requestId) (requestQueue w) with
  | Some queueIndex =>
      settle reject (Rejected timeout_error)
        (set_requestQueue (splice1 queueIndex (requestQueue w)) w)
  | None => w
  end.

Definition looks_like_json (text : string) : bool :=
  startsWith (trim text) "{" || startsWith (trim text) "[".

(** The [try] block of lines 223-239. Nothing is assigned before a point
    where it can throw. *)
Definition handleMCPResponse_try (responseText : string) w : completion (wrapper V) :=
  let trimmed := trim responseText in
  if negb (startsWith trimmed "{") && negb (startsWith trimmed "[") then Normal w
  else
    match JSON_parse trimmed with
    | Throw error => Throw error
    | Normal response =>
        let requestId := get_id response in
        match findIndex (λ req, strict_equal_parsed (entry_id req) requestId) (requestQueue w) with
        | Some queueIndex =>
            match requestQueue w !! queueIndex with
            | Some request =>
                Normal (settle (entry_promise request) (Resolved response)
                          (set_requestQueue (splice1 queueIndex (requestQueue w)) w))
            | None => Throw undefined_request_error
            end
        | None => Normal w
        end
    end.

(** The [catch] block of lines 240-247. *)
Definition handleMCPResponse_catch (responseText : string) (error : Error) w
    : completion (wrapper V) :=
  if looks_like_json responseText then
    Normal (log [LogParseFailed error; LogResponseText (substring0 200 responseText)] w)
  else Normal w.

(** wrapper.js, lines 222-248 *)
Definition handleMCPResponse (responseText : string) w : completion (wrapper V) :=
  match handleMCPResponse_try responseText w with
  | Normal w' => Normal w'
  | Throw error => handleMCPResponse_catch responseText error w
  end.

(** The pieces of [this.responseBuffer + data]: the complete lines, and
    the fragment kept for the next chunk (lines 143-147). *)
Definition framed (buffer data : string) : list string * string :=
  let '(fragment, lines) := pop (split (buffer +:+ data)) in
  (lines, match fragment with
          | Some s => if JsString.truthy s then s else ""
          | None => ""
          end).

(** The texts that the [forEach] of lines 149-153 passes on. *)
Definition delivered (lines : list string) : list string :=
  trim <$> filter (λ line, JsString.truthy (trim line) = true) lines.

(** The ['data'] handler of the worker's standard output (lines 142-154). *)
Definition on_stdout_data (data : string) w : completion (wrapper V) :=
  let '(lines, fragment) := framed (responseBuffer w) data in
  forEach
    (λ line w, if JsString.truthy (trim line) then handleMCPResponse (trim line) w else Normal w)
    lines (set_responseBuffer fragment w).

(** The same handler from the bytes it is called with: line 143 reads
    the chunk on its own with [data.toString()]. There is no result when
    the text of the chunk is outside the strings of this development. *)
Definition on_stdout_buffer (data : list Byte.byte) w : option (completion (wrapper V)) :=
  chunk ← Buffer.text (Buffer.toString data); Some (on_stdout_data chunk w).

(** [message.includes('ERROR') || message.includes('WARN')] *)
Fixpoint includes (s p : string) : bool :=
  String.prefix p s ||
  match s with
  | "" => false
  | String _ s' => includes s' p
  end.

(** The ['data'] handler of the worker's standard error (lines 156-163). *)
Definition on_stderr_data (data : string) w : wrapper V :=
  log [LogWorkerStderr (includes data "ERROR" || includes data "WARN") (trim data)] w.

(** The ['close'] handler (lines 165-170). *)
Definition on_close (code : Z) w : wrapper V :=
  setTimeout Restart 5000 (set_isReady false (log [LogWorkerExited code] w)).

(** The ['error'] handler (lines 172-175). *)
Definition on_error (error : Error) w : wrapper V :=
  set_isReady false (log [LogWorkerStartFailed error] w).

(** The callback of lines 178-187, with [processRequestQueue]. *)
Definition worker_ready w : wrapper V :=
  let w := log [LogWorkerReady] (set_isReady true w) in
  log [LogQueuedRequests (length (requestQueue w))] w.

(** The [/mcp] route (lines 54-72) up to the call of [forwardToMCP];
    when the worker is not ready it answers 503 and touches nothing. *)
Definition post_mcp (body : V) (date_now : Z) (write_error : option Error) w : wrapper V :=
  if negb (isReady w) then w
  else forwardToMCP body date_now write_error w.

Definition run_callback (cb : callback) w : process V :=
  match cb with
  | RequestTimeout requestId reject => Running (request_timeout requestId reject w)
  | WorkerReady => Running (worker_ready w)
  | Restart => initializeMCP w
  end.

(** The first pending timer runs once its time has come. *)
Definition fire_timer w : process V :=
  match timers w with
  | t :: ts =>
      if due t <=? clock w then run_callback (action t) (set_timers ts w)
      else Running w
  | [] => Running w
  end.

(** An exception that leaves a handler uncaught ends the process. *)
Definition uncaught (c : completion (wrapper V)) : process V :=
  match c with
  | Normal w => Running w
  | Throw _ => Exited 1
  end.

Definition step (ev : event V) w : process V :=
  match ev with
  | Post body date_now write_error => Running (post_mcp body date_now write_error w)
  | StdoutData data => uncaught (on_stdout_data data w)
  | StderrData data => Running (on_stderr_data data w)
  | Close code => Running (on_close code w)
  | SpawnError error => Running (on_error error w)
  | Elapse ms => Running (set_clock (clock w + Z.max 0 ms) w)
  | TimerFires => fire_timer w
  end.

Fixpoint run (evs : list (event V)) (s : process V) : process V :=
  match evs, s with
  | ev :: evs', Running w => run evs' (step ev w)
  | _, _ => s
  end.

(** The process from its start. *)
Definition boot : process V := initializeMCP constructed.

(** Complete response lines handed to [handleMCPResponse] one after the
    other. *)
Definition handle_lines (lines : list string) w : completion (wrapper V) :=
  forEach handleMCPResponse lines w.

(** The ['data'] events of the chunks of bytes, one after the other. *)
Fixpoint on_stdout_buffers (buffers : list (list Byte.byte)) w
    : option (completion (wrapper V)) :=
  match buffers with
  | [] => Some (Normal w)
  | data :: buffers' =>
      match on_stdout_buffer data w with
      | Some (Normal w') => on_stdout_buffers buffers' w'
      | Some (Throw error) => Some (Throw error)
      | None => None
      end
  end.

End Bridge.
End KiwiTcmsMCPWrapper.

Import KiwiTcmsMCPWrapper.

(** The stream reader on its own: the texts passed on while the chunks
    arrive one by one, and the fragment left in the buffer. *)
Fixpoint stream_lines (chunks : list string) (buffer : string) : list string * string :=
  match chunks with
  | [] => ([], buffer)
  | data :: chunks' =>
      let '(lines, fragment) := framed buffer data in
      let '(more, final) := stream_lines chunks' fragment in
      (delivered lines ++ more, final)
  end.

(** ** A concrete instance

    Envelopes with nothing but a numeric [id], such as the eight characters
    of [{"id":7}]. [Demo.parse] accepts these texts only, with an integer
    up to 2^53, below which a double holds every integer, and throws on
    everything else; where it returns, it returns what [JSON.parse] does. *)

Module Demo.

Record envelope := { env_id : jsval; env_text : string }.

Definition quote : string := String "034"%char "".

Definition id_prefix : string := "{" +:+ quote +:+ "id" +:+ quote +:+ ":".

Definition syntax_error : Error := {| message := "Unexpected token in JSON" |}.

Fixpoint strip_prefix (p s : string) : option string :=
  match p, s with
  | "", _ => Some s
  | String a p', String b s' => if Ascii.eqb a b then strip_prefix p' s' else None
  | String _ _, "" => None
  end.

(** Decimal digits up to the closing brace that ends the text. *)
Fixpoint digits (s : string) (acc : Z) : option Z :=
  match s with
  | "" => None
  | String c s' =>
      match Ascii.is_nat c, s' with
      | Some d, "" => None
      | Some d, String "}"%char "" => Some (10 * acc + Z.of_nat d)
      | Some d, _ => digits s' (10 * acc + Z.of_nat d)
      | None, _ => None
      end
  end.

Definition parse (text : string) : completion envelope :=
  match strip_prefix id_prefix text with
  | Some (String "0"%char (String _ (String _ _))) => Throw syntax_error
  | Some number =>
      match digits number 0 with
      | Some n =>
          if n <=? 9007199254740992 then Normal {| env_id := VNum n; env_text := text |}
          else Throw syntax_error
      | None => Throw syntax_error
      end
  | None => Throw syntax_error
  end.

(** The text of a response, or of a request, with identifier [n]. *)
Definition line (n : string) : string := id_prefix +:+ n +:+ "}".

Definition with_id (n : Z) (text : string) : envelope :=
  {| env_id := VNum n; env_text := text |}.

(** A request body without an [id] member. *)
Definition anonymous : envelope := {| env_id := VUndefined; env_text := "{}" |}.

Definition env : gmap string string :=
  <["KIWI_BASE_URL" := "http://localhost:8080"]> (<["KIWI_TOKEN" := "secret"]> ∅).

Definition never_throws (command : string) (args : list string) (e : gmap string string)
    : option Error := None.

Definition boot : process envelope := boot env "/app" never_throws.

Definition step : event envelope → wrapper envelope → process envelope :=
  step env_id parse env_text env "/app" never_throws.

Definition run : list (event envelope) → process envelope → process envelope :=
  run env_id parse env_text env "/app" never_throws.

(** The wrapper after the process has started and seen the events. *)
Definition state_after (evs : list (event envelope)) : wrapper envelope :=
  match run evs boot with
  | Running w => w
  | Exited _ => constructed
  end.

(** The worker has been declared ready, three seconds after the start. *)
Definition warm_up : list (event envelope) := [Elapse 3000; TimerFires].

Definition nl : string := String newline "".

(** [Date.now()] at the time of the examples. *)
Definition today : Z := 1700000000000.

Definition request (n : Z) (digits : string) : envelope := with_id n (line digits).

(** Three calls with identifiers 1, 2 and 3. *)
Definition three_calls : list (event envelope) :=
  warm_up ++ [Post (request 1 "1") today None; Post (request 2 "2") today None;
              Post (request 3 "3") today None].

(** One call with identifier 7. *)
Definition one_call : list (event envelope) :=
  warm_up ++ [Post (request 7 "7") today None].

(** Two calls with identifier 7, the second a second after the first. *)
Definition two_calls_same_id : list (event envelope) :=
  one_call ++ [Elapse 1000; Post (request 7 "7") today None].

(** The first of them is answered. *)
Definition first_answered : list (event envelope) :=
  two_calls_same_id ++ [StdoutData (line "7" +:+ nl)].

(** A request without [id], then a request whose [id] is the number that
    [Date.now()] gave for the first. *)
Definition timestamp_taken : list (event envelope) :=
  warm_up ++ [Post anonymous today None;
              Post (request today "1700000000000") today None].

End Demo.

(** Envelopes whose [id] is a number as above, a string of letters, as in
    [{"id":"A"}], or the array [[1]]. The array that [JSON.parse] makes is
    a new one at every call; it has the number 1 here, and
    [strict_equal_parsed] keeps it apart from every stored value. *)

Module Named.

Definition is_letter (c : ascii) : bool :=
  let n := N_of_ascii c in
  ((65 <=? n)%N && (n <=? 90)%N) || ((97 <=? n)%N && (n <=? 122)%N).

(** Letters up to the closing quote and the closing brace that end the
    text. *)
Fixpoint letters (s : string) : option string :=
  match s with
  | "" => None
  | String c s' =>
      if is_letter c then String c <$> letters s'
      else if Ascii.eqb c "034" && String.eqb s' "}" then Some ""
      else None
  end.

Definition parse (text : string) : completion Demo.envelope :=
  match Demo.strip_prefix Demo.id_prefix text with
  | Some (String "034"%char rest) =>
      match letters rest with
      | Some name => Normal {| Demo.env_id := VStr name; Demo.env_text := text |}
      | None => Throw Demo.syntax_error
      end
  | Some "[1]}" => Normal {| Demo.env_id := VObject 1; Demo.env_text := text |}
  | _ => Demo.parse text
  end.

(** The text of a response, or of a request, whose [id] is the string
    [name]. *)
Definition line (name : string) : string :=
  Demo.line (Demo.quote +:+ name +:+ Demo.quote).

Definition request (name : string) : Demo.envelope :=
  {| Demo.env_id := VStr name; Demo.env_text := line name |}.

(** A request whose [id] is the array [[1]], as [express.json()] has
    read it from the body. *)
Definition array_request : Demo.envelope :=
  {| Demo.env_id := VObject 0; Demo.env_text := Demo.line "[1]" |}.

Definition step : event Demo.envelope → wrapper Demo.envelope → process Demo.envelope :=
  step Demo.env_id parse Demo.env_text Demo.env "/app" Demo.never_throws.

Definition run : list (event Demo.envelope) → process Demo.envelope → process Demo.envelope :=
  run Demo.env_id parse Demo.env_text Demo.env "/app" Demo.never_throws.

Definition state_after (evs : list (event Demo.envelope)) : wrapper Demo.envelope :=
  match run evs Demo.boot with
  | Running w => w
  | Exited _ => constructed
  end.

(** Calls A and B. *)
Definition two_calls : list (event Demo.envelope) :=
  Demo.warm_up ++ [Post (request "A") Demo.today None; Post (request "B") Demo.today None].

(** A call whose identifier is an array. *)
Definition array_call : list (event Demo.envelope) :=
  Demo.warm_up ++ [Post array_request Demo.today None].

End Named.

(** ** The worker's own check of its environment (utils/validation) *)

Section Worker.
(** Whether [new URL(text)] succeeds. *)
Variable valid_url : string → bool.

(** [missing.join(', ')] *)
Fixpoint join_comma (names : list string) : string :=
  match names with
  | [] => ""
  | [name] => name
  | name :: names' => name +:+ ", " +:+ join_comma names'
  end.

Definition validateEnvironment (env : gmap string string) : completion () :=
  let required := ["KIWI_BASE_URL"; "KIWI_TOKEN"] in
  let missing := filter (λ key, env_set (env !! key) = false) required in
  if bool_decide (0 < length missing)%nat then
    Throw {| message := "Missing required environment variables: " +:+ join_comma missing |}
  else
    let baseUrl := default "" (env !! "KIWI_BASE_URL") in
    if negb (valid_url baseUrl) then
      Throw {| message := "Invalid KIWI_BASE_URL format: " +:+ baseUrl |}
    else
      let token := default "" (env !! "KIWI_TOKEN") in
      if bool_decide (String.length (trim token) = 0%nat) then
        Throw {| message := "KIWI_TOKEN cannot be empty" |}
      else Normal ().

(** [import 'dotenv/config'] (index.ts, line 2), which runs before
    anything else of the worker: [process.env] as it is after the file
    [.env] of the working directory, if there is one, has been read into
    the environment the process was given. *)
Variable dotenv_config : gmap string string → gmap string string.

(** [main] of the worker as far as the constructor of [KiwiMCPServer]:
    the exit code when the check throws, nothing when it passes. The
    check reads the environment that [dotenv_config] has left. *)
Definition worker_main (env : gmap string string) : option Z :=
  match validateEnvironment (dotenv_config env) with
  | Throw _ => Some 1
  | Normal _ => None
  end.
End Worker.

(** ** Notions used to state the properties *)

Module Notions.
Section WithParser.
Context {V : Type}.
Variable get_id : V → jsval.
Variable JSON_parse : string → completion V.
Implicit Type w : wrapper V.

(** The response a complete line carries, if it carries one. *)
Definition parsed_response (text : string) : option V :=
  if looks_like_json text then
    match JSON_parse (trim text) with
    | Normal response => Some response
    | Throw _ => None
    end
  else None.

(** The responses, in arrival order, that carry identifier [id]. *)
Definition answers (id : jsval) (lines : list string) : list V :=
  filter (λ response, strict_equal_parsed id (get_id response) = true)
         (omap parsed_response lines).

(** A value that the text of a response can bring back as it was: a
    number, a string, a boolean, [null] or [undefined]. An array or an
    object is not: [JSON.parse] makes a new one at every call. *)
Definition primitive (v : jsval) : bool :=
  match v with
  | VObject _ => false
  | _ => true
  end.

(** The responses, in arrival order, whose [id] is the value [id]. *)
Definition carrying (id : jsval) (lines : list string) : list V :=
  filter (λ response, get_id response = id) (omap parsed_response lines).

(** No pending entry carries identifier [id]. *)
Definition unknown_id (id : jsval) w : Prop :=
  Forall (λ req, strict_equal (entry_id req) id = false) (requestQueue w).

(** The pending entries carry pairwise distinct identifiers. *)
Definition distinct_ids w : Prop := NoDup (entry_id <$> requestQueue w).

(** A call that waits: its entry is pending and its promise unsettled. *)
Definition in_flight (e : entry) w : Prop :=
  e ∈ requestQueue w ∧ promises w !! entry_promise e = None.

(** No other pending entry carries the identifier of [e]. *)
Definition sole_carrier (e : entry) w : Prop :=
  ∀ e', e' ∈ requestQueue w → entry_id e' = entry_id e → e' = e.

(** The outcomes that the timer of a call registered under [id] and the
    responses that carry [id] can give to its promise. *)
Definition timeout_or_answer (id : jsval) (o : option (outcome V)) : Prop :=
  match o with
  | None => True
  | Some (Rejected error) => error = timeout_error
  | Some (Resolved response) => strict_equal_parsed id (get_id response) = true
  end.

(** The call registered as promise [p] under identifier [id]: the
    promise exists, the entries that belong to it carry [id], and its
    outcome, if any, is the timeout error or a response that carries
    [id]. *)
Definition registered_as (id : jsval) (p : nat) w : Prop :=
  (p < next_promise w)%nat ∧
  (∀ e, e ∈ requestQueue w → entry_promise e = p → entry_id e = id) ∧
  timeout_or_answer id (promises w !! p).

Definition timer_promise_below (n : nat) (t : timer) : Prop :=
  match action t with
  | RequestTimeout _ p => (p < n)%nat
  | _ => True
  end.

(** Promises are numbered in the order of their creation, and every
    pending entry has a promise of its own. *)
Definition well_formed w : Prop :=
  Forall (λ e, (entry_promise e < next_promise w)%nat) (requestQueue w) ∧
  Forall (timer_promise_below (next_promise w)) (timers w) ∧
  (∀ p, (next_promise w ≤ p)%nat → promises w !! p = None) ∧
  NoDup (entry_promise <$> requestQueue w).

(** What [handleMCPResponse] leaves behind, case by case. *)
Definition respond (text : string) w : wrapper V :=
  if looks_like_json text then
    match JSON_parse (trim text) with
    | Throw error => log [LogParseFailed error; LogResponseText (substring0 200 text)] w
    | Normal response =>
        match list_find (λ req, strict_equal_parsed (entry_id req) (get_id response) = true)
                (requestQueue w) with
        | Some (i, request) =>
            settle (entry_promise request) (Resolved response)
              (set_requestQueue (delete i (requestQueue w)) w)
        | None => w
        end
    end
  else w.

End WithParser.
End Notions.

Import Notions.

(** ** The validation utilities (utils/validation) *)

Module Validation.
Import QArith_base Qcanon.

(** *** Numbers

    A number is [NaN], an infinity or a finite value; the finite values
    are taken among the rationals, of which the doubles are a part. The
    functions below only compare numbers, which is exact on doubles. *)

Inductive number :=
| NaN
| Infinity
| NegInfinity
| Finite (q : Qc).

Definition of_Z (n : Z) : number := Finite (Qc_of_Z n).

(** A number used as a condition: [0] and [NaN] are falsy. *)
Definition number_truthy (n : number) : bool :=
  match n with
  | NaN => false
  | Infinity | NegInfinity => true
  | Finite q => negb (bool_decide (q = Qc_of_Z 0))
  end.

(** [x || d] for an optional number [x]. *)
Definition or_default (x : option number) (d : number) : number :=
  match x with
  | Some n => if number_truthy n then n else d
  | None => d
  end.

(** [Math.max(a, b)] *)
Definition Math_max (a b : number) : number :=
  match a, b with
  | NaN, _ | _, NaN => NaN
  | Infinity, _ | _, Infinity => Infinity
  | NegInfinity, x | x, NegInfinity => x
  | Finite x, Finite y => Finite (if bool_decide (x < y)%Qc then y else x)
  end.

(** [Math.min(a, b)] *)
Definition Math_min (a b : number) : number :=
  match a, b with
  | NaN, _ | _, NaN => NaN
  | NegInfinity, _ | _, NegInfinity => NegInfinity
  | Infinity, x | x, Infinity => x
  | Finite x, Finite y => Finite (if bool_decide (y < x)%Qc then y else x)
  end.

(** [a <= b] *)
Definition number_le (a b : number) : bool :=
  match a, b with
  | NaN, _ | _, NaN => false
  | NegInfinity, _ | _, Infinity => true
  | Finite x, Finite y => bool_decide (x ≤ y)%Qc
  | _, _ => false
  end.

(** [Number.isInteger(n)] *)
Definition isInteger (n : number) : bool :=
  match n with
  | Finite q => bool_decide (Qden (this q) = 1%positive)
  | _ => false
  end.

(** [a < b] *)
Definition number_lt (a b : number) : bool :=
  match a, b with
  | NaN, _ | _, NaN => false
  | Infinity, _ | _, NegInfinity => false
  | NegInfinity, _ | _, Infinity => true
  | Finite x, Finite y => bool_decide (x < y)%Qc
  end.

Record page := { limit : number; offset : number }.

(** validation.ts, [validateLimitAndOffset] *)
Definition validateLimitAndOffset (limit offset : option number) : page :=
  let validatedLimit := Math_min (Math_max (or_default limit (of_Z 50)) (of_Z 1)) (of_Z 1000) in
  let validatedOffset := Math_max (or_default offset (of_Z 0)) (of_Z 0) in
  {| limit := validatedLimit; offset := validatedOffset |}.

(** *** Values

    The values [sanitizeInput] can meet: the primitives, arrays, and
    objects. An object is its prototype and the list that
    [Object.entries] gives for it: its own properties in property order,
    no key twice. *)

Set Warnings "-register-all".

Inductive value :=
| Undefined
| Null
| Bool (b : bool)
| Num (n : number)
| Str (s : string)
| Arr (elems : list value)
| Obj (proto : prototype) (props : list (string * value))
with prototype :=
| ObjectPrototype
| NullPrototype
| ProtoValue (v : value).

(** The five characters of the class in the pattern of [replace]: the
    two angle brackets, the double quote, the apostrophe and the
    ampersand. *)
Definition dangerous (c : ascii) : bool :=
  match c with
  | "<" | ">" | "034" | "'" | "&" => true
  | _ => false
  end%char.

(** [input.replace(pattern, empty)] with the global pattern of that
    class: every such character is taken out. *)
Fixpoint strip (s : string) : string :=
  match s with
  | "" => ""
  | String c s' => if dangerous c then strip s' else String c (strip s')
  end.

(** What an assignment to the key ["__proto__"] finds along the
    prototype chain: an own data property of that name, the accessor of
    [Object.prototype], or nothing. *)
Inductive proto_lookup := FoundData | FoundAccessor | FoundNothing.

Definition has_key (key : string) (props : list (string * value)) : bool :=
  bool_decide (key ∈ props.*1).

Fixpoint find_proto_property (p : prototype) : proto_lookup :=
  match p with
  | ObjectPrototype => FoundAccessor
  | NullPrototype => FoundNothing
  | ProtoValue v =>
      match v with
      | Obj p' props =>
          if has_key "__proto__" props then FoundData else find_proto_property_of v
      | Arr _ => FoundAccessor
      | _ => FoundNothing
      end
  end
with find_proto_property_of (v : value) : proto_lookup :=
  match v with
  | Obj p' _ => find_proto_property p'
  | _ => FoundNothing
  end.

(** An own data property is written: in place when the key exists, at the
    end when it does not. *)
Fixpoint set_own (key : string) (x : value) (props : list (string * value))
    : list (string * value) :=
  match props with
  | [] => [(key, x)]
  | (k, y) :: props' =>
      if String.eqb k key then (k, x) :: props' else (k, y) :: set_own key x props'
  end.

(** [sanitized[key] = x] on the object under construction. The setter
    of [Object.prototype.__proto__] changes the prototype when [x] is an
    object or [null] and does nothing otherwise. *)
Definition assign (o : prototype * list (string * value)) (key : string) (x : value)
    : prototype * list (string * value) :=
  let '(p, props) := o in
  if String.eqb key "__proto__" && negb (has_key key props) then
    match find_proto_property p with
    | FoundAccessor =>
        match x with
        | Arr _ | Obj _ _ => (ProtoValue x, props)
        | Null => (NullPrototype, props)
        | _ => (p, props)
        end
    | _ => (p, set_own key x props)
    end
  else (p, set_own key x props).

Definition assign_all (entries : list (string * value)) : value :=
  let '(p, props) := foldl (λ o kv, assign o kv.1 kv.2) (ObjectPrototype, []) entries in
  Obj p props.

(** validation.ts, [sanitizeInput] *)
Fixpoint sanitizeInput (input : value) : value :=
  match input with
  | Str s => Str (strip s)
  | Arr elems => Arr (map sanitizeInput elems)
  | Obj _ props => assign_all (map (λ kv, (kv.1, sanitizeInput kv.2)) props)
  | _ => input
  end.

(** validation.ts, [validateId] *)
Definition validateId (id : value) : bool :=
  match id with
  | Num n => number_lt (of_Z 0) n && isInteger n
  | _ => false
  end.

(** *** Patterns

    A regular expression without anchors; [test] below is the test of the
    pattern between [^] and [$]. *)

Inductive regex :=
| Never
| Epsilon
| Class (member : ascii → bool)
| Seq (r1 r2 : regex)
| Alt (r1 r2 : regex)
| Star (r : regex).

Definition Plus (r : regex) : regex := Seq r (Star r).

Fixpoint nullable (r : regex) : bool :=
  match r with
  | Never => false
  | Epsilon => true
  | Class _ => false
  | Seq r1 r2 => nullable r1 && nullable r2
  | Alt r1 r2 => nullable r1 || nullable r2
  | Star _ => true
  end.

(** What is left of [r] after the character [c]. *)
Fixpoint after (c : ascii) (r : regex) : regex :=
  match r with
  | Never | Epsilon => Never
  | Class member => if member c then Epsilon else Never
  | Seq r1 r2 =>
      if nullable r1 then Alt (Seq (after c r1) r2) (after c r2)
      else Seq (after c r1) r2
  | Alt r1 r2 => Alt (after c r1) (after c r2)
  | Star r' => Seq (after c r') (Star r')
  end.

(** [/^r$/.test(s)] *)
Fixpoint test (r : regex) (s : string) : bool :=
  match s with
  | "" => nullable r
  | String c s' => test (after c r) s'
  end.

Definition between (lo hi : ascii) (c : ascii) : bool :=
  (nat_of_ascii lo <=? nat_of_ascii c)%nat && (nat_of_ascii c <=? nat_of_ascii hi)%nat.

Definition upper (c : ascii) : bool := between "A" "Z" c.
Definition digit (c : ascii) : bool := between "0" "9" c.
Definition exactly (x : ascii) (c : ascii) : bool := Ascii.eqb c x.

(** [[^\s@]] *)
Definition not_space_nor_at (c : ascii) : bool := negb (is_white c) && negb (exactly "@" c).

(** [/^[A-Z][A-Z0-9]*-[0-9]+$/] *)
Definition jira_pattern : regex :=
  Seq (Class upper)
    (Seq (Star (Class (λ c, upper c || digit c)))
       (Seq (Class (exactly "-")) (Plus (Class digit)))).

(** validation.ts, [validateJiraIssueKey] *)
Definition validateJiraIssueKey (issueKey : string) : bool := test jira_pattern issueKey.

(** [/^[^\s@]+@[^\s@]+\.[^\s@]+$/] *)
Definition email_pattern : regex :=
  Seq (Plus (Class not_space_nor_at))
    (Seq (Class (exactly "@"))
       (Seq (Plus (Class not_space_nor_at))
          (Seq (Class (exactly ".")) (Plus (Class not_space_nor_at))))).

(** validation.ts, [validateEmail] *)
Definition validateEmail (email : string) : bool := test email_pattern email.

(** What a pattern accepts, said without the pattern matcher. *)
Inductive matches : regex → string → Prop :=
| matches_epsilon : matches Epsilon ""
| matches_class member c : member c = true → matches (Class member) (String c "")
| matches_seq r1 r2 s1 s2 : matches r1 s1 → matches r2 s2 → matches (Seq r1 r2) (s1 +:+ s2)
| matches_alt_l r1 r2 s : matches r1 s → matches (Alt r1 r2) s
| matches_alt_r r1 r2 s : matches r2 s → matches (Alt r1 r2) s
| matches_star_nil r : matches (Star r) ""
| matches_star_cons r s1 s2 : matches r s1 → matches (Star r) s2 → matches (Star r) (s1 +:+ s2).

(** Every character of [s] is in the class. *)
Fixpoint all_in (member : ascii → bool) (s : string) : bool :=
  match s with
  | "" => true
  | String c s' => member c && all_in member s'
  end.

(** The number of occurrences of [x] in [s]. *)
Fixpoint count_char (x : ascii) (s : string) : nat :=
  match s with
  | "" => 0%nat
  | String c s' => ((if Ascii.eqb c x then 1 else 0) + count_char x s')%nat
  end.

(** No string in [v] holds a character of the class of [strip]:
    elements, property values and prototypes included, keys left out. *)
Fixpoint clean (v : value) : Prop :=
  match v with
  | Str s => all_in (λ c, negb (dangerous c)) s = true
  | Arr elems => (fix all (l : list value) : Prop :=
                    match l with [] => True | x :: l' => clean x ∧ all l' end) elems
  | Obj p props =>
      match p with ProtoValue v' => clean v' | _ => True end ∧
      (fix all (l : list (string * value)) : Prop :=
         match l with [] => True | kv :: l' => clean kv.2 ∧ all l' end) props
  | _ => True
  end.

(** Objects as [JSON.parse] builds them, with no member named
    ["__proto__"]: the prototype is [Object.prototype] and no key comes
    twice, at every depth. *)
Fixpoint plain (v : value) : Prop :=
  match v with
  | Arr elems => (fix all (l : list value) : Prop :=
                    match l with [] => True | x :: l' => plain x ∧ all l' end) elems
  | Obj p props =>
      p = ObjectPrototype ∧ NoDup props.*1 ∧ ("__proto__" ∉ props.*1) ∧
      (fix all (l : list (string * value)) : Prop :=
         match l with [] => True | kv :: l' => plain kv.2 ∧ all l' end) props
  | _ => True
  end.

End Validation.

(** ** Notions used for the life of the worker *)

Module Lifecycle.
Section WithIds.
Context {V : Type}.
Variable get_id : V → jsval.

(** Any event but output of the worker. *)
Definition not_stdout (ev : event V) : bool :=
  match ev with
  | StdoutData _ => false
  | _ => true
  end.

(** The identifiers that [request.id || Date.now()] can give: the truthy
    values and the numbers. *)
Definition registrable (id : jsval) : bool :=
  truthy id || match id with VNum _ => true | _ => false end.

(** The event brings no output of the worker and no request that is
    registered under [id]. *)
Definition quiet_for (id : jsval) (ev : event V) : bool :=
  match ev with
  | StdoutData _ => false
  | Post body date_now _ => negb (strict_equal (or_else (get_id body) (VNum date_now)) id)
  | _ => true
  end.

(** No pending timer is the timeout of a call registered under [id]. *)
Definition no_timeout_for (id : jsval) (w : wrapper V) : Prop :=
  Forall (λ t, match action t with
               | RequestTimeout id' _ => strict_equal id' id = false
               | _ => True
               end) (timers w).

End WithIds.

(** [Demo.parse] with the text of a response whose [id] is [null]. *)
Definition parse_with_null (text : string) : completion Demo.envelope :=
  if String.eqb text (Demo.line "null") then
    Normal {| Demo.env_id := VNull; Demo.env_text := text |}
  else Demo.parse text.

(** An environment whose token is the empty string. *)
Definition empty_token_env : gmap string string :=
  <["KIWI_BASE_URL" := "http://localhost:8080"]> (<["KIWI_TOKEN" := ""]> ∅).

(** An environment whose token is made of blanks. *)
Definition blank_token_env : gmap string string :=
  <["KIWI_BASE_URL" := "http://localhost:8080"]> (<["KIWI_TOKEN" := "   "]> ∅).

End Lifecycle.

(** ** The worker's logger (utils/logger) *)

Module Logger.

Inductive stream := Stdout | Stderr.

(** [console.log] writes its text and a line terminator to the standard
    output; [console.warn] and [console.error] write to the standard
    error. *)
Definition console_log (text : string) : stream * string := (Stdout, text +:+ String newline "").
Definition console_warn (text : string) : stream * string := (Stderr, text +:+ String newline "").
Definition console_error (text : string) : stream * string := (Stderr, text +:+ String newline "").

Section WithComponent.
(** [this.component], and the environment of the process. *)
Variable component : string.
Variable process_env : gmap string string.

(** [formatMessage]. [timestamp] is what [new Date().toISOString()]
    gives; [data] is absent when the argument is falsy and is otherwise
    the text that [JSON.stringify(data, null, 2)] gives. *)
Definition formatMessage (timestamp level message : string) (data : option string) : string :=
  let prefix := timestamp +:+ " [" +:+ level +:+ "] " +:+ component +:+ ":" in
  match data with
  | Some text => prefix +:+ " " +:+ message +:+ " " +:+ text
  | None => prefix +:+ " " +:+ message
  end.

Definition info (timestamp message : string) (data : option string) : list (stream * string) :=
  [console_log (formatMessage timestamp "INFO" message data)].

Definition warn (timestamp message : string) (data : option string) : list (stream * string) :=
  [console_warn (formatMessage timestamp "WARN" message data)].

(** [error]: for an instance of [Error], [data] is the text of the
    object made of its message and its stack. *)
Definition error (timestamp message : string) (data : option string) : list (stream * string) :=
  [console_error (formatMessage timestamp "ERROR" message data)].

Definition debug (timestamp message : string) (data : option string) : list (stream * string) :=
  if bool_decide (process_env !! "LOG_LEVEL" = Some "DEBUG") then
    [console_log (formatMessage timestamp "DEBUG" message data)]
  else [].

End WithComponent.

(** The texts of [toISOString] start with a digit of the year or with
    the sign of a year of six digits. *)
Definition starts_like_a_timestamp (timestamp : string) : bool :=
  match timestamp with
  | "" => false
  | String c _ => Validation.digit c || Ascii.eqb c "+" || Ascii.eqb c "-"
  end.

(** What a list of writes sends to the standard output. *)
Definition to_stdout (writes : list (stream * string)) : string :=
  JsString.concat (omap (λ sw, match sw.1 with Stdout => Some sw.2 | Stderr => None end) writes).

(** A line that starts with a character which is no white space and no
    opening brace or bracket. *)
Definition no_json_line (l : string) : Prop :=
  has_newline l = false ∧
  ∃ c rest, l = String c rest ∧ is_white c = false ∧ c ≠ "{"%char ∧ c ≠ "["%char.

(** A write of one of the four methods, called without data on a message
    of one line by a logger whose component has one line. *)
Inductive plain_write : stream * string → Prop :=
| plain_write_of component env timestamp message write :
    starts_like_a_timestamp timestamp = true → has_newline timestamp = false →
    has_newline component = false → has_newline message = false →
    write ∈ info component timestamp message None ++ warn component timestamp message None ++
            error component timestamp message None ++
            debug component env timestamp message None →
    plain_write write.

End Logger.

(** ** Test steps as texts (services/testAuthoringService) *)

Module TestSteps.

(** [{ action, expected }], both of them texts as the signatures have
    them. *)
Record step := { step_action : string; step_expected : string }.

(** [{ action, expected_result }], the two text fields of Kiwi TCMS. *)
Record kiwi_texts := { kiwi_action : string; expected_result : string }.

(** The decimal digits of a number, as a template literal prints it. *)
Definition decimal (n : nat) : string :=
  DecimalString.NilEmpty.string_of_uint (Nat.to_uint n).

(** [parts.join('\n')] *)
Fixpoint join_lines (parts : list string) : string :=
  match parts with
  | [] => ""
  | [part] => part
  | part :: parts' => part +:+ String newline (join_lines parts')
  end.

(** [texts.map((text, index) => `${index + 1}. ${text}`)], for the texts
    from index [from] on. *)
Fixpoint numbered (from : nat) (texts : list string) : list string :=
  match texts with
  | [] => []
  | text :: texts' => (decimal (S from) +:+ ". " +:+ text) :: numbered (S from) texts'
  end.

(** testAuthoringService.ts, [formatTestSteps] *)
Definition formatTestSteps (steps : list step) : kiwi_texts :=
  {| kiwi_action := join_lines (numbered 0 (step_action <$> steps));
     expected_result := join_lines (numbered 0 (step_expected <$> steps)) |}.

(** The length of the longest run of characters of a class at the start
    of a text. *)
Fixpoint run_length (member : ascii → bool) (s : string) : nat :=
  match s with
  | String c s' => if member c then S (run_length member s') else 0%nat
  | "" => 0%nat
  end.

Fixpoint drop (n : nat) (s : string) : string :=
  match n, s with
  | S n', String _ s' => drop n' s'
  | _, _ => s
  end.

(** The pattern of digits, a dot and white space, matched at the start
    of [s]: the length of the match. The digits and the white space are
    taken as far as they go; to give a digit back would leave a digit
    where the dot has to be. *)
Definition number_dot_length (s : string) : option nat :=
  let digits := run_length Validation.digit s in
  match digits, drop digits s with
  | S _, String "."%char rest => Some (digits + 1 + run_length is_white rest)%nat
  | _, _ => None
  end.

(** The pattern of [parseTestSteps]: an optional line terminator before
    the pattern above. The terminator is taken when it is there, and
    given back when the rest does not match after it. *)
Definition step_number_length (s : string) : option nat :=
  match s with
  | String c s' =>
      if Ascii.eqb c newline then
        match number_dot_length s' with
        | Some n => Some (S n)
        | None => number_dot_length s
        end
      else number_dot_length s
  | "" => None
  end.

(** [s.split(pattern)] for a pattern without groups that matches no
    empty text, where [match_length] gives the length of the match at
    the start of a text: the texts between the leftmost matches. [skip]
    characters of the last match are still to pass, and [piece] is the
    text read since that match. *)
Fixpoint split_from (match_length : string → option nat) (s : string) (skip : nat)
    (piece : string) : list string :=
  match s with
  | "" => [piece]
  | String c s' =>
      match skip with
      | S skip' => split_from match_length s' skip' piece
      | O =>
          match match_length s with
          | Some (S n) => piece :: split_from match_length s' n ""
          | _ => split_from match_length s' 0 (piece +:+ String c "")
          end
      end
  end.

Definition split_pattern (match_length : string → option nat) (s : string) : list string :=
  split_from match_length s 0 "".

(** [s.trim()] used as a condition. *)
Definition nonblank (s : string) : bool := JsString.truthy (trim s).

(** [text ? text.split(pattern).filter(s => s.trim()) : ['']] *)
Definition step_texts (text : string) : list string :=
  if JsString.truthy text then
    filter (λ s, nonblank s = true) (split_pattern step_number_length text)
  else [""].

(** [texts[i]?.trim() || ''] *)
Definition text_at (texts : list string) (i : nat) : string :=
  match texts !! i with
  | Some s => trim s
  | None => ""
  end.

(** testAuthoringService.ts, [parseTestSteps] *)
Definition parseTestSteps (action expected : string) : list step :=
  if negb (JsString.truthy action) && negb (JsString.truthy expected) then []
  else
    let actionSteps := step_texts action in
    let expectedSteps := step_texts expected in
    let maxSteps := Nat.max (length actionSteps) (length expectedSteps) in
    omap (λ i, let actionText := text_at actionSteps i in
               let expectedText := text_at expectedSteps i in
               if JsString.truthy actionText || JsString.truthy expectedText then
                 Some {| step_action := actionText; step_expected := expectedText |}
               else None)
         (seq 0 maxSteps).

(** validation.ts, [validateTestSteps], on an array of steps whose two
    fields are texts. *)
Definition validateTestSteps (steps : list step) : bool :=
  if bool_decide (length steps = 0%nat) then false
  else forallb (λ s, (0 <? String.length (trim (step_action s)))%nat &&
                     (0 <? String.length (trim (step_expected s)))%nat) steps.

(** No digit of [s] has a dot after it. *)
Fixpoint no_number_dot (s : string) : bool :=
  match s with
  | String c s' =>
      match s' with
      | String d _ => negb (Validation.digit c && Ascii.eqb d ".") && no_number_dot s'
      | "" => true
      end
  | "" => true
  end.

(** A text that is empty or starts with a line terminator. *)
Definition at_line_end (tail : string) : Prop := tail = "" ∨ ∃ t, tail = String newline t.

(** What follows a text in the joined lines: nothing, or the line of
    the next text. *)
Definition following (from : nat) (texts : list string) : string :=
  match texts with
  | [] => ""
  | _ => String newline (join_lines (numbered from texts))
  end.

(** A text that is not blank and in which no digit has a dot after it. *)
Definition usable (x : string) : Prop := nonblank x = true ∧ no_number_dot x = true.

(** The step with its two texts trimmed. *)
Definition trimmed (s : step) : step :=
  {| step_action := trim (step_action s); step_expected := trim (step_expected s) |}.

End TestSteps.

(** ** Test steps read back (services/testManagementService) *)

Module Management.
Import TestSteps.

(** A line terminator at the start of [s]. *)
Definition line_end (s : string) : option nat :=
  match s with
  | String c _ => if Ascii.eqb c newline then Some 1%nat else None
  | "" => None
  end.

(** Digits and a dot at the start of [s]; the digits are taken as far as
    they go. *)
Definition number_dot (s : string) : option nat :=
  let digits := run_length Validation.digit s in
  match digits, drop digits s with
  | S _, String "."%char _ => Some (digits + 1)%nat
  | _, _ => None
  end.

(** The word [Step], a space, digits and a colon at the start of [s]. *)
Definition step_label (s : string) : option nat :=
  if String.prefix "Step " s then
    let rest := drop 5 s in
    let digits := run_length Validation.digit rest in
    match digits, drop digits rest with
    | S _, String ":"%char _ => Some (5 + digits + 1)%nat
    | _, _ => None
    end
  else None.

(** The word [Expected] and a colon at the start of [s]. *)
Definition expected_label (s : string) : option nat :=
  if String.prefix "Expected:" s then Some 9%nat else None.

(** The alternatives of a pattern are tried in their order. *)
Fixpoint first_of (alternatives : list (string → option nat)) (s : string) : option nat :=
  match alternatives with
  | [] => None
  | alternative :: alternatives' =>
      match alternative s with
      | Some n => Some n
      | None => first_of alternatives' s
      end
  end.

(** The pattern for the actions and the pattern for the expected results. *)
Definition action_pattern : string → option nat := first_of [line_end; number_dot; step_label].
Definition expected_pattern : string → option nat :=
  first_of [line_end; number_dot; expected_label].

(** [text ? text.split(pattern).filter(s => s.trim()) : ['']] *)
Definition step_texts (pattern : string → option nat) (text : string) : list string :=
  if JsString.truthy text then filter (λ s, nonblank s = true) (split_pattern pattern text)
  else [""].

(** testManagementService.ts, [parseTestSteps] *)
Definition parseTestSteps (action expected : string) : list step :=
  if negb (JsString.truthy action) && negb (JsString.truthy expected) then []
  else
    let actionSteps := step_texts action_pattern action in
    let expectedSteps := step_texts expected_pattern expected in
    let maxSteps := Nat.max (length actionSteps) (length expectedSteps) in
    let steps := (λ i, {| step_action := text_at actionSteps i;
                          step_expected := text_at expectedSteps i |}) <$> seq 0 maxSteps in
    filter (λ step, JsString.truthy (step_action step) || JsString.truthy (step_expected step)
                    = true) steps.

(** The pattern matches at no place of [s]. *)
Fixpoint never (pattern : string → option nat) (s : string) : bool :=
  match s with
  | "" => true
  | String _ s' => bool_decide (pattern s = None) && never pattern s'
  end.

(** A text of one line, in which no digit has a dot after it and the
    label starts nowhere. *)
Definition one_line (label : string → option nat) (x : string) : Prop :=
  has_newline x = false ∧ no_number_dot x = true ∧ never label x = true.

(** A label that does not start in a text does not start at its end
    either when a new line follows. *)
Definition line_bound (label : string → option nat) : Prop :=
  ∀ b tail, at_line_end tail → label b = None → label (b +:+ tail) = None.

End Management.

(** ** Statuses and priorities (utils/validation, kiwiApiClient) *)

Module Status.
Import Validation.

(** A text as its code units. The texts of this development have code
    units below 256; what [toUpperCase] makes of them can have larger
    ones. *)
Definition units (s : string) : list N := N_of_ascii <$> list_ascii_of_string s.

(** The upper case of one code unit below 256: the letters a to z, the
    micro sign (which becomes the Greek capital letter mu), the sharp s
    (which becomes two letters S), the letters from 224 to 254 but the
    division sign, and the y with diaeresis (which becomes the code unit
    376). *)
Definition upper_unit (c : N) : list N :=
  if (97 <=? c)%N && (c <=? 122)%N then [(c - 32)%N]
  else if (c =? 181)%N then [924%N]
  else if (c =? 223)%N then [83%N; 83%N]
  else if (224 <=? c)%N && (c <=? 254)%N && negb (c =? 247)%N then [(c - 32)%N]
  else if (c =? 255)%N then [376%N]
  else [c].

(** [s.toUpperCase()] *)
Definition toUpperCase (s : string) : list N := units s ≫= upper_unit.

(** [words.includes(s.toUpperCase())] *)
Definition includes_upper (words : list string) (s : string) : bool :=
  bool_decide (toUpperCase s ∈ units <$> words).

(** validation.ts, [validateStatus] and [validatePriority] *)
Definition validateStatus (status : string) : bool :=
  includes_upper ["PASS"; "FAIL"; "BLOCKED"; "ERROR"; "IDLE"] status.

Definition validatePriority (priority : string) : bool :=
  includes_upper ["P1"; "P2"; "P3"; "P4"] priority.

(** kiwiApiClient.ts, [statusMap] and [priorityMap] *)
Definition statusMap : list (string * Z) :=
  [("IDLE", 1); ("PASS", 2); ("FAIL", 3); ("BLOCKED", 4); ("ERROR", 5)].

Definition priorityMap : list (string * Z) :=
  [("P1", 1); ("P2", 2); ("P3", 3); ("P4", 4)].

(** The names of the members that every object literal inherits. *)
Definition inherited_names : list string :=
  ["constructor"; "__defineGetter__"; "__defineSetter__"; "hasOwnProperty";
   "__lookupGetter__"; "__lookupSetter__"; "isPrototypeOf"; "propertyIsEnumerable";
   "toString"; "valueOf"; "__proto__"; "toLocaleString"].

(** What [map[key]] gives: the number of an own member, a member
    inherited from [Object.prototype] (a function or an object, hence
    truthy), or [undefined]. *)
Inductive member :=
| Own (id : Z)
| Inherited
| Absent.

Definition get (map : list (string * Z)) (key : list N) : member :=
  match list_find (λ kv, units kv.1 = key) map with
  | Some (_, (_, id)) => Own id
  | None => if bool_decide (key ∈ units <$> inherited_names) then Inherited else Absent
  end.

(** [map[key.toUpperCase()] || fallback] *)
Definition get_or (map : list (string * Z)) (fallback : Z) (key : string) : member :=
  match get map (toUpperCase key) with
  | Own id => if (id =? 0)%Z then Own fallback else Own id
  | Inherited => Inherited
  | Absent => Own fallback
  end.

(** kiwiApiClient.ts, [getStatusId] and [getPriorityId] *)
Definition getStatusId (status : string) : member := get_or statusMap 1 status.
Definition getPriorityId (priority : string) : member := get_or priorityMap 3 priority.

Global Instance number_eq_dec : EqDecision number.
Proof. solve_decision. Defined.

(** [Object.entries(map).find(([, id]) => id === wanted)], then the name
    of the entry or the fallback. No identifier is [NaN], so [===] is
    equality here. *)
Definition name_of (map : list (string * Z)) (fallback : string) (wanted : number) : string :=
  match list_find (λ kv, of_Z kv.2 = wanted) map with
  | Some (_, (name, _)) => name
  | None => fallback
  end.

(** kiwiApiClient.ts, [getStatusName] and [getPriorityName] *)
Definition getStatusName (statusId : number) : string := name_of statusMap "IDLE" statusId.
Definition getPriorityName (priorityId : number) : string := name_of priorityMap "P3" priorityId.

(** A code unit of a lower case letter from a to z. *)
Definition lower_letter (c : N) : bool := (97 <=? c)%N && (c <=? 122)%N.

End Status.

(** ** The counts of a run report (services/testExecutionService) *)

Module Report.
Import Validation Status.

(** The lower case of one code unit below 256: the letters A to Z and
    the letters from 192 to 222 but the multiplication sign. *)
Definition lower_char (c : ascii) : ascii :=
  let n := nat_of_ascii c in
  if ((65 <=? n) && (n <=? 90))%nat ||
     ((192 <=? n) && (n <=? 222) && negb (n =? 215))%nat
  then ascii_of_nat (n + 32) else c.

(** [s.toLowerCase()] *)
Fixpoint toLowerCase (s : string) : string :=
  match s with
  | "" => ""
  | String c s' => String (lower_char c) (toLowerCase s')
  end.

(** The object [stats]: its five counters, and the names of the members
    that have been added to it. *)
Record stats := {
  pass : nat; fail : nat; blocked : nat; error : nat; idle : nat;
  added : list string
}.

(** [{ pass: 0, fail: 0, blocked: 0, error: 0, idle: 0 }] *)
Definition no_stats : stats :=
  {| pass := 0; fail := 0; blocked := 0; error := 0; idle := 0; added := [] |}.

(** [if (status in stats) stats[status]++]. Of the names that the object
    inherits, two are in lower case: to count under [constructor] adds a
    member of that name, and to count under [__proto__] changes
    nothing. *)
Definition count (status : string) (s : stats) : stats :=
  if String.eqb status "pass" then
    {| pass := S (pass s); fail := fail s; blocked := blocked s; error := error s;
       idle := idle s; added := added s |}
  else if String.eqb status "fail" then
    {| pass := pass s; fail := S (fail s); blocked := blocked s; error := error s;
       idle := idle s; added := added s |}
  else if String.eqb status "blocked" then
    {| pass := pass s; fail := fail s; blocked := S (blocked s); error := error s;
       idle := idle s; added := added s |}
  else if String.eqb status "error" then
    {| pass := pass s; fail := fail s; blocked := blocked s; error := S (error s);
       idle := idle s; added := added s |}
  else if String.eqb status "idle" then
    {| pass := pass s; fail := fail s; blocked := blocked s; error := error s;
       idle := S (idle s); added := added s |}
  else if bool_decide (status ∈ added s) then s
  else if String.eqb status "constructor" then
    {| pass := pass s; fail := fail s; blocked := blocked s; error := error s;
       idle := idle s; added := added s ++ [status] |}
  else s.

(** The [forEach] of [runReport] over the statuses of the executions. *)
Definition tally (statuses : list number) : stats :=
  foldl (λ s status, count (toLowerCase (getStatusName status)) s) no_stats statuses.

(** The report in JSON: [{ pass, fail, blocked, error, total }]. *)
Record report := {
  report_pass : nat; report_fail : nat; report_blocked : nat; report_error : nat;
  total : nat
}.

Definition json_report (statuses : list number) : report :=
  let s := tally statuses in
  {| report_pass := pass s; report_fail := fail s; report_blocked := blocked s;
     report_error := error s; total := length statuses |}.

(** How many of the statuses are the identifier [id]. *)
Definition with_status (id : Z) (statuses : list number) : nat :=
  length (filter (λ status, status = of_Z id) statuses).

(** How many of the statuses are none of the identifiers 2 to 5. *)
Definition without_result (statuses : list number) : nat :=
  length (filter (λ status, status ∉ of_Z <$> [2; 3; 4; 5]) statuses).

End Report.

(** * Properties *)

Example split_three : split ("ab" +:+ String newline ("" +:+ String newline "c")) = ["ab"; ""; "c"].
Proof. reflexivity. Qed.

Example trim_both : trim "  {x}  " = "{x}".
Proof. reflexivity. Qed.

Example demo_parse_7 : Demo.parse (Demo.line "7") = Normal (Demo.with_id 7 (Demo.line "7")).
Proof. reflexivity. Qed.

Example demo_parse_leading_zero : Demo.parse (Demo.line "07") = Throw Demo.syntax_error.
Proof. reflexivity. Qed.

Example demo_parse_120 : Demo.parse (Demo.line "120") = Normal (Demo.with_id 120 (Demo.line "120")).
Proof. reflexivity. Qed.

Example demo_boot_runs : ∃ w, Demo.boot = Running w ∧ isReady w = false ∧ length (timers w) = 1%nat.
Proof. eexists. split; [vm_compute; reflexivity | split; reflexivity]. Qed.

(** ** Framing: the pieces of a text *)

Section Framing.

Lemma append_empty_r (s : string) : s +:+ "" = s.
Proof. induction s as [|c s IH]; [reflexivity|]. change (String c (s +:+ "") = String c s). by rewrite IH. Qed.

Lemma append_assoc (a b c : string) : (a +:+ b) +:+ c = a +:+ (b +:+ c).
Proof.
  induction a as [|x a IH]; [reflexivity|].
  change (String x ((a +:+ b) +:+ c) = String x (a +:+ (b +:+ c))). by rewrite IH.
Qed.

Lemma split_not_nil (s : string) : split s ≠ [].
Proof.
  destruct s as [|c s]; simpl; [done|].
  destruct (Ascii.eqb c newline); [done|]. by destruct (split s).
Qed.

Lemma has_newline_app (a b : string) :
  has_newline (a +:+ b) = has_newline a || has_newline b.
Proof.
  induction a as [|c a IH]; [reflexivity|].
  change (Ascii.eqb c newline || has_newline (a +:+ b)
          = Ascii.eqb c newline || has_newline a || has_newline b).
  rewrite IH. by destruct (Ascii.eqb c newline).
Qed.

(** The complete lines and the trailing fragment of a text. *)
Lemma split_snoc (s : string) :
  split s = removelast (split s) ++ [default "" (last (split s))].
Proof.
  pose proof (split_not_nil s) as Hne.
  induction (split s) as [|x l IH]; [done|].
  destruct l as [|y l]; [reflexivity|].
  change (x :: y :: l = x :: (removelast (y :: l) ++ [default "" (last (y :: l))])).
  f_equal. by apply IH.
Qed.

Lemma split_app (a b : string) :
  split (a +:+ b) =
    removelast (split a) ++
    match split b with
    | h :: t => (default "" (last (split a)) +:+ h) :: t
    | [] => []
    end.
Proof.
  induction a as [|c a IH].
  - change (split b = match split b with h :: t => ("" +:+ h) :: t | [] => [] end).
    by destruct (split b).
  - change (String c a +:+ b) with (String c (a +:+ b)). simpl split.
    pose proof (split_not_nil a) as Hne.
    destruct (Ascii.eqb c newline).
    + rewrite IH. destruct (split a) as [|x l]; [done|]. reflexivity.
    + rewrite IH. destruct (split a) as [|x l]; [done|].
      destruct l as [|y l].
      * simpl. pose proof (split_not_nil b) as Hb.
        by destruct (split b).
      * reflexivity.
Qed.

Lemma split_newline_free (s : string) : has_newline s = false → split s = [s].
Proof.
  induction s as [|c s IH]; [done|]. simpl. intros H.
  destruct (Ascii.eqb c newline); [done|]. by rewrite IH.
Qed.

Lemma split_pieces_newline_free (s : string) :
  Forall (λ piece, has_newline piece = false) (split s).
Proof.
  induction s as [|c s IH]; simpl; [by repeat constructor|].
  destruct (Ascii.eqb c newline) eqn:Hc; [by constructor|].
  pose proof (split_not_nil s) as Hne.
  destruct (split s) as [|x l]; [done|].
  inversion IH; subst. constructor; [|done]. simpl. by rewrite Hc.
Qed.

Lemma fragment_newline_free (s : string) :
  has_newline (default "" (last (split s))) = false.
Proof.
  pose proof (split_pieces_newline_free s) as H. rewrite split_snoc in H.
  apply Forall_app in H as [_ H]. by inversion H.
Qed.

(** A text made of terminated lines and a fragment splits into them. *)
Lemma split_unlines (ls : list string) (frag : string) :
  Forall (λ l, has_newline l = false) ls → has_newline frag = false →
  split (unlines ls +:+ frag) = ls ++ [frag].
Proof.
  intros Hls Hfrag. induction Hls as [|l ls Hl Hls IH].
  - by apply split_newline_free.
  - change (split ((l +:+ String newline (unlines ls)) +:+ frag) = l :: (ls ++ [frag])).
    rewrite append_assoc, split_app, (split_newline_free l Hl).
    change (String newline (unlines ls) +:+ frag) with (String newline (unlines ls +:+ frag)).
    simpl split. rewrite IH. simpl. by rewrite append_empty_r.
Qed.

Lemma removelast_snoc {A} (l : list A) (x : A) : removelast (l ++ [x]) = l.
Proof. rewrite removelast_app; [|done]. simpl. by rewrite app_nil_r. Qed.

Lemma framed_split (buffer data : string) :
  framed buffer data =
    (removelast (split (buffer +:+ data)), default "" (last (split (buffer +:+ data)))).
Proof.
  unfold framed, pop. f_equal.
  destruct (last (split (buffer +:+ data))) as [s|]; [|done]. by destruct s.
Qed.

Lemma framed_fragment_newline_free (buffer data : string) :
  has_newline (framed buffer data).2 = false.
Proof. rewrite framed_split. apply fragment_newline_free. Qed.

Lemma delivered_app (l1 l2 : list string) :
  delivered (l1 ++ l2) = delivered l1 ++ delivered l2.
Proof. unfold delivered. by rewrite filter_app, fmap_app. Qed.

Lemma stream_lines_cons (data : string) (chunks : list string) (buffer : string) :
  stream_lines (data :: chunks) buffer =
    (delivered (framed buffer data).1 ++ (stream_lines chunks (framed buffer data).2).1,
     (stream_lines chunks (framed buffer data).2).2).
Proof.
  cbn [stream_lines]. destruct (framed buffer data) as [lines fragment].
  cbn [fst snd]. by destruct (stream_lines chunks fragment).
Qed.

(** Feeding a text in chunks passes on what feeding it at once does. *)
Lemma stream_lines_concat (chunks : list string) (buffer : string) :
  has_newline buffer = false →
  stream_lines chunks buffer =
    (delivered (removelast (split (buffer +:+ concat chunks))),
     default "" (last (split (buffer +:+ concat chunks)))).
Proof.
  revert buffer. induction chunks as [|data chunks IH]; intros buffer Hb.
  - simpl. by rewrite append_empty_r, split_newline_free.
  - rewrite stream_lines_cons, framed_split. cbn [fst snd].
    rewrite (IH _ (fragment_newline_free _)). cbn [fst snd].
    change (concat (data :: chunks)) with (data +:+ concat chunks).
    rewrite <- (append_assoc buffer data).
    rewrite (split_app (buffer +:+ data) (concat chunks)).
    set (frag := default "" (last (split (buffer +:+ data)))).
    rewrite (split_app frag (concat chunks)).
    rewrite (split_newline_free frag (fragment_newline_free _)). simpl.
    pose proof (split_not_nil (concat chunks)) as Hne.
    destruct (split (concat chunks)) as [|h t]; [done|].
    by rewrite !last_app_cons, !removelast_app, delivered_app by done.
Qed.

End Framing.

(** ** Values, arrays and promises *)

Lemma strict_equal_true (a b : jsval) : strict_equal a b = true ↔ a = b.
Proof.
  split.
  - destruct a, b; simpl; try done.
    + intros H. by apply Bool.eqb_prop in H as ->.
    + intros H. by apply Z.eqb_eq in H as ->.
    + intros H. by apply String.eqb_eq in H as ->.
    + intros H. by apply Nat.eqb_eq in H as ->.
  - intros <-. destruct a; simpl; try done.
    + by destruct b.
    + apply Z.eqb_refl.
    + apply String.eqb_refl.
    + apply Nat.eqb_refl.
Qed.

Lemma strict_equal_parsed_true (a b : jsval) : strict_equal_parsed a b = true → a = b.
Proof. destruct b; simpl; try done; apply strict_equal_true. Qed.

Lemma strict_equal_parsed_implies (a b : jsval) :
  strict_equal_parsed a b = true → strict_equal a b = true.
Proof. by destruct b. Qed.

Lemma findIndex_Some {A} (f : A → bool) (arr : list A) (i : nat) :
  findIndex f arr = Some i ↔
  ∃ x, arr !! i = Some x ∧ f x = true ∧
       ∀ j y, arr !! j = Some y → (j < i)%nat → f y ≠ true.
Proof.
  unfold findIndex. split.
  - destruct (list_find _ arr) as [[j x]|] eqn:H; [|done].
    intros [= ->]. apply list_find_Some in H as (Hx & Hf & Hmin).
    exists x. split; [done|]. split; [done|]. intros k y Hy Hk. by eapply Hmin.
  - intros (x & Hx & Hf & Hmin).
    assert (list_find (λ x, f x = true) arr = Some (i, x)) as ->; [|done].
    apply list_find_Some. split; [done|]. split; [done|]. intros k y Hy Hk. by eapply Hmin.
Qed.

Lemma findIndex_None {A} (f : A → bool) (arr : list A) :
  findIndex f arr = None ↔ Forall (λ x, f x = false) arr.
Proof.
  unfold findIndex. destruct (list_find _ arr) as [[j x]|] eqn:H; simpl.
  - split; [done|]. intros Hall. apply list_find_Some in H as (Hx & Hf & _).
    apply list_elem_of_lookup_2 in Hx. rewrite Forall_forall in Hall.
    specialize (Hall x Hx). congruence.
  - split; [|done]. intros _. apply list_find_None in H.
    eapply Forall_impl; [exact H|]. intros y Hy. simpl in Hy. by destruct (f y).
Qed.

Section Promises.
Context {V : Type}.
Implicit Type w : wrapper V.

Lemma settle_fields p (o : outcome V) w :
  mcpProcess (settle p o w) = mcpProcess w ∧ isReady (settle p o w) = isReady w ∧
  requestQueue (settle p o w) = requestQueue w ∧
  responseBuffer (settle p o w) = responseBuffer w ∧
  next_promise (settle p o w) = next_promise w ∧ timers (settle p o w) = timers w ∧
  clock (settle p o w) = clock w ∧ console (settle p o w) = console w.
Proof. unfold settle. by destruct (promises w !! p). Qed.

Lemma settle_queue p (o : outcome V) w : requestQueue (settle p o w) = requestQueue w.
Proof. apply settle_fields. Qed.

Lemma settle_next_promise p (o : outcome V) w : next_promise (settle p o w) = next_promise w.
Proof. apply settle_fields. Qed.

Lemma settle_timers p (o : outcome V) w : timers (settle p o w) = timers w.
Proof. apply settle_fields. Qed.

Lemma settle_clock p (o : outcome V) w : clock (settle p o w) = clock w.
Proof. apply settle_fields. Qed.

Lemma settle_responseBuffer p (o : outcome V) w :
  responseBuffer (settle p o w) = responseBuffer w.
Proof. apply settle_fields. Qed.

(** The first settlement of a promise stays. *)
Lemma settle_lookup p q (o : outcome V) w :
  promises (settle p o w) !! q =
    match promises w !! q with
    | Some o' => Some o'
    | None => if decide (p = q) then Some o else None
    end.
Proof.
  unfold settle. destruct (promises w !! p) as [o'|] eqn:Hp.
  - destruct (promises w !! q) eqn:Hq; [done|]. case_decide; [congruence|done].
  - simpl. rewrite lookup_insert. case_decide; subst.
    + by rewrite Hp.
    + by destruct (promises w !! q).
Qed.

Lemma settle_settled p q (o o' : outcome V) w :
  promises w !! q = Some o' → promises (settle p o w) !! q = Some o'.
Proof. intros H. by rewrite settle_lookup, H. Qed.

Lemma settle_other p q (o : outcome V) w :
  p ≠ q → promises (settle p o w) !! q = promises w !! q.
Proof.
  intros H. rewrite settle_lookup. destruct (promises w !! q); [done|].
  by case_decide.
Qed.

Lemma settle_pending p (o : outcome V) w :
  promises w !! p = None → promises (settle p o w) !! p = Some o.
Proof. intros H. rewrite settle_lookup, H. by case_decide. Qed.

Lemma log_nil w : log [] w = w.
Proof. destruct w. unfold log, set_console. simpl. by rewrite app_nil_r. Qed.

Lemma forEach_normal {A S} (f : A → S → completion S) (g : A → S → S) arr s :
  (∀ x s, f x s = Normal (g x s)) → forEach f arr s = Normal (foldl (flip g) s arr).
Proof.
  intros H. revert s. induction arr as [|x arr IH]; intros s; simpl; [done|].
  by rewrite H, IH.
Qed.
End Promises.

(** ** The response handler *)

Section Responses.
Context {V : Type}.
Variable get_id : V → jsval.
Variable JSON_parse : string → completion V.
Implicit Type w : wrapper V.

Local Abbreviation handleMCPResponse := (handleMCPResponse get_id JSON_parse).
Local Abbreviation handle_lines := (handle_lines get_id JSON_parse).
Local Abbreviation on_stdout_data := (on_stdout_data get_id JSON_parse).
Local Abbreviation on_stdout_buffers := (on_stdout_buffers get_id JSON_parse).
Local Abbreviation respond := (respond get_id JSON_parse).
Local Abbreviation parsed_response := (parsed_response JSON_parse).
Local Abbreviation answers := (answers get_id JSON_parse).
Local Abbreviation carrying := (carrying get_id JSON_parse).

(** The handler returns normally whatever the line is. *)
Lemma handleMCPResponse_respond text w :
  handleMCPResponse text w = Normal (respond text w).
Proof.
  unfold KiwiTcmsMCPWrapper.handleMCPResponse, handleMCPResponse_try, handleMCPResponse_catch,
    Notions.respond, looks_like_json.
  destruct (startsWith (trim text) "{"), (startsWith (trim text) "["); simpl; try done.
  all: destruct (JSON_parse (trim text)) as [response|error]; [|done].
  all: unfold findIndex.
  all: destruct (list_find _ (requestQueue w)) as [[i request]|] eqn:Hfind; [|done].
  all: apply list_find_Some in Hfind as (Hi & _); simpl; by rewrite Hi.
Qed.

Lemma handle_lines_respond lines w :
  handle_lines lines w = Normal (foldl (flip respond) w lines).
Proof. apply forEach_normal, handleMCPResponse_respond. Qed.

Lemma respond_not_json text w : looks_like_json text = false → respond text w = w.
Proof. unfold Notions.respond. by intros ->. Qed.

Lemma respond_malformed text error w :
  looks_like_json text = true → JSON_parse (trim text) = Throw error →
  respond text w = log [LogParseFailed error; LogResponseText (substring0 200 text)] w.
Proof. unfold Notions.respond. by intros -> ->. Qed.

Lemma respond_unmatched text response w :
  JSON_parse (trim text) = Normal response →
  Forall (λ req, strict_equal_parsed (entry_id req) (get_id response) = false) (requestQueue w) →
  respond text w = w.
Proof.
  unfold Notions.respond. intros -> Hall. destruct (looks_like_json text); [|done].
  destruct (list_find _ (requestQueue w)) as [[i request]|] eqn:Hfind; [|done].
  apply list_find_Some in Hfind as (Hi & Hmatch & _).
  apply list_elem_of_lookup_2 in Hi. rewrite Forall_forall in Hall.
  specialize (Hall _ Hi). congruence.
Qed.

Lemma respond_matched text response i request w :
  looks_like_json text = true → JSON_parse (trim text) = Normal response →
  list_find (λ req, strict_equal_parsed (entry_id req) (get_id response) = true)
    (requestQueue w) = Some (i, request) →
  respond text w =
    settle (entry_promise request) (Resolved response)
      (set_requestQueue (delete i (requestQueue w)) w).
Proof. unfold Notions.respond. by intros -> -> ->. Qed.

(** The response handler only takes entries away, and only settles. *)
Lemma respond_queue_sublist text w : requestQueue (respond text w) `sublist_of` requestQueue w.
Proof.
  unfold Notions.respond. destruct (looks_like_json text); [|done].
  destruct (JSON_parse (trim text)) as [response|error]; [|done].
  destruct (list_find _ (requestQueue w)) as [[i request]|]; [|done].
  rewrite settle_queue. simpl. apply sublist_delete.
Qed.

Lemma respond_settled text w p o :
  promises w !! p = Some o → promises (respond text w) !! p = Some o.
Proof.
  intros Hp. unfold Notions.respond. destruct (looks_like_json text); [|done].
  destruct (JSON_parse (trim text)) as [response|error]; [|done].
  destruct (list_find _ (requestQueue w)) as [[i request]|]; [|done].
  by apply settle_settled.
Qed.

Lemma respond_fields text w :
  mcpProcess (respond text w) = mcpProcess w ∧ isReady (respond text w) = isReady w ∧
  responseBuffer (respond text w) = responseBuffer w ∧
  next_promise (respond text w) = next_promise w ∧ timers (respond text w) = timers w ∧
  clock (respond text w) = clock w.
Proof.
  unfold Notions.respond. destruct (looks_like_json text); [|done].
  destruct (JSON_parse (trim text)) as [response|error]; [|done].
  destruct (list_find _ (requestQueue w)) as [[i request]|]; [|done].
  pose proof (settle_fields (entry_promise request) (Resolved response)
                (set_requestQueue (delete i (requestQueue w)) w)) as H.
  simpl in H. tauto.
Qed.

(** *** The stream reader in front of the response handler *)

Lemma respond_set_responseBuffer text buffer w :
  respond text (set_responseBuffer buffer w) = set_responseBuffer buffer (respond text w).
Proof.
  unfold Notions.respond. destruct (looks_like_json text); [|done].
  destruct (JSON_parse (trim text)) as [response|error]; [|done]. simpl.
  destruct (list_find _ (requestQueue w)) as [[i request]|]; [|done].
  unfold settle. simpl. by destruct (promises w !! entry_promise request).
Qed.

Lemma foldl_respond_set_responseBuffer lines buffer w :
  foldl (flip respond) (set_responseBuffer buffer w) lines =
    set_responseBuffer buffer (foldl (flip respond) w lines).
Proof.
  revert w. induction lines as [|text lines IH]; intros w; [done|].
  simpl. rewrite <- IH. f_equal. apply respond_set_responseBuffer.
Qed.

Lemma foldl_respond_responseBuffer lines w :
  responseBuffer (foldl (flip respond) w lines) = responseBuffer w.
Proof.
  revert w. induction lines as [|text lines IH]; intros w; [done|].
  simpl. rewrite IH. apply respond_fields.
Qed.

(** The [forEach] of the ['data'] handler calls [handleMCPResponse] on
    the trimmed texts of the lines that are not blank. *)
Lemma forEach_delivered lines w :
  forEach (λ line w, if JsString.truthy (trim line) then handleMCPResponse (trim line) w
                     else Normal w) lines w
  = handle_lines (delivered lines) w.
Proof.
  revert w. induction lines as [|line lines IH]; intros w; [done|].
  unfold KiwiTcmsMCPWrapper.handle_lines, delivered in *. rewrite filter_cons. cbn [forEach].
  destruct (JsString.truthy (trim line)) eqn:Hline.
  - rewrite decide_True by done. rewrite fmap_cons. cbn [forEach].
    destruct (handleMCPResponse (trim line) w); [apply IH|done].
  - rewrite decide_False by done. apply IH.
Qed.

Lemma on_stdout_data_respond data w :
  on_stdout_data data w =
    Normal (foldl (flip respond)
              (set_responseBuffer (framed (responseBuffer w) data).2 w)
              (delivered (framed (responseBuffer w) data).1)).
Proof.
  unfold KiwiTcmsMCPWrapper.on_stdout_data. destruct (framed (responseBuffer w) data) as [lines fragment].
  by rewrite forEach_delivered, handle_lines_respond.
Qed.

Lemma set_responseBuffer_twice b b' w :
  set_responseBuffer b (set_responseBuffer b' w) = set_responseBuffer b w.
Proof. done. Qed.

Lemma set_responseBuffer_same w : set_responseBuffer (responseBuffer w) w = w.
Proof. by destruct w. Qed.

(** Chunks handled one by one amount to [handleMCPResponse] called on
    the texts that [stream_lines] lists. *)
Lemma stdout_chunks_respond chunks w :
  forEach on_stdout_data chunks w =
    Normal (foldl (flip respond)
              (set_responseBuffer (stream_lines chunks (responseBuffer w)).2 w)
              (stream_lines chunks (responseBuffer w)).1).
Proof.
  revert w. induction chunks as [|data chunks IH]; intros w.
  - simpl. by rewrite set_responseBuffer_same.
  - simpl forEach. rewrite on_stdout_data_respond, IH, stream_lines_cons. cbn [fst snd].
    rewrite foldl_respond_responseBuffer. simpl responseBuffer.
    rewrite foldl_app, !foldl_respond_set_responseBuffer.
    by rewrite !set_responseBuffer_twice.
Qed.

Lemma trimStart_newline_free s : has_newline s = false → has_newline (trimStart s) = false.
Proof.
  induction s as [|c s IH]; [done|]. simpl. intros H.
  destruct (is_white c); [|done]. apply IH. by destruct (Ascii.eqb c newline).
Qed.

Lemma trimEnd_newline_free s : has_newline s = false → has_newline (trimEnd s) = false.
Proof.
  induction s as [|c s IH]; [done|]. simpl. intros H.
  destruct (Ascii.eqb c newline) eqn:Hc; [done|].
  destruct (is_white c && is_empty (trimEnd s)); [done|]. simpl. rewrite Hc. by apply IH.
Qed.

Lemma delivered_newline_free lines :
  Forall (λ l, has_newline l = false) lines →
  Forall (λ l, has_newline l = false ∧ l ≠ "") (delivered lines).
Proof.
  intros H. unfold delivered. apply Forall_fmap, Forall_forall.
  intros l [Hl Hin]%list_elem_of_filter. rewrite Forall_forall in H. simpl. split.
  - by apply trimEnd_newline_free, trimStart_newline_free, H.
  - intros Heq. by rewrite Heq in Hl.
Qed.

(** The text that has reached the handler of the worker's standard
    output is a sequence of terminated lines followed by a fragment.
    However the text was cut into chunks, the handler has called
    [handleMCPResponse] once for each line that is not blank, in the
    order of the lines, on the line trimmed of surrounding white space;
    the fragment waits in the buffer. *)
Lemma text_chunks_deliver_trimmed_lines
    (w : wrapper V) (chunks lines : list string) (fragment : string) :
  has_newline (responseBuffer w) = false →
  Forall (λ l, has_newline l = false) lines → has_newline fragment = false →
  responseBuffer w +:+ concat chunks = unlines lines +:+ fragment →
  stream_lines chunks (responseBuffer w) =
    (trim <$> filter (λ l, trim l ≠ "") lines, fragment) ∧
  forEach on_stdout_data chunks w =
    handle_lines (trim <$> filter (λ l, trim l ≠ "") lines) (set_responseBuffer fragment w) ∧
  Forall (λ l, has_newline l = false ∧ l ≠ "") (trim <$> filter (λ l, trim l ≠ "") lines).
Proof.
  intros Hbuffer Hlines Hfragment Htext.
  assert (trim <$> filter (λ l, trim l ≠ "") lines = delivered lines) as ->.
  { unfold delivered. f_equal. apply list_filter_iff. intros l.
    by destruct (trim l). }
  assert (stream_lines chunks (responseBuffer w) = (delivered lines, fragment)) as Hstream.
  { rewrite stream_lines_concat by done. rewrite Htext, split_unlines by done.
    by rewrite removelast_snoc, last_snoc. }
  split; [done|]. split; [|by apply delivered_newline_free].
  by rewrite stdout_chunks_respond, Hstream, handle_lines_respond.
Qed.

(** Bytes that are whole characters are read the same with and without
    what follows them. *)
Lemma scalars_app (a b : list Byte.byte) :
  Buffer.whole a = true → Buffer.scalars (a ++ b) = Buffer.scalars a ++ Buffer.scalars b.
Proof.
  unfold Buffer.whole. remember (length a) as n eqn:Hn. revert a Hn.
  induction n as [n IH] using lt_wf_ind. intros a Hn Hwhole.
  destruct a as [|b0 a]; [done|].
  simpl in Hwhole |- *.
  destruct (Byte.to_N b0 <? 128)%N.
  { simpl in *. f_equal. apply (IH (length a)); [lia|done|done]. }
  destruct (Buffer.between 194 223 (Byte.to_N b0)).
  { destruct a as [|c0 a]; [done|]. simpl in *.
    destruct (Buffer.between 128 191 (Byte.to_N c0)); [|done].
    simpl in *. f_equal. apply (IH (length a)); [lia|done|done]. }
  destruct (Buffer.between 224 239 (Byte.to_N b0)).
  { destruct a as [|c0 a]; [done|]. simpl in *.
    destruct (Buffer.between _ _ (Byte.to_N c0)); [|done].
    destruct a as [|d0 a]; [done|]. simpl in *.
    destruct (Buffer.between 128 191 (Byte.to_N d0)); [|done].
    simpl in *. f_equal. apply (IH (length a)); [lia|done|done]. }
  destruct (Buffer.between 240 244 (Byte.to_N b0)); [|done].
  destruct a as [|c0 a]; [done|]. simpl in *.
  destruct (Buffer.between _ _ (Byte.to_N c0)); [|done].
  destruct a as [|d0 a]; [done|]. simpl in *.
  destruct (Buffer.between 128 191 (Byte.to_N d0)); [|done].
  destruct a as [|e0 a]; [done|]. simpl in *.
  destruct (Buffer.between 128 191 (Byte.to_N e0)); [|done].
  simpl in *. f_equal. apply (IH (length a)); [lia|done|done].
Qed.

Lemma toString_app (a b : list Byte.byte) :
  Buffer.whole a = true →
  Buffer.toString (a ++ b) = Buffer.toString a ++ Buffer.toString b.
Proof. intros H. unfold Buffer.toString. by rewrite scalars_app, bind_app. Qed.

Lemma toString_concat (buffers : list (list Byte.byte)) :
  Forall (λ data, Buffer.whole data = true) buffers →
  Buffer.toString (List.concat buffers) = List.concat (Buffer.toString <$> buffers).
Proof.
  induction 1 as [|data buffers Hdata _ IH]; [done|].
  simpl. by rewrite toString_app, IH.
Qed.

Lemma text_app (u1 u2 : list N) (s : string) :
  Buffer.text (u1 ++ u2) = Some s →
  ∃ s1 s2, Buffer.text u1 = Some s1 ∧ Buffer.text u2 = Some s2 ∧ s = s1 +:+ s2.
Proof.
  revert s. induction u1 as [|u u1 IH]; intros s; simpl.
  - intros H. by exists "", s.
  - unfold Buffer.text. simpl. destruct (u <? 256)%N; [|done]. simpl.
    destruct (mapM _ (u1 ++ u2)) as [cs|] eqn:Hcs; [|done]. simpl. intros [= <-].
    destruct (IH (string_of_list_ascii cs)) as (s1 & s2 & H1 & H2 & Hs).
    { unfold Buffer.text. by rewrite Hcs. }
    unfold Buffer.text in H1. destruct (mapM _ u1) as [cs1|]; [|done]. simpl in H1.
    injection H1 as <-. exists (String (ascii_of_N u) (string_of_list_ascii cs1)), s2.
    split; [done|]. split; [done|]. simpl. by rewrite Hs.
Qed.

Lemma text_concat (units : list (list N)) (s : string) :
  Buffer.text (List.concat units) = Some s →
  ∃ chunks, Forall2 (λ u chunk, Buffer.text u = Some chunk) units chunks ∧ concat chunks = s.
Proof.
  revert s. induction units as [|u units IH]; intros s; simpl.
  - intros [= <-]. by exists [].
  - intros (s1 & s2 & H1 & H2 & ->)%text_app.
    destruct (IH s2 H2) as (chunks & Hchunks & <-).
    exists (s1 :: chunks). split; [by constructor|done].
Qed.

(** The handler called with the bytes does what it does with their
    texts. *)
Lemma on_stdout_buffers_texts (buffers : list (list Byte.byte)) (chunks : list string) w :
  Forall2 (λ data chunk, Buffer.text (Buffer.toString data) = Some chunk) buffers chunks →
  on_stdout_buffers buffers w = Some (forEach on_stdout_data chunks w).
Proof.
  intros H. revert w. induction H as [|data chunk buffers chunks Hdata _ IH]; intros w; [done|].
  simpl. unfold KiwiTcmsMCPWrapper.on_stdout_buffer. rewrite Hdata. simpl.
  destruct (on_stdout_data chunk w) as [w'|error]; [apply IH|done].
Qed.


(** C6. A line that is no JSON text, a line that fails to parse, and a
    response whose identifier no pending entry carries: the handler
    returns normally, nothing but the console has changed, and the lines
    after it are handled. *)
Theorem unmatched_lines_are_discarded (w : wrapper V) (text : string) :
  looks_like_json text = false ∨
  (∃ error, JSON_parse (trim text) = Throw error) ∨
  (∃ response, JSON_parse (trim text) = Normal response ∧
     Forall (λ req, strict_equal_parsed (entry_id req) (get_id response) = false)
       (requestQueue w)) →
  ∃ entries,
    handleMCPResponse text w = Normal (log entries w) ∧
    requestQueue (log entries w) = requestQueue w ∧
    promises (log entries w) = promises w ∧
    timers (log entries w) = timers w ∧
    responseBuffer (log entries w) = responseBuffer w ∧
    ∀ rest, handle_lines (text :: rest) w = handle_lines rest (log entries w).
Proof.
  intros H.
  assert (∃ entries, respond text w = log entries w) as [entries Hentries].
  { destruct H as [Hlog|[[error Hparse]|(response & Hparse & Hall)]].
    - exists []. by rewrite respond_not_json, log_nil.
    - destruct (looks_like_json text) eqn:Hjson.
      + eexists. by apply respond_malformed.
      + exists []. by rewrite respond_not_json, log_nil.
    - exists []. by rewrite (respond_unmatched _ _ w Hparse Hall), log_nil. }
  exists entries. rewrite handleMCPResponse_respond, Hentries.
  repeat split; try done.
  intros rest. unfold KiwiTcmsMCPWrapper.handle_lines. cbn [forEach].
  by rewrite handleMCPResponse_respond, Hentries.
Qed.

(** *** Pending entries under the response handler *)

Lemma NoDup_fmap_eq {A B} (f : A → B) (l : list A) x y :
  NoDup (f <$> l) → x ∈ l → y ∈ l → f x = f y → x = y.
Proof.
  induction l as [|z l IH]; simpl; [by intros _ ?%elem_of_nil|].
  intros Hnd Hx Hy Hf. apply NoDup_cons in Hnd as [Hz Hnd].
  apply elem_of_cons in Hx as [->|Hx]; apply elem_of_cons in Hy as [->|Hy]; try done.
  - exfalso. apply Hz. rewrite Hf. by apply list_elem_of_fmap_2.
  - exfalso. apply Hz. rewrite <- Hf. by apply list_elem_of_fmap_2.
  - by apply IH.
Qed.

Lemma elem_of_delete_other {A} (l : list A) i x y :
  x ∈ l → l !! i = Some y → x ≠ y → x ∈ delete i l.
Proof.
  revert i. induction l as [|z l IH]; intros i Hx Hi Hne; [by apply elem_of_nil in Hx|].
  destruct i as [|i]; simpl in *.
  - injection Hi as ->. by apply elem_of_cons in Hx as [->|Hx].
  - apply elem_of_cons in Hx as [->|Hx]; [by left|]. right. by eapply IH.
Qed.

Lemma not_elem_of_delete_NoDup {A} (l : list A) i x :
  NoDup l → l !! i = Some x → x ∉ delete i l.
Proof.
  revert i. induction l as [|z l IH]; intros i Hnd Hi; [done|].
  apply NoDup_cons in Hnd as [Hz Hnd]. destruct i as [|i]; simpl in *.
  - by injection Hi as ->.
  - intros [->|Hx]%elem_of_cons.
    + apply Hz. by eapply list_elem_of_lookup_2.
    + by eapply IH.
Qed.

Lemma foldl_respond_settled lines w p o :
  promises w !! p = Some o → promises (foldl (flip respond) w lines) !! p = Some o.
Proof.
  revert w. induction lines as [|text lines IH]; intros w Hp; [done|].
  simpl. by apply IH, respond_settled.
Qed.

Lemma foldl_respond_queue_sublist lines w :
  requestQueue (foldl (flip respond) w lines) `sublist_of` requestQueue w.
Proof.
  revert w. induction lines as [|text lines IH]; intros w; [done|].
  simpl. etrans; [apply IH|apply respond_queue_sublist].
Qed.

Lemma answers_cons id text lines :
  answers id (text :: lines) =
    match parsed_response text with
    | Some response =>
        if strict_equal_parsed id (get_id response) then response :: answers id lines
        else answers id lines
    | None => answers id lines
    end.
Proof.
  unfold Notions.answers. simpl. destruct (parsed_response text) as [response|]; [|done].
  rewrite filter_cons. case_decide as H.
  - by rewrite H.
  - by destruct (strict_equal_parsed id (get_id response)).
Qed.

(** One response line, seen from a call [e] that waits among entries
    with distinct identifiers: either the line answers [e], or [e] goes
    on waiting. *)
Lemma respond_in_flight text w e :
  distinct_ids w → NoDup (entry_promise <$> requestQueue w) → in_flight e w →
  match parsed_response text with
  | Some response =>
      if strict_equal_parsed (entry_id e) (get_id response) then
        promises (respond text w) !! entry_promise e = Some (Resolved response) ∧
        e ∉ requestQueue (respond text w)
      else in_flight e (respond text w)
  | None => in_flight e (respond text w)
  end.
Proof.
  intros Hids Hps [He Hp]. unfold Notions.parsed_response.
  destruct (looks_like_json text) eqn:Hjson; [|by rewrite respond_not_json].
  destruct (JSON_parse (trim text)) as [response|error] eqn:Hparse;
    [|by rewrite (respond_malformed _ _ w Hjson Hparse)].
  destruct (list_find (λ req, strict_equal_parsed (entry_id req) (get_id response) = true)
              (requestQueue w)) as [[i request]|] eqn:Hfind.
  - rewrite (respond_matched _ _ _ _ w Hjson Hparse Hfind).
    apply list_find_Some in Hfind as (Hi & Hmatch & _).
    assert (request ∈ requestQueue w) as Hrequest by (by eapply list_elem_of_lookup_2).
    destruct (strict_equal_parsed (entry_id e) (get_id response)) eqn:Hmine.
    + assert (e = request) as <-.
      { eapply (NoDup_fmap_eq entry_id); try done.
        apply strict_equal_parsed_true in Hmine, Hmatch. congruence. }
      split; [by apply settle_pending|]. rewrite settle_queue. simpl.
      apply not_elem_of_delete_NoDup; [|done]. by eapply NoDup_fmap_1.
    + assert (e ≠ request) as Hne by (intros ->; congruence).
      split.
      * rewrite settle_queue. simpl. by eapply elem_of_delete_other.
      * rewrite settle_other; [done|]. intros Heq. apply Hne.
        by eapply (NoDup_fmap_eq entry_promise).
  - rewrite (respond_unmatched _ _ w Hparse).
    + apply list_find_None in Hfind. rewrite Forall_forall in Hfind.
      specialize (Hfind e He). simpl in Hfind.
      by destruct (strict_equal_parsed (entry_id e) (get_id response)).
    + apply list_find_None in Hfind. eapply Forall_impl; [exact Hfind|].
      intros req Hreq. simpl in Hreq.
      by destruct (strict_equal_parsed (entry_id req) (get_id response)).
Qed.

Lemma respond_distinct_ids text w : distinct_ids w → distinct_ids (respond text w).
Proof.
  unfold distinct_ids. intros H. eapply sublist_NoDup; [exact H|].
  apply fmap_sublist, respond_queue_sublist.
Qed.

Lemma respond_distinct_promises text w :
  NoDup (entry_promise <$> requestQueue w) →
  NoDup (entry_promise <$> requestQueue (respond text w)).
Proof.
  intros H. eapply sublist_NoDup; [exact H|].
  apply fmap_sublist, respond_queue_sublist.
Qed.

(** Response lines in any order: a waiting call is resolved with the
    first response that carries its identifier. *)
Lemma responses_reach_their_call (w : wrapper V) (lines : list string) (e : entry) :
  distinct_ids w → NoDup (entry_promise <$> requestQueue w) → in_flight e w →
  ∃ w', handle_lines lines w = Normal w' ∧
    match answers (entry_id e) lines with
    | response :: _ =>
        promises w' !! entry_promise e = Some (Resolved response) ∧ e ∉ requestQueue w'
    | [] => in_flight e w'
    end.
Proof.
  intros Hids Hps He. eexists. split; [apply handle_lines_respond|].
  revert w Hids Hps He. induction lines as [|text lines IH]; intros w Hids Hps He; [done|].
  rewrite answers_cons. simpl foldl. unfold flip at 2.
  pose proof (respond_in_flight text w e Hids Hps He) as Hstep.
  pose proof (respond_distinct_ids text w Hids) as Hids'.
  pose proof (respond_distinct_promises text w Hps) as Hps'.
  destruct (parsed_response text) as [response|]; [|by apply IH].
  destruct (strict_equal_parsed (entry_id e) (get_id response)); [|by apply IH].
  destruct Hstep as [Hdone Hgone]. split; [by apply foldl_respond_settled|].
  intros Hin. apply Hgone. eapply elem_of_sublist; [exact Hin|].
  apply foldl_respond_queue_sublist.
Qed.

Lemma strict_equal_parsed_primitive (id v : jsval) :
  primitive id = true → (strict_equal_parsed id v = true ↔ v = id).
Proof.
  intros Hid. split.
  - intros H. symmetry. by apply strict_equal_parsed_true.
  - intros ->. destruct id; try done; simpl.
    + by destruct b.
    + apply Z.eqb_refl.
    + apply String.eqb_refl.
Qed.

Lemma answers_carrying id lines :
  primitive id = true → answers id lines = carrying id lines.
Proof.
  intros Hid. unfold Notions.answers, Notions.carrying. apply list_filter_iff.
  intros response. by apply strict_equal_parsed_primitive.
Qed.

Lemma answers_of_an_object id lines : primitive id = false → answers id lines = [].
Proof.
  intros Hid. destruct id; try done. unfold Notions.answers.
  induction (omap parsed_response lines) as [|response rest IH]; [done|].
  rewrite filter_cons_False; [done|]. intros H.
  pose proof (strict_equal_parsed_true _ _ H) as Heq. rewrite <- Heq in H. done.
Qed.

(** C1, as the code has it. Calls wait under pairwise distinct
    identifiers, each with a promise of its own. A call whose identifier
    is a number, a string or a boolean: whatever the order in which
    complete response lines arrive, the call is resolved with the first
    response whose [id] is its identifier and leaves the queue, and it
    goes on waiting when no line has that [id]; when one response has
    it, the call is resolved with that response in every arrival order
    of the same lines. A call whose identifier is an array or an object
    goes on waiting whatever the lines are. *)
Theorem correlation_by_identifier (w : wrapper V) (lines : list string) (e : entry) :
  distinct_ids w → NoDup (entry_promise <$> requestQueue w) → in_flight e w →
  (primitive (entry_id e) = true →
   (∃ w', handle_lines lines w = Normal w' ∧
      match carrying (entry_id e) lines with
      | response :: _ =>
          get_id response = entry_id e ∧
          promises w' !! entry_promise e = Some (Resolved response) ∧ e ∉ requestQueue w'
      | [] => in_flight e w'
      end) ∧
   (∀ response lines',
      carrying (entry_id e) lines = [response] → lines' ≡ₚ lines →
      ∃ w', handle_lines lines' w = Normal w' ∧
            promises w' !! entry_promise e = Some (Resolved response) ∧
            e ∉ requestQueue w')) ∧
  (primitive (entry_id e) = false →
   ∃ w', handle_lines lines w = Normal w' ∧ in_flight e w').
Proof.
  intros Hids Hps He. split.
  - intros Hid. split.
    + destruct (responses_reach_their_call w lines e Hids Hps He) as (w' & Hrun & Hres).
      exists w'. split; [done|]. rewrite answers_carrying in Hres by done.
      destruct (carrying (entry_id e) lines) as [|response rest] eqn:Hc;
        [done|].
      split; [|done].
      assert (response ∈ carrying (entry_id e) lines) as Hin
        by (rewrite Hc; by left).
      by apply list_elem_of_filter in Hin as [Hin _].
    + intros response lines' Hone Hperm.
      destruct (responses_reach_their_call w lines' e Hids Hps He) as (w' & Hrun & Hres).
      exists w'. split; [done|].
      assert (answers (entry_id e) lines' = [response]) as Hone'.
      { apply Permutation_singleton_r. rewrite <- Hone, <- answers_carrying by done.
        unfold Notions.answers. by rewrite Hperm. }
      by rewrite Hone' in Hres.
  - intros Hid.
    destruct (responses_reach_their_call w lines e Hids Hps He) as (w' & Hrun & Hres).
    exists w'. split; [done|]. by rewrite answers_of_an_object in Hres.
Qed.

End Responses.

(** ** Registration, expiry and the life of the process *)

Section Calls.
Context {V : Type}.
Variable get_id : V → jsval.
Variable JSON_parse : string → completion V.
Variable JSON_stringify : V → string.
Variable process_env : gmap string string.
Variable dirname : string.
Variable spawn_throws : string → list string → gmap string string → option Error.
Implicit Type w : wrapper V.

Local Abbreviation respond := (respond get_id JSON_parse).
Local Abbreviation registered_as := (registered_as get_id).
Local Abbreviation forwardToMCP := (forwardToMCP get_id JSON_stringify).
Local Abbreviation post_mcp := (post_mcp get_id JSON_stringify).
Local Abbreviation initializeMCP := (initializeMCP process_env dirname spawn_throws).
Local Abbreviation fire_timer := (fire_timer process_env dirname spawn_throws).
Local Abbreviation run_callback := (run_callback process_env dirname spawn_throws).
Local Abbreviation step :=
  (step get_id JSON_parse JSON_stringify process_env dirname spawn_throws).
Local Abbreviation run :=
  (run get_id JSON_parse JSON_stringify process_env dirname spawn_throws).

(** *** What each operation does to the queue and to the promises *)

Lemma forwardToMCP_written request date_now w child :
  mcpProcess w = Some child →
  let p := next_promise w in
  let requestId := or_else (get_id request) (VNum date_now) in
  let w' := forwardToMCP request date_now None w in
  requestQueue w' = requestQueue w ++ [{| entry_id := requestId; entry_promise := p |}] ∧
  promises w' = promises w ∧
  next_promise w' = S p ∧
  timers w' =
    insert_timer {| due := clock w + timeout; action := RequestTimeout requestId p |}
      (timers w) ∧
  (stdin <$> mcpProcess w') =
    Some (stdin child ++ [JSON_stringify request +:+ String newline ""]) ∧
  isReady w' = isReady w ∧ responseBuffer w' = responseBuffer w ∧ clock w' = clock w.
Proof. intros Hchild. unfold KiwiTcmsMCPWrapper.forwardToMCP. simpl. rewrite Hchild. by simpl. Qed.

Lemma forwardToMCP_write_failed request date_now write_error w :
  mcpProcess w = None ∨ is_Some write_error →
  let p := next_promise w in
  let requestId := or_else (get_id request) (VNum date_now) in
  let w' := forwardToMCP request date_now write_error w in
  requestQueue w' = requestQueue w ++ [{| entry_id := requestId; entry_promise := p |}] ∧
  (∀ q, q ≠ p → promises w' !! q = promises w !! q) ∧
  (promises w !! p = None → ∃ error, promises w' !! p = Some (Rejected error)) ∧
  next_promise w' = S p ∧ timers w' = timers w.
Proof.
  intros Hfail. unfold KiwiTcmsMCPWrapper.forwardToMCP. simpl.
  assert (∃ error, stdin_write (JSON_stringify request +:+ String newline "") write_error
                     (mcpProcess w) = Throw error) as [error ->].
  { unfold stdin_write. destruct (mcpProcess w); [|by eexists].
    destruct Hfail as [?|[error ->]]; [done|by eexists]. }
  split; [by rewrite settle_queue|]. split; [intros q Hq; by rewrite settle_other|].
  split; [intros Hp; exists error; by rewrite settle_pending|].
  by rewrite settle_next_promise, settle_timers.
Qed.

Lemma request_timeout_found requestId p i e w :
  list_find (λ req, strict_equal (entry_id req) requestId = true) (requestQueue w)
    = Some (i, e) →
  request_timeout requestId p w =
    settle p (Rejected timeout_error) (set_requestQueue (delete i (requestQueue w)) w).
Proof. unfold request_timeout, findIndex, splice1. by intros ->. Qed.

Lemma request_timeout_unknown requestId p w :
  unknown_id requestId w → request_timeout requestId p w = w.
Proof.
  intros H. unfold request_timeout.
  by rewrite (proj2 (findIndex_None _ _) H).
Qed.

Lemma request_timeout_queue_sublist requestId p w :
  requestQueue (request_timeout requestId p w) `sublist_of` requestQueue w.
Proof.
  unfold request_timeout. destruct (findIndex _ _); [|done].
  rewrite settle_queue. apply sublist_delete.
Qed.

(** A timer callback settles no promise but its own, and its own with
    the timeout error only. *)
Lemma request_timeout_lookup requestId p q w :
  promises (request_timeout requestId p w) !! q = promises w !! q ∨
  (q = p ∧ promises w !! p = None ∧
   promises (request_timeout requestId p w) !! p = Some (Rejected timeout_error)).
Proof.
  unfold request_timeout. destruct (findIndex _ _); [|by left].
  rewrite settle_lookup. simpl. destruct (promises w !! q) eqn:Hq; [by left|].
  case_decide; [subst|by left]. right. by rewrite settle_pending.
Qed.

Lemma request_timeout_settled requestId p q o w :
  promises w !! q = Some o → promises (request_timeout requestId p w) !! q = Some o.
Proof.
  intros Hq. destruct (request_timeout_lookup requestId p q w) as [->|(-> & Hp & _)];
    [done|congruence].
Qed.

Lemma request_timeout_fields requestId p w :
  next_promise (request_timeout requestId p w) = next_promise w ∧
  timers (request_timeout requestId p w) = timers w ∧
  clock (request_timeout requestId p w) = clock w ∧
  responseBuffer (request_timeout requestId p w) = responseBuffer w.
Proof.
  unfold request_timeout. destruct (findIndex _ _); [|done].
  by rewrite settle_next_promise, settle_timers, settle_clock, settle_responseBuffer.
Qed.

Lemma initializeMCP_running w w' :
  initializeMCP w = Running w' →
  requestQueue w' = requestQueue w ∧ promises w' = promises w ∧
  next_promise w' = next_promise w ∧ responseBuffer w' = responseBuffer w ∧
  isReady w' = isReady w ∧ clock w' = clock w ∧
  timers w' = insert_timer {| due := clock w + 3000; action := WorkerReady |} (timers w).
Proof.
  unfold KiwiTcmsMCPWrapper.initializeMCP.
  destruct (negb _ || negb _); [done|]. destruct (spawn _ _ _ _); [|done].
  by intros [= <-].
Qed.

(** *** A call whose identifier no other pending entry carries *)

Lemma sole_carrier_find e w :
  e ∈ requestQueue w → sole_carrier e w →
  ∃ i, list_find (λ req, strict_equal (entry_id req) (entry_id e) = true) (requestQueue w)
       = Some (i, e).
Proof.
  intros He Hsole.
  destruct (list_find_elem_of (λ req, strict_equal (entry_id req) (entry_id e) = true)
              (requestQueue w) e He) as [[i e'] Hfind]; [by apply strict_equal_true|].
  exists i. rewrite Hfind. do 2 f_equal.
  apply list_find_Some in Hfind as (Hi & Heq%strict_equal_true & _).
  apply Hsole; [by eapply list_elem_of_lookup_2|done].
Qed.

Lemma sole_carrier_find_parsed e w id :
  e ∈ requestQueue w → sole_carrier e w → strict_equal_parsed (entry_id e) id = true →
  ∃ i, list_find (λ req, strict_equal_parsed (entry_id req) id = true) (requestQueue w)
       = Some (i, e).
Proof.
  intros He Hsole Hid.
  destruct (list_find_elem_of (λ req, strict_equal_parsed (entry_id req) id = true)
              (requestQueue w) e He) as [[i e'] Hfind]; [done|].
  exists i. rewrite Hfind. do 2 f_equal.
  apply list_find_Some in Hfind as (Hi & Heq%strict_equal_parsed_true & _).
  apply strict_equal_parsed_true in Hid.
  apply Hsole; [by eapply list_elem_of_lookup_2|congruence].
Qed.

Lemma sole_carrier_gone e w i :
  NoDup (entry_promise <$> requestQueue w) → sole_carrier e w →
  requestQueue w !! i = Some e →
  (e ∉ delete i (requestQueue w)) ∧
  Forall (λ req, strict_equal (entry_id req) (entry_id e) = false) (delete i (requestQueue w)).
Proof.
  intros Hnodup%NoDup_fmap_1 Hsole Hi.
  assert (e ∉ delete i (requestQueue w)) as Hgone by (by apply not_elem_of_delete_NoDup).
  split; [done|]. apply Forall_forall. intros req Hreq.
  destruct (strict_equal (entry_id req) (entry_id e)) eqn:Heq; [|done].
  apply strict_equal_true in Heq. exfalso. apply Hgone.
  rewrite <- (Hsole req); [done| |done]. by eapply list_elem_of_delete_inv.
Qed.

(** A response is dropped when no pending entry carries its identifier. *)
Lemma respond_unknown_id text response id w :
  unknown_id id w → JSON_parse (trim text) = Normal response →
  strict_equal_parsed id (get_id response) = true →
  respond text w = w.
Proof.
  intros Hunknown Hparse Hid. apply (respond_unmatched _ _ _ response); [done|].
  eapply Forall_impl; [exact Hunknown|]. intros req Hreq. simpl in Hreq.
  destruct (strict_equal_parsed (entry_id req) (get_id response)) eqn:Heq; [|done].
  apply strict_equal_parsed_true in Heq, Hid.
  assert (strict_equal (entry_id req) id = true) by (apply strict_equal_true; congruence).
  congruence.
Qed.

(** The same for a response whose identifier is [id], whatever the
    comparison makes of it. *)
Lemma respond_unknown_identifier text response id w :
  unknown_id id w → JSON_parse (trim text) = Normal response →
  get_id response = id →
  respond text w = w.
Proof.
  intros Hunknown Hparse Hid. apply (respond_unmatched _ _ _ response); [done|].
  eapply Forall_impl; [exact Hunknown|]. intros req Hreq. simpl in Hreq.
  rewrite Hid. destruct (strict_equal_parsed (entry_id req) id) eqn:Heq; [|done].
  apply strict_equal_parsed_implies in Heq. congruence.
Qed.

(** The timer of a waiting call that is the sole carrier of its
    identifier takes the call out of the queue and rejects it. *)
Lemma request_timeout_in_flight e w :
  well_formed w → in_flight e w → sole_carrier e w →
  let w' := request_timeout (entry_id e) (entry_promise e) w in
  promises w' !! entry_promise e = Some (Rejected timeout_error) ∧
  (e ∉ requestQueue w') ∧ unknown_id (entry_id e) w'.
Proof.
  intros (_ & _ & _ & Hnodup) [He Hp] Hsole.
  destruct (sole_carrier_find e w He Hsole) as [i Hfind].
  simpl. rewrite (request_timeout_found _ _ _ _ _ Hfind).
  apply list_find_Some in Hfind as (Hi & _).
  split; [by apply settle_pending|]. unfold unknown_id. rewrite settle_queue. simpl.
  by apply sole_carrier_gone.
Qed.

(** The response that carries the identifier of such a call resolves it
    and takes it out of the queue. *)
Lemma respond_sole_carrier text response e w :
  well_formed w → in_flight e w → sole_carrier e w →
  looks_like_json text = true → JSON_parse (trim text) = Normal response →
  strict_equal_parsed (entry_id e) (get_id response) = true →
  promises (respond text w) !! entry_promise e = Some (Resolved response) ∧
  (e ∉ requestQueue (respond text w)) ∧ unknown_id (entry_id e) (respond text w).
Proof.
  intros (_ & _ & _ & Hnodup) [He Hp] Hsole Hjson Hparse Hid.
  destruct (sole_carrier_find_parsed e w _ He Hsole Hid) as [i Hfind].
  rewrite (respond_matched _ _ _ _ _ _ w Hjson Hparse Hfind).
  apply list_find_Some in Hfind as (Hi & _).
  split; [by apply settle_pending|]. unfold unknown_id. rewrite settle_queue. simpl.
  by apply sole_carrier_gone.
Qed.

(** *** Outcomes are final *)

Lemma forwardToMCP_settled request date_now write_error w p o :
  promises w !! p = Some o →
  promises (forwardToMCP request date_now write_error w) !! p = Some o.
Proof.
  intros Hp. unfold KiwiTcmsMCPWrapper.forwardToMCP. destruct (stdin_write _ _ _); [done|].
  by apply settle_settled.
Qed.

Lemma on_stdout_data_settled data w w' p o :
  on_stdout_data get_id JSON_parse data w = Normal w' →
  promises w !! p = Some o → promises w' !! p = Some o.
Proof.
  rewrite on_stdout_data_respond. intros [= <-] Hp. by apply foldl_respond_settled.
Qed.

Lemma run_callback_settled cb w w' p o :
  run_callback cb w = Running w' →
  promises w !! p = Some o → promises w' !! p = Some o.
Proof.
  destruct cb as [requestId q| |]; simpl.
  - intros [= <-] Hp. by apply request_timeout_settled.
  - by intros [= <-].
  - intros Hinit%initializeMCP_running Hp. destruct Hinit as (_ & -> & _). done.
Qed.

Lemma step_settled ev w w' p o :
  step ev w = Running w' → promises w !! p = Some o → promises w' !! p = Some o.
Proof.
  destruct ev as [body date_now write_error|data|data|code|error|ms|]; simpl.
  - intros [= <-]. unfold KiwiTcmsMCPWrapper.post_mcp. destruct (negb (isReady w)); [done|].
    apply forwardToMCP_settled.
  - destruct (on_stdout_data _ _ data w) eqn:Hdata; [|done]. intros [= <-].
    by eapply on_stdout_data_settled.
  - by intros [= <-].
  - by intros [= <-].
  - by intros [= <-].
  - by intros [= <-].
  - unfold KiwiTcmsMCPWrapper.fire_timer. destruct (timers w) as [|t ts]; [by intros [= <-]|].
    destruct (due t <=? clock w); [|by intros [= <-]].
    intros Hcb Hp. by eapply run_callback_settled.
Qed.

Lemma run_exited evs code : run evs (Exited code) = Exited code.
Proof. by destruct evs. Qed.

(** What every step keeps holds along every run. *)
Lemma run_invariant (P : wrapper V → Prop) :
  (∀ ev w w', P w → step ev w = Running w' → P w') →
  ∀ evs w w', P w → run evs (Running w) = Running w' → P w'.
Proof.
  intros Hstep evs. induction evs as [|ev evs IH]; intros w w' Hw; simpl.
  - by intros [= <-].
  - destruct (step ev w) as [w1|code] eqn:Hev; [|by rewrite run_exited].
    apply IH. by eapply Hstep.
Qed.

(** Once a promise is settled, no event changes its outcome. *)
Lemma run_settled evs w w' p o :
  run evs (Running w) = Running w' →
  promises w !! p = Some o → promises w' !! p = Some o.
Proof.
  intros Hrun Hp. revert Hrun.
  apply (run_invariant (λ w, promises w !! p = Some o)); [|done].
  intros ev w0 w1 H0 Hev. by eapply step_settled.
Qed.

(** *** Promise numbers *)

Lemma Forall_insert_timer (P : timer → Prop) t ts :
  Forall P (insert_timer t ts) ↔ P t ∧ Forall P ts.
Proof.
  induction ts as [|t' ts IH]; simpl.
  - rewrite Forall_singleton. split; [by intros ?|by intros [? _]].
  - destruct (due t <? due t').
    + by rewrite Forall_cons.
    + rewrite !Forall_cons, IH. tauto.
Qed.

(** A state with fewer entries and timers and the same promise counter
    is well formed when no unallocated promise got settled. *)
Lemma well_formed_shrink w w' :
  requestQueue w' `sublist_of` requestQueue w →
  timers w' `sublist_of` timers w →
  next_promise w' = next_promise w →
  (∀ p, (next_promise w ≤ p)%nat → promises w' !! p = None) →
  well_formed w → well_formed w'.
Proof.
  intros Hq Ht Hn Hp (Hentries & Htimers & _ & Hnodup). unfold well_formed. rewrite Hn.
  split; [|split; [|split]].
  - rewrite Forall_forall in *. intros e He. apply Hentries. by eapply elem_of_sublist.
  - rewrite Forall_forall in *. intros t Hin. apply Htimers. by eapply elem_of_sublist.
  - done.
  - eapply sublist_NoDup; [exact Hnodup|]. by apply fmap_sublist.
Qed.

Lemma well_formed_respond text w : well_formed w → well_formed (respond text w).
Proof.
  intros Hwf. apply (well_formed_shrink w); try done.
  - apply respond_queue_sublist.
  - by rewrite (proj1 (proj2 (proj2 (proj2 (proj2 (respond_fields get_id JSON_parse text w)))))).
  - apply respond_fields.
  - intros p Hp. destruct Hwf as (Hentries & _ & Hnone & _).
    unfold Notions.respond. destruct (looks_like_json text); [|by apply Hnone].
    destruct (JSON_parse (trim text)) as [response|error]; [|by apply Hnone].
    destruct (list_find _ (requestQueue w)) as [[i request]|] eqn:Hfind; [|by apply Hnone].
    apply list_find_Some in Hfind as (Hi & _).
    apply list_elem_of_lookup_2 in Hi. rewrite Forall_forall in Hentries.
    specialize (Hentries _ Hi). rewrite settle_other by lia. by apply Hnone.
Qed.

Lemma well_formed_foldl_respond lines w :
  well_formed w → well_formed (foldl (flip respond) w lines).
Proof.
  revert w. induction lines as [|text lines IH]; intros w Hwf; [done|].
  simpl. by apply IH, well_formed_respond.
Qed.

Lemma well_formed_forwardToMCP request date_now write_error w :
  well_formed w → well_formed (forwardToMCP request date_now write_error w).
Proof.
  intros (Hentries & Htimers & Hnone & Hnodup).
  assert (Forall (λ e, (entry_promise e < S (next_promise w))%nat)
            (requestQueue w ++ [{| entry_id := or_else (get_id request) (VNum date_now);
                                   entry_promise := next_promise w |}])) as Hentries'.
  { apply Forall_app. split; [|by repeat constructor].
    eapply Forall_impl; [exact Hentries|]. simpl. lia. }
  assert (Forall (timer_promise_below (S (next_promise w))) (timers w)) as Htimers'.
  { eapply Forall_impl; [exact Htimers|]. intros t. unfold timer_promise_below.
    destruct (action t); [lia|done|done]. }
  assert (NoDup (entry_promise <$>
            requestQueue w ++ [{| entry_id := or_else (get_id request) (VNum date_now);
                                  entry_promise := next_promise w |}])) as Hnodup'.
  { rewrite fmap_app. apply NoDup_app. split; [done|]. split; [|apply NoDup_singleton].
    intros p Hp [->|[]%elem_of_nil]%elem_of_cons.
    apply list_elem_of_fmap in Hp as (e & Heq & He). rewrite Forall_forall in Hentries.
    specialize (Hentries e He). simpl in Heq. lia. }
  unfold KiwiTcmsMCPWrapper.forwardToMCP. destruct (stdin_write _ _ _) as [child|error].
  - unfold well_formed. simpl. split; [done|]. split; [|split; [|done]].
    + apply Forall_insert_timer. split; [unfold timer_promise_below; simpl; lia|done].
    + intros p Hp. apply Hnone. lia.
  - unfold well_formed. rewrite settle_queue, settle_timers, settle_next_promise. simpl.
    split; [done|]. split; [done|]. split; [|done].
    intros p Hp. rewrite settle_other by lia. simpl. apply Hnone. lia.
Qed.

Lemma well_formed_request_timeout requestId p w :
  (p < next_promise w)%nat → well_formed w → well_formed (request_timeout requestId p w).
Proof.
  intros Hp Hwf. apply (well_formed_shrink w); try done.
  - apply request_timeout_queue_sublist.
  - by rewrite (proj1 (proj2 (request_timeout_fields requestId p w))).
  - apply request_timeout_fields.
  - intros q Hq. destruct Hwf as (_ & _ & Hnone & _).
    destruct (request_timeout_lookup requestId p q w) as [->|(-> & _)]; [by apply Hnone|lia].
Qed.

Lemma well_formed_setTimeout cb ms w :
  match cb with RequestTimeout _ p => (p < next_promise w)%nat | _ => True end →
  well_formed w → well_formed (setTimeout cb ms w).
Proof.
  intros Hcb (Hentries & Htimers & Hnone & Hnodup). unfold well_formed. simpl.
  split; [done|]. split; [|done]. by apply Forall_insert_timer.
Qed.

Lemma well_formed_initializeMCP w w' :
  initializeMCP w = Running w' → well_formed w → well_formed w'.
Proof.
  intros (Hq & Hp & Hn & _ & _ & _ & Ht)%initializeMCP_running (He & Htimers & Hnone & Hnd).
  unfold well_formed. rewrite Hq, Hp, Hn, Ht.
  split; [done|]. split; [|done]. by apply Forall_insert_timer.
Qed.

Lemma well_formed_step ev w w' : well_formed w → step ev w = Running w' → well_formed w'.
Proof.
  intros Hwf. destruct ev as [body date_now write_error|data|data|code|error|ms|]; simpl.
  - intros [= <-]. unfold KiwiTcmsMCPWrapper.post_mcp. destruct (negb (isReady w)); [done|].
    by apply well_formed_forwardToMCP.
  - rewrite on_stdout_data_respond. intros [= <-]. by apply well_formed_foldl_respond.
  - by intros [= <-].
  - intros [= <-]. by apply well_formed_setTimeout.
  - by intros [= <-].
  - by intros [= <-].
  - unfold KiwiTcmsMCPWrapper.fire_timer. destruct (timers w) as [|t ts] eqn:Hts; [by intros [= <-]|].
    destruct (due t <=? clock w); [|by intros [= <-]].
    assert (well_formed (set_timers ts w)) as Hwf'.
    { apply (well_formed_shrink w); simpl; [done| |done| |done].
      - rewrite Hts. by apply sublist_cons.
      - apply Hwf. }
    destruct Hwf as (_ & Htimers & _). rewrite Hts in Htimers.
    apply Forall_cons in Htimers as [Ht _].
    destruct (action t) as [requestId p| |] eqn:Hcb; simpl.
    + intros [= <-]. apply well_formed_request_timeout; [|done].
      unfold timer_promise_below in Ht. by rewrite Hcb in Ht.
    + by intros [= <-].
    + intros Hinit. by eapply well_formed_initializeMCP.
Qed.

Lemma well_formed_constructed : well_formed (@constructed V).
Proof.
  unfold well_formed. simpl. split; [done|]. split; [done|]. split; [done|]. constructor.
Qed.

(** Every state the process reaches from its start is well formed. *)
Lemma well_formed_reachable evs w :
  run evs (boot process_env dirname spawn_throws) = Running w → well_formed w.
Proof.
  unfold boot. destruct (initializeMCP constructed) as [w0|code] eqn:Hboot;
    [|by rewrite run_exited].
  apply (run_invariant well_formed).
  - intros ev w1 w2 H1 Hev. by eapply well_formed_step.
  - by eapply well_formed_initializeMCP, well_formed_constructed.
Qed.

(** *** The buffer *)

Lemma forwardToMCP_responseBuffer request date_now write_error w :
  responseBuffer (forwardToMCP request date_now write_error w) = responseBuffer w.
Proof.
  unfold KiwiTcmsMCPWrapper.forwardToMCP. destruct (stdin_write _ _ _); [done|].
  by rewrite settle_responseBuffer.
Qed.

Lemma step_buffer_newline_free ev w w' :
  has_newline (responseBuffer w) = false → step ev w = Running w' →
  has_newline (responseBuffer w') = false.
Proof.
  intros Hbuffer. destruct ev as [body date_now write_error|data|data|code|error|ms|]; simpl.
  - intros [= <-]. unfold KiwiTcmsMCPWrapper.post_mcp. destruct (negb (isReady w)); [done|].
    by rewrite forwardToMCP_responseBuffer.
  - rewrite on_stdout_data_respond. intros [= <-].
    rewrite foldl_respond_responseBuffer.
    apply (framed_fragment_newline_free (responseBuffer w) data).
  - by intros [= <-].
  - by intros [= <-].
  - by intros [= <-].
  - by intros [= <-].
  - unfold KiwiTcmsMCPWrapper.fire_timer. destruct (timers w) as [|t ts]; [by intros [= <-]|].
    destruct (due t <=? clock w); [|by intros [= <-]].
    destruct (action t) as [requestId q| |]; simpl.
    + intros [= <-].
      by rewrite (proj2 (proj2 (proj2 (request_timeout_fields requestId q (set_timers ts w))))).
    + by intros [= <-].
    + intros (_ & _ & _ & Hb & _)%initializeMCP_running. by rewrite Hb.
Qed.

(** In every state the process reaches from its start, the buffer holds
    a fragment without line terminator. *)
Lemma buffer_newline_free_reachable evs w :
  run evs (boot process_env dirname spawn_throws) = Running w →
  has_newline (responseBuffer w) = false.
Proof.
  unfold boot. destruct (initializeMCP constructed) as [w0|code] eqn:Hboot;
    [|by rewrite run_exited].
  apply (run_invariant (λ w, has_newline (responseBuffer w) = false)).
  - intros ev w1 w2 H1 Hev. by eapply step_buffer_newline_free.
  - apply initializeMCP_running in Hboot as (_ & _ & _ & Hb & _). by rewrite Hb.
Qed.

(** *** The claims about calls *)

Local Abbreviation handleMCPResponse := (handleMCPResponse get_id JSON_parse).

(** C7, as the code has it. A call whose request has been written to the
    worker gets a timer due 120000 ms after its registration, whatever
    the request. The timer does not run before that. When it runs while
    the call waits and no other pending entry carries the call's
    identifier, the call leaves the queue and is rejected with the
    timeout error. From then on, whatever happens, the outcome of the
    call is the timeout error, and in every later state in which no
    pending entry carries the identifier a response with that identifier
    changes nothing and raises nothing. *)
Theorem request_deadline (w : wrapper V) (request : V) (date_now : Z) (child : child_process) :
  well_formed w → mcpProcess w = Some child →
  let e := {| entry_id := or_else (get_id request) (VNum date_now);
              entry_promise := next_promise w |} in
  let deadline := {| due := clock w + 120000;
                     action := RequestTimeout (entry_id e) (entry_promise e) |} in
  let w1 := forwardToMCP request date_now None w in
  timers w1 = insert_timer deadline (timers w) ∧
  in_flight e w1 ∧
  ∀ w2 ts, timers w2 = deadline :: ts →
    (clock w2 < clock w + 120000 → fire_timer w2 = Running w2) ∧
    (clock w + 120000 ≤ clock w2 → well_formed w2 → in_flight e w2 → sole_carrier e w2 →
     ∃ w3, fire_timer w2 = Running w3 ∧
       (e ∉ requestQueue w3) ∧
       promises w3 !! entry_promise e = Some (Rejected timeout_error) ∧
       unknown_id (entry_id e) w3 ∧
       ∀ evs w4, run evs (Running w3) = Running w4 →
         promises w4 !! entry_promise e = Some (Rejected timeout_error) ∧
         (unknown_id (entry_id e) w4 →
          ∀ text response,
            JSON_parse (trim text) = Normal response →
            get_id response = entry_id e →
            handleMCPResponse text w4 = Normal w4)).
Proof.
  intros Hwf Hchild e deadline w1.
  destruct (forwardToMCP_written request date_now w child Hchild)
    as (Hqueue & Hpromises & _ & Htimers & _).
  split; [done|]. split.
  { split.
    - fold w1 in Hqueue. rewrite Hqueue. apply elem_of_app. right. by left.
    - fold w1 in Hpromises. rewrite Hpromises. by apply Hwf. }
  intros w2 ts Hts. split.
  - intros Hearly. unfold KiwiTcmsMCPWrapper.fire_timer. rewrite Hts. simpl.
    by rewrite (proj2 (Z.leb_gt _ _) Hearly).
  - intros Hdue Hwf2 Hwait Hsole. unfold KiwiTcmsMCPWrapper.fire_timer. rewrite Hts. simpl.
    rewrite (proj2 (Z.leb_le _ _) Hdue). eexists. split; [done|].
    assert (well_formed (set_timers ts w2)) as Hwf2'.
    { apply (well_formed_shrink w2); simpl; [done| |done| |done].
      - rewrite Hts. by apply sublist_cons.
      - apply Hwf2. }
    destruct (request_timeout_in_flight e (set_timers ts w2) Hwf2' Hwait Hsole)
      as (Hrejected & Hgone & Hunknown).
    split; [done|]. split; [done|]. split; [done|]. intros evs w4 Hrun. split.
    + by eapply run_settled.
    + intros Hunknown4 text response Hparse Hid.
      rewrite handleMCPResponse_respond. f_equal. by eapply respond_unknown_identifier.
Qed.

(** C3, as the code has it. A waiting call whose identifier no other
    pending entry carries is settled by the response that carries its
    identifier, or by its timer, and then leaves the queue. After that,
    and for as long as no pending entry carries the identifier, another
    response with the identifier and the call's own timer change
    nothing and raise nothing, and no event changes the outcome. *)
Theorem single_resolution (w : wrapper V) (e : entry) :
  well_formed w → in_flight e w → sole_carrier e w →
  let later_attempts_change_nothing (w1 : wrapper V) :=
    (e ∉ requestQueue w1) ∧
    (∀ w2, unknown_id (entry_id e) w2 →
       (∀ text response,
          JSON_parse (trim text) = Normal response →
          strict_equal_parsed (entry_id e) (get_id response) = true →
          handleMCPResponse text w2 = Normal w2) ∧
       request_timeout (entry_id e) (entry_promise e) w2 = w2) ∧
    unknown_id (entry_id e) w1 ∧
    (∀ evs w2, run evs (Running w1) = Running w2 →
       promises w2 !! entry_promise e = promises w1 !! entry_promise e) in
  (∀ text response,
     looks_like_json text = true → JSON_parse (trim text) = Normal response →
     strict_equal_parsed (entry_id e) (get_id response) = true →
     ∃ w1, handleMCPResponse text w = Normal w1 ∧
           promises w1 !! entry_promise e = Some (Resolved response) ∧
           later_attempts_change_nothing w1) ∧
  (promises (request_timeout (entry_id e) (entry_promise e) w) !! entry_promise e
     = Some (Rejected timeout_error) ∧
   later_attempts_change_nothing (request_timeout (entry_id e) (entry_promise e) w)).
Proof.
  intros Hwf Hwait Hsole later.
  assert (∀ w1 o, promises w1 !! entry_promise e = Some o → e ∉ requestQueue w1 →
                  unknown_id (entry_id e) w1 → later w1) as Hlater.
  { intros w1 o Ho Hgone Hunknown. split; [done|]. split; [|split; [done|]].
    - intros w2 Hunknown2. split.
      + intros text response Hparse Hid. rewrite handleMCPResponse_respond. f_equal.
        by eapply respond_unknown_id.
      + by apply request_timeout_unknown.
    - intros evs w2 Hrun. rewrite Ho. by eapply run_settled. }
  split.
  - intros text response Hjson Hparse Hid.
    destruct (respond_sole_carrier text response e w Hwf Hwait Hsole Hjson Hparse Hid)
      as (Hresolved & Hgone & Hunknown).
    exists (respond text w). split; [apply handleMCPResponse_respond|].
    split; [done|]. by eapply Hlater.
  - destruct (request_timeout_in_flight e w Hwf Hwait Hsole)
      as (Hrejected & Hgone & Hunknown).
    split; [done|]. by eapply Hlater.
Qed.

(** The timer of a call that has already been settled runs while the
    first pending entry with its identifier belongs to another call that
    waits: that entry leaves the queue and no promise changes. *)
Lemma stale_timer_step
    (w : wrapper V) (d : Z) (requestId : jsval) (p : nat) (ts : list timer)
    (i : nat) (e : entry) :
  timers w = {| due := d; action := RequestTimeout requestId p |} :: ts →
  d ≤ clock w →
  is_Some (promises w !! p) →
  list_find (λ req, strict_equal (entry_id req) requestId = true) (requestQueue w)
    = Some (i, e) →
  entry_promise e ≠ p → promises w !! entry_promise e = None →
  ∃ w', fire_timer w = Running w' ∧
    requestQueue w' = delete i (requestQueue w) ∧
    promises w' = promises w ∧
    promises w' !! entry_promise e = None ∧
    timers w' = ts.
Proof.
  intros Hts Hdue [o Ho] Hfind Hother He.
  unfold KiwiTcmsMCPWrapper.fire_timer. rewrite Hts. simpl. rewrite (proj2 (Z.leb_le _ _) Hdue).
  eexists. split; [done|].
  rewrite (request_timeout_found requestId p i e (set_timers ts w)) by done.
  unfold settle. simpl. rewrite Ho. by simpl.
Qed.

(** C4, as the code has it. When the worker exits, the ready flag is
    cleared and a restart is scheduled five seconds later; the queue and
    the promises are as before, so every call that waited still waits. *)
Theorem worker_exit_leaves_calls_waiting (w : wrapper V) (code : Z) :
  step (Close code) w = Running (on_close code w) ∧
  isReady (on_close code w) = false ∧
  timers (on_close code w) =
    insert_timer {| due := clock w + 5000; action := Restart |} (timers w) ∧
  requestQueue (on_close code w) = requestQueue w ∧
  promises (on_close code w) = promises w ∧
  ∀ e, in_flight e w ↔ in_flight e (on_close code w).
Proof. done. Qed.

(** C5, as the code has it. A call whose identifier a pending entry
    already carries is registered like any other: a second entry with
    the identifier joins the queue, the request is written to the worker,
    the timer is set, and the promise of the call is not settled. *)
Theorem duplicate_identifier_is_registered
    (w : wrapper V) (request : V) (date_now : Z) (child : child_process) (e : entry) :
  well_formed w → mcpProcess w = Some child →
  e ∈ requestQueue w → entry_id e = or_else (get_id request) (VNum date_now) →
  let e' := {| entry_id := entry_id e; entry_promise := next_promise w |} in
  let w' := forwardToMCP request date_now None w in
  requestQueue w' = requestQueue w ++ [e'] ∧
  e ∈ requestQueue w' ∧ e' ∈ requestQueue w' ∧ e ≠ e' ∧
  promises w' = promises w ∧ promises w' !! entry_promise e' = None ∧
  (stdin <$> mcpProcess w') =
    Some (stdin child ++ [JSON_stringify request +:+ String newline ""]) ∧
  timers w' =
    insert_timer {| due := clock w + timeout;
                    action := RequestTimeout (entry_id e) (entry_promise e') |} (timers w).
Proof.
  intros Hwf Hchild He Hid e' w'.
  destruct (forwardToMCP_written request date_now w child Hchild)
    as (Hqueue & Hpromises & _ & Htimers & Hstdin & _).
  fold w' in Hqueue, Hpromises, Htimers, Hstdin. rewrite <- Hid in Hqueue, Htimers.
  split; [done|]. rewrite Hqueue.
  split; [apply elem_of_app; by left|]. split; [apply elem_of_app; right; by left|].
  split.
  { intros Heq. destruct Hwf as (Hentries & _). rewrite Forall_forall in Hentries.
    specialize (Hentries _ He). rewrite Heq in Hentries. simpl in Hentries. lia. }
  split; [done|]. split; [|done]. rewrite Hpromises. by apply Hwf.
Qed.

(** *** How the promise of a registered call can be settled *)

Lemma respond_lookup text w q :
  promises (respond text w) !! q = promises w !! q ∨
  ∃ request response,
    request ∈ requestQueue w ∧ entry_promise request = q ∧
    strict_equal_parsed (entry_id request) (get_id response) = true ∧
    promises (respond text w) !! q = Some (Resolved response).
Proof.
  unfold Notions.respond. destruct (looks_like_json text); [|by left].
  destruct (JSON_parse (trim text)) as [response|error]; [|by left].
  destruct (list_find _ (requestQueue w)) as [[i request]|] eqn:Hfind; [|by left].
  apply list_find_Some in Hfind as (Hi & Hmatch & _).
  rewrite settle_lookup. simpl. destruct (promises w !! q) eqn:Hq; [by left|].
  case_decide as Heq; [|by left]. right. exists request, response.
  split; [by eapply list_elem_of_lookup_2|done].
Qed.

Lemma registered_as_shrink id p w w' :
  requestQueue w' `sublist_of` requestQueue w → next_promise w' = next_promise w →
  timeout_or_answer get_id id (promises w' !! p) →
  registered_as id p w → registered_as id p w'.
Proof.
  intros Hq Hn Ho (Hp & Hentries & _). unfold registered_as. rewrite Hn.
  split; [done|]. split; [|done]. intros e He. apply Hentries. by eapply elem_of_sublist.
Qed.

Lemma registered_as_respond id p text w :
  registered_as id p w → registered_as id p (respond text w).
Proof.
  intros Hreg. apply (registered_as_shrink id p w); try done.
  - apply respond_queue_sublist.
  - apply respond_fields.
  - destruct Hreg as (_ & Hentries & Ho).
    destruct (respond_lookup text w p) as [->|(request & response & Hin & Hp & Hid & ->)];
      [done|].
    simpl. by rewrite <- (Hentries request Hin Hp).
Qed.

Lemma registered_as_foldl_respond id p lines w :
  registered_as id p w → registered_as id p (foldl (flip respond) w lines).
Proof.
  revert w. induction lines as [|text lines IH]; intros w Hreg; [done|].
  simpl. by apply IH, registered_as_respond.
Qed.

Lemma registered_as_request_timeout id p requestId q w :
  registered_as id p w → registered_as id p (request_timeout requestId q w).
Proof.
  intros Hreg. apply (registered_as_shrink id p w); try done.
  - apply request_timeout_queue_sublist.
  - apply request_timeout_fields.
  - destruct Hreg as (_ & _ & Ho).
    by destruct (request_timeout_lookup requestId q p w) as [->|(-> & _ & ->)].
Qed.

Lemma registered_as_forwardToMCP id p request date_now write_error w :
  registered_as id p w → registered_as id p (forwardToMCP request date_now write_error w).
Proof.
  intros (Hp & Hentries & Ho).
  assert (∀ e, e ∈ requestQueue w ++
                 [{| entry_id := or_else (get_id request) (VNum date_now);
                     entry_promise := next_promise w |}] →
               entry_promise e = p → entry_id e = id) as Hentries'.
  { intros e [He|[->|[]%elem_of_nil]%elem_of_cons]%elem_of_app Heq; [by apply Hentries|].
    simpl in Heq. lia. }
  unfold KiwiTcmsMCPWrapper.forwardToMCP. destruct (stdin_write _ _ _) as [child|error].
  - unfold registered_as. simpl. split; [lia|done].
  - unfold registered_as. rewrite settle_next_promise, settle_queue, settle_other by lia.
    simpl. split; [lia|done].
Qed.

Lemma registered_as_step id p ev w w' :
  registered_as id p w → step ev w = Running w' → registered_as id p w'.
Proof.
  intros Hreg. destruct ev as [body date_now write_error|data|data|code|error|ms|]; simpl.
  - intros [= <-]. unfold KiwiTcmsMCPWrapper.post_mcp. destruct (negb (isReady w)); [done|].
    by apply registered_as_forwardToMCP.
  - rewrite on_stdout_data_respond. intros [= <-]. by apply registered_as_foldl_respond.
  - by intros [= <-].
  - by intros [= <-].
  - by intros [= <-].
  - by intros [= <-].
  - unfold KiwiTcmsMCPWrapper.fire_timer. destruct (timers w) as [|t ts]; [by intros [= <-]|].
    destruct (due t <=? clock w); [|by intros [= <-]].
    destruct (action t) as [requestId q| |]; simpl.
    + intros [= <-]. by apply registered_as_request_timeout.
    + by intros [= <-].
    + intros (Hq & Hp & Hn & _)%initializeMCP_running.
      destruct Hreg as (? & ? & ?). unfold registered_as. by rewrite Hq, Hp, Hn.
  Qed.

(** C9, as the code has it. A request whose [id] is falsy is registered
    under [Date.now()], taken after the epoch, and its body is written to
    the worker as it came. A response that carries the [id] of the
    request does not match the entry. Whatever happens afterwards, the
    promise of the call is pending, rejected with the timeout error, or
    resolved with a response that carries the number under which the
    call was registered. *)
Theorem anonymous_request_awaits_timeout
    (w : wrapper V) (request : V) (date_now : Z) (child : child_process) :
  well_formed w → mcpProcess w = Some child →
  truthy (get_id request) = false → 0 < date_now →
  let p := next_promise w in
  let w1 := forwardToMCP request date_now None w in
  requestQueue w1 = requestQueue w ++ [{| entry_id := VNum date_now; entry_promise := p |}] ∧
  (stdin <$> mcpProcess w1) =
    Some (stdin child ++ [JSON_stringify request +:+ String newline ""]) ∧
  in_flight {| entry_id := VNum date_now; entry_promise := p |} w1 ∧
  (∀ response, get_id response = get_id request →
     strict_equal_parsed (VNum date_now) (get_id response) = false) ∧
  (∀ evs w2, run evs (Running w1) = Running w2 →
     match promises w2 !! p with
     | None => True
     | Some (Rejected error) => error = timeout_error
     | Some (Resolved response) => get_id response = VNum date_now
     end).
Proof.
  intros Hwf Hchild Hfalsy Hnow p w1.
  destruct (forwardToMCP_written request date_now w child Hchild)
    as (Hqueue & Hpromises & Hnext & _ & Hstdin & _).
  fold w1 in Hqueue, Hpromises, Hnext, Hstdin. unfold or_else in Hqueue.
  rewrite Hfalsy in Hqueue.
  assert (promises w1 !! p = None) as Hpending by (rewrite Hpromises; by apply Hwf).
  split; [done|]. split; [done|]. split.
  { split; [|done]. rewrite Hqueue. apply elem_of_app. right. by left. }
  split.
  { intros response ->. destruct (get_id request) as [| |b|n|s|ref]; try done.
    simpl in *. apply negb_false_iff, Z.eqb_eq in Hfalsy as ->.
    apply Z.eqb_neq. lia. }
  intros evs w2 Hrun.
  assert (registered_as (VNum date_now) p w1) as Hreg.
  { unfold registered_as. rewrite Hnext, Hpending, Hqueue. split; [lia|]. split; [|done].
    intros e [He|[->|[]%elem_of_nil]%elem_of_cons]%elem_of_app Heq; [|done].
    destruct Hwf as (Hentries & _). rewrite Forall_forall in Hentries.
    specialize (Hentries e He). lia. }
  assert (registered_as (VNum date_now) p w2) as (_ & _ & Ho).
  { revert Hrun. apply (run_invariant (registered_as (VNum date_now) p)); [|done].
    intros ev wa wb Ha Hev. by eapply registered_as_step. }
  destruct (promises w2 !! p) as [[response|error]|]; [|done|done].
  simpl in Ho. symmetry. by apply strict_equal_parsed_true.
Qed.

(** C8. When [KIWI_BASE_URL] or [KIWI_TOKEN] is absent, or set to the
    empty string, which [!kiwiBaseUrl] and [!kiwiToken] do not tell from
    an absent value, [initializeMCP] ends the process with code 1 and
    nothing runs after it: the worker is not started then or later. When
    both are set to a value that is not empty, [spawn] is called for the
    worker with an environment in which the two names have these values
    and the other names but [LOG_LEVEL] have the values of the wrapper;
    the process goes on with that worker, or ends with code 1 when
    [spawn] throws. The worker's own check, made on the environment that
    [dotenv/config] has left, ends the worker with code 1 whenever one
    of the two names is absent there or has the empty string. *)
Theorem startup_requires_configuration (w : wrapper V) :
  (process_env !! "KIWI_BASE_URL" = None ∨ process_env !! "KIWI_BASE_URL" = Some "" ∨
   process_env !! "KIWI_TOKEN" = None ∨ process_env !! "KIWI_TOKEN" = Some "" →
   initializeMCP w = Exited 1 ∧
   (∀ evs, run evs (initializeMCP w) = Exited 1)) ∧
  (∀ url token,
     process_env !! "KIWI_BASE_URL" = Some url → process_env !! "KIWI_TOKEN" = Some token →
     url ≠ "" → token ≠ "" →
     ∃ env, env !! "KIWI_BASE_URL" = Some url ∧ env !! "KIWI_TOKEN" = Some token ∧
            (∀ name, name ≠ "LOG_LEVEL" → is_Some (process_env !! name) →
                     env !! name = process_env !! name) ∧
       match spawn_throws "node" [dirname +:+ "/dist/index.js"] env with
       | None =>
           ∃ w', initializeMCP w = Running w' ∧
                 mcpProcess w' =
                   Some {| spawnfile := "node"; spawnargs := [dirname +:+ "/dist/index.js"];
                           child_env := env; stdin := [] |}
       | Some _ => initializeMCP w = Exited 1
       end) ∧
  (∀ (valid_url : string → bool) (dotenv_config : gmap string string → gmap string string)
     (env : gmap string string) (name : string),
     name = "KIWI_BASE_URL" ∨ name = "KIWI_TOKEN" →
     dotenv_config env !! name = None ∨ dotenv_config env !! name = Some "" →
     worker_main valid_url dotenv_config env = Some 1).
Proof.
  split; [|split].
  - intros Habsent.
    assert (initializeMCP w = Exited 1) as Hexit.
    { unfold KiwiTcmsMCPWrapper.initializeMCP.
      by destruct Habsent as [-> | [-> | [-> | ->]]]; simpl; rewrite ?orb_true_r. }
    split; [done|]. intros evs. by rewrite Hexit, run_exited.
  - intros url token Hurl Htoken Hurl_set Htoken_set.
    exists (<["LOG_LEVEL" := if env_set (process_env !! "LOG_LEVEL")
                             then default "" (process_env !! "LOG_LEVEL") else "INFO"]>
              (<["KIWI_TOKEN" := token]> (<["KIWI_BASE_URL" := url]> process_env))).
    split; [|split; [|split]]; last first.
    + unfold KiwiTcmsMCPWrapper.initializeMCP, spawn. rewrite Hurl, Htoken. simpl.
      destruct url; [done|]. destruct token; [done|]. simpl.
      destruct (spawn_throws _ _ _); [done|]. by eexists.
    + intros name Hname [value Hvalue]. rewrite lookup_insert_ne by done.
      destruct (decide (name = "KIWI_TOKEN")) as [->|];
        [rewrite lookup_insert_eq; congruence|rewrite lookup_insert_ne by done].
      destruct (decide (name = "KIWI_BASE_URL")) as [->|];
        [rewrite lookup_insert_eq; congruence|by rewrite lookup_insert_ne by done].
    + rewrite lookup_insert_ne by done. by rewrite lookup_insert_eq.
    + rewrite !lookup_insert_ne by done. by rewrite lookup_insert_eq.
  - intros valid_url dotenv_config env name Hname Hvalue.
    unfold worker_main, validateEnvironment.
    rewrite bool_decide_eq_true_2; [done|].
    rewrite !filter_cons, filter_nil.
    destruct Hname as [-> | ->]; destruct Hvalue as [-> | ->]; simpl;
      repeat case_decide; simpl; try lia; done.
Qed.

End Calls.

(** ** The claims on concrete runs *)

Ltac by_computation := apply (bool_decide_unpack _); vm_compute; exact I.

Ltac reached evs :=
  apply (well_formed_reachable Demo.env_id Demo.parse Demo.env_text Demo.env "/app"
           Demo.never_throws evs);
  vm_compute; reflexivity.

Example three_calls_queue :
  requestQueue (Demo.state_after Demo.three_calls) =
    [{| entry_id := VNum 1; entry_promise := 0 |}; {| entry_id := VNum 2; entry_promise := 1 |};
     {| entry_id := VNum 3; entry_promise := 2 |}].
Proof. vm_compute. reflexivity. Qed.

Example one_call_timers :
  timers (Demo.state_after Demo.one_call) =
    [{| due := 123000; action := RequestTimeout (VNum 7) 0 |}].
Proof. vm_compute. reflexivity. Qed.

Example one_call_stdin :
  stdin <$> mcpProcess (Demo.state_after Demo.one_call) = Some [Demo.line "7" +:+ Demo.nl].
Proof. vm_compute. reflexivity. Qed.

(** C1 does not hold as it is worded. The [id] of a request is the array
    [[1]]; the call is registered under that array and the request is
    written with it. The response of the worker has [[1]] as its [id],
    but the array that [JSON.parse] makes of it is another one than the
    array stored: the call goes on waiting, and two minutes after its
    registration it is rejected with the timeout error. *)
Lemma array_identifier_is_matched_by_no_response :
  let answer := StdoutData (Demo.line "[1]" +:+ Demo.nl) in
  let w := Named.state_after Named.array_call in
  let w' := Named.state_after (Named.array_call ++ [answer]) in
  let w'' := Named.state_after (Named.array_call ++ [answer; Elapse 120000; TimerFires]) in
  requestQueue w = [{| entry_id := VObject 0; entry_promise := 0 |}] ∧
  stdin <$> mcpProcess w = Some [Demo.line "[1]" +:+ Demo.nl] ∧
  Named.parse (Demo.line "[1]") =
    Normal {| Demo.env_id := VObject 1; Demo.env_text := Demo.line "[1]" |} ∧
  requestQueue w' = requestQueue w ∧
  promises w' !! 0%nat = None ∧
  promises w'' !! 0%nat = Some (Rejected timeout_error).
Proof. intros answer w w' w''. repeat split; vm_compute; reflexivity. Qed.

(** Calls A and B wait. The worker answers B, then a call C that nobody
    made, then A: call A gets the response whose [id] is the string A.
    A call whose identifier is the array [[1]] still waits after a
    response with that [id]. *)
Lemma correlation_by_identifier_witness :
  let w := Named.state_after Named.two_calls in
  let e := {| entry_id := VStr "A"; entry_promise := 0 |} in
  let lines := [Named.line "B"; Named.line "C"; Named.line "A"] in
  let wa := Named.state_after Named.array_call in
  let ea := {| entry_id := VObject 0; entry_promise := 0 |} in
  distinct_ids w ∧ in_flight e w ∧
  (∃ w', handle_lines Demo.env_id Named.parse lines w = Normal w' ∧
         promises w' !! 0%nat = Some (Resolved (Named.request "A")) ∧
         e ∉ requestQueue w') ∧
  in_flight ea wa ∧
  (∃ wa', handle_lines Demo.env_id Named.parse [Demo.line "[1]"] wa = Normal wa' ∧
          in_flight ea wa').
Proof.
  intros w e lines wa ea.
  assert (distinct_ids w) as Hids by (unfold distinct_ids; by_computation).
  assert (NoDup (entry_promise <$> requestQueue w)) as Hps by by_computation.
  assert (in_flight e w) as He by (split; [by_computation|vm_compute; reflexivity]).
  assert (distinct_ids wa) as Hids' by (unfold distinct_ids; by_computation).
  assert (NoDup (entry_promise <$> requestQueue wa)) as Hps' by by_computation.
  assert (in_flight ea wa) as He' by (split; [by_computation|vm_compute; reflexivity]).
  split; [exact Hids|]. split; [exact He|]. split; [|split; [exact He'|]].
  - destruct (correlation_by_identifier Demo.env_id Named.parse w lines e Hids Hps He)
      as [Hfirst _].
    destruct (Hfirst eq_refl) as [(w' & Hrun & Hres) _].
    exists w'. split; [exact Hrun|].
    assert (Demo.env_id (Named.request "A") = entry_id e ∧
            promises w' !! entry_promise e = Some (Resolved (Named.request "A")) ∧
            e ∉ requestQueue w') as (_ & Hp & Hq) by exact Hres.
    split; [exact Hp|exact Hq].
  - destruct (correlation_by_identifier Demo.env_id Named.parse wa [Demo.line "[1]"] ea
                Hids' Hps' He') as [_ Hnever].
    apply Hnever. reflexivity.
Defined.



(** A response with identifier 9 while the only pending call has
    identifier 7. *)
Lemma unmatched_lines_are_discarded_witness :
  let w := Demo.state_after Demo.one_call in
  Demo.parse (trim (Demo.line "9")) = Normal (Demo.request 9 "9") ∧
  requestQueue w = [{| entry_id := VNum 7; entry_promise := 0 |}] ∧
  ∃ entries,
    handleMCPResponse Demo.env_id Demo.parse (Demo.line "9") w = Normal (log entries w) ∧
    requestQueue (log entries w) = requestQueue w ∧
    promises (log entries w) = promises w.
Proof.
  intros w. split; [reflexivity|]. split; [vm_compute; reflexivity|].
  destruct (unmatched_lines_are_discarded Demo.env_id Demo.parse w (Demo.line "9"))
    as (entries & Hhandled & Hqueue & Hpromises & _).
  - right. right. exists (Demo.request 9 "9"). split; [reflexivity|].
    vm_compute. by repeat constructor.
  - exists entries. by split.
Defined.

(** C3 does not hold as it is worded. Two calls carry identifier 7 and
    the first has been answered: a second response with identifier 7
    resolves the second call, and the timer of the first call takes the
    entry of the second call out of the queue. *)
Lemma later_attempts_under_a_shared_identifier_have_effects :
  let w := Demo.state_after Demo.first_answered in
  promises w !! 0%nat = Some (Resolved (Demo.request 7 "7")) ∧
  promises w !! 1%nat = None ∧
  requestQueue w = [{| entry_id := VNum 7; entry_promise := 1 |}] ∧
  (∃ w', Demo.step (StdoutData (Demo.line "7" +:+ Demo.nl)) w = Running w' ∧
         promises w' !! 1%nat = Some (Resolved (Demo.request 7 "7")) ∧
         requestQueue w' = []) ∧
  (∃ w', Demo.run [Elapse 119000; TimerFires] (Running w) = Running w' ∧
         requestQueue w' = [] ∧ promises w' !! 1%nat = None ∧
         timers w' = [{| due := 124000; action := RequestTimeout (VNum 7) 1 |}]).
Proof.
  intros w. split; [vm_compute; reflexivity|]. split; [vm_compute; reflexivity|].
  split; [vm_compute; reflexivity|]. split.
  - eexists. split; [vm_compute; reflexivity|]. split; vm_compute; reflexivity.
  - eexists. split; [vm_compute; reflexivity|].
    split; [|split]; vm_compute; reflexivity.
Qed.

(** One call with identifier 7: its response resolves it, and then the
    same response again and the timer of the call change nothing. *)
Lemma single_resolution_witness :
  let w := Demo.state_after Demo.one_call in
  let e := {| entry_id := VNum 7; entry_promise := 0 |} in
  well_formed w ∧ in_flight e w ∧ sole_carrier e w ∧
  ∃ w1, handleMCPResponse Demo.env_id Demo.parse (Demo.line "7") w = Normal w1 ∧
        promises w1 !! 0%nat = Some (Resolved (Demo.request 7 "7")) ∧
        handleMCPResponse Demo.env_id Demo.parse (Demo.line "7") w1 = Normal w1 ∧
        request_timeout (VNum 7) 0 w1 = w1.
Proof.
  intros w e.
  assert (well_formed w) as Hwf by reached Demo.one_call.
  assert (in_flight e w) as He by (split; [by_computation|vm_compute; reflexivity]).
  assert (sole_carrier e w) as Hsole.
  { intros e' He' _. vm_compute in He'. by apply list_elem_of_singleton in He'. }
  split; [done|]. split; [done|]. split; [done|].
  destruct (single_resolution Demo.env_id Demo.parse Demo.env_text Demo.env "/app"
              Demo.never_throws w e Hwf He Hsole) as [Hresponse _].
  destruct (Hresponse (Demo.line "7") (Demo.request 7 "7"))
    as (w1 & Hhandled & Hresolved & _ & Hlater & Hunknown & _);
    [reflexivity|reflexivity|reflexivity|].
  destruct (Hlater w1 Hunknown) as [Hagain Htimer].
  exists w1. split; [done|]. split; [done|]. split; [|done].
  by apply (Hagain (Demo.line "7") (Demo.request 7 "7")).
Defined.

(** C4 does not hold as it is worded: the worker exits while one call
    waits, and the call is still in the queue and still waits. *)
Lemma worker_exit_fails_no_call :
  let w := Demo.state_after (Demo.one_call ++ [Close 1]) in
  requestQueue w = [{| entry_id := VNum 7; entry_promise := 0 |}] ∧
  promises w !! 0%nat = None ∧ isReady w = false.
Proof. intros w. split; [|split]; vm_compute; reflexivity. Qed.

(** C5 does not hold as it is worded: a second call with identifier 7 is
    registered while the first waits; it is not rejected and the queue has
    two entries with identifier 7. *)
Lemma second_registration_of_an_identifier_succeeds :
  let w := Demo.state_after Demo.two_calls_same_id in
  requestQueue w = [{| entry_id := VNum 7; entry_promise := 0 |};
                    {| entry_id := VNum 7; entry_promise := 1 |}] ∧
  promises w !! 1%nat = None ∧
  stdin <$> mcpProcess w = Some [Demo.line "7" +:+ Demo.nl; Demo.line "7" +:+ Demo.nl].
Proof. intros w. split; [|split]; vm_compute; reflexivity. Qed.

(** A second call with identifier 7 while the first waits. *)
Lemma duplicate_identifier_is_registered_witness :
  let w := Demo.state_after Demo.one_call in
  let e := {| entry_id := VNum 7; entry_promise := 0 |} in
  let w' := forwardToMCP Demo.env_id Demo.env_text (Demo.request 7 "7") Demo.today None w in
  well_formed w ∧ e ∈ requestQueue w ∧
  requestQueue w' = [e; {| entry_id := VNum 7; entry_promise := 1 |}] ∧
  promises w' !! 1%nat = None.
Proof.
  intros w e w'.
  assert (well_formed w) as Hwf by reached Demo.one_call.
  assert (e ∈ requestQueue w) as He by by_computation.
  assert (∃ child, mcpProcess w = Some child) as [child Hchild]
    by (eexists; vm_compute; reflexivity).
  split; [done|]. split; [done|].
  destruct (duplicate_identifier_is_registered Demo.env_id Demo.env_text w
              (Demo.request 7 "7") Demo.today child e Hwf Hchild He)
    as (Hqueue & _ & _ & _ & _ & Hpending & _); [reflexivity|].
  split; [exact Hqueue|exact Hpending].
Defined.

(** C7 does not hold as it is worded. Two calls wait under identifier
    7. The first times out at 123000 and leaves the queue; a response
    with identifier 7 that arrives after that is not dropped: it resolves
    the second call. *)
Lemma deadline_claim_fails_under_a_shared_identifier :
  let w := Demo.state_after (Demo.two_calls_same_id ++ [Elapse 119000; TimerFires]) in
  clock w = 123000 ∧
  promises w !! 0%nat = Some (Rejected timeout_error) ∧
  requestQueue w = [{| entry_id := VNum 7; entry_promise := 1 |}] ∧
  ∃ w', Demo.step (StdoutData (Demo.line "7" +:+ Demo.nl)) w = Running w' ∧
        promises w' !! 1%nat = Some (Resolved (Demo.request 7 "7")) ∧
        requestQueue w' = [].
Proof.
  intros w. split; [vm_compute; reflexivity|]. split; [vm_compute; reflexivity|].
  split; [vm_compute; reflexivity|].
  eexists. split; [|split]; vm_compute; reflexivity.
Qed.

(** One call with identifier 7, registered three seconds after the start:
    its timer is due at 123000 and does not run before; run then, it
    rejects the call, and a response with identifier 7 changes nothing,
    be it at once or a second later. *)
Lemma request_deadline_witness :
  let w := Demo.state_after Demo.warm_up in
  let w1 := forwardToMCP Demo.env_id Demo.env_text (Demo.request 7 "7") Demo.today None w in
  let w2 := Demo.state_after (Demo.one_call ++ [Elapse 120000]) in
  let w4 := Demo.state_after (Demo.one_call ++ [Elapse 120000; TimerFires; Elapse 1000]) in
  well_formed w ∧ clock w = 3000 ∧
  timers w1 = [{| due := 123000; action := RequestTimeout (VNum 7) 0 |}] ∧
  fire_timer Demo.env "/app" Demo.never_throws (Demo.state_after Demo.one_call)
    = Running (Demo.state_after Demo.one_call) ∧
  ∃ w3, fire_timer Demo.env "/app" Demo.never_throws w2 = Running w3 ∧
        promises w3 !! 0%nat = Some (Rejected timeout_error) ∧
        handleMCPResponse Demo.env_id Demo.parse (Demo.line "7") w3 = Normal w3 ∧
        Demo.run [Elapse 1000] (Running w3) = Running w4 ∧
        clock w4 = 124000 ∧
        promises w4 !! 0%nat = Some (Rejected timeout_error) ∧
        handleMCPResponse Demo.env_id Demo.parse (Demo.line "7") w4 = Normal w4.
Proof.
  intros w w1 w2 w4.
  assert (well_formed w) as Hwf by reached Demo.warm_up.
  assert (∃ child, mcpProcess w = Some child) as [child Hchild]
    by (eexists; vm_compute; reflexivity).
  split; [done|]. split; [vm_compute; reflexivity|].
  destruct (request_deadline Demo.env_id Demo.parse Demo.env_text Demo.env "/app"
              Demo.never_throws w (Demo.request 7 "7") Demo.today child Hwf Hchild)
    as (Htimers & _ & Hlater).
  split; [exact Htimers|]. split.
  - apply (Hlater (Demo.state_after Demo.one_call) []); [vm_compute; reflexivity|].
    vm_compute. reflexivity.
  - destruct (Hlater w2 []) as [_ Hdue]; [vm_compute; reflexivity|].
    destruct Hdue as (w3 & Hfire & _ & Hrejected & Hunknown & Hafter).
    + vm_compute. discriminate.
    + reached (Demo.one_call ++ [Elapse 120000]).
    + split; [by_computation|vm_compute; reflexivity].
    + intros e' He' _. vm_compute in He'. by apply list_elem_of_singleton in He'.
    + assert (Running w3 =
              Running (Demo.state_after (Demo.one_call ++ [Elapse 120000; TimerFires])))
        as Hw3 by (rewrite <- Hfire; vm_compute; reflexivity).
      assert (Demo.run [Elapse 1000] (Running w3) = Running w4) as Hrun
        by (rewrite Hw3; vm_compute; reflexivity).
      destruct (Hafter [] w3 eq_refl) as [_ Hnow].
      destruct (Hafter [Elapse 1000] w4 Hrun) as [Hstill Hthen].
      exists w3. split; [done|]. split; [done|]. split.
      { by apply (Hnow Hunknown (Demo.line "7") (Demo.request 7 "7")). }
      split; [done|]. split; [vm_compute; reflexivity|]. split; [done|].
      apply (Hthen ltac:(by_computation) (Demo.line "7") (Demo.request 7 "7"));
        vm_compute; reflexivity.
Defined.

(** C9 does not hold as it is worded. A request without [id] is
    registered under the number [Date.now()] gives; a second request
    carries that number as its [id], the worker answers it, and the
    response resolves the first call. *)
Lemma anonymous_call_resolved_by_a_response :
  let w0 := Demo.state_after Demo.timestamp_taken in
  let w := Demo.state_after
             (Demo.timestamp_taken ++ [StdoutData (Demo.line "1700000000000" +:+ Demo.nl)]) in
  requestQueue w0 = [{| entry_id := VNum Demo.today; entry_promise := 0 |};
                     {| entry_id := VNum Demo.today; entry_promise := 1 |}] ∧
  stdin <$> mcpProcess w0 = Some ["{}" +:+ Demo.nl; Demo.line "1700000000000" +:+ Demo.nl] ∧
  promises w0 !! 0%nat = None ∧
  promises w !! 0%nat = Some (Resolved (Demo.request Demo.today "1700000000000")).
Proof. intros w0 w. repeat split; vm_compute; reflexivity. Qed.

(** A request without [id], three seconds after the start. *)
Lemma anonymous_request_awaits_timeout_witness :
  let w := Demo.state_after Demo.warm_up in
  let w1 := forwardToMCP Demo.env_id Demo.env_text Demo.anonymous Demo.today None w in
  well_formed w ∧ truthy (Demo.env_id Demo.anonymous) = false ∧ 0 < Demo.today ∧
  requestQueue w1 = [{| entry_id := VNum Demo.today; entry_promise := 0 |}] ∧
  stdin <$> mcpProcess w1 = Some ["{}" +:+ Demo.nl] ∧
  ∀ w2, Demo.run [Elapse 120000; TimerFires] (Running w1) = Running w2 →
        match promises w2 !! 0%nat with
        | None => True
        | Some (Rejected error) => error = timeout_error
        | Some (Resolved response) => Demo.env_id response = VNum Demo.today
        end.
Proof.
  intros w w1.
  assert (well_formed w) as Hwf by reached Demo.warm_up.
  assert (∃ child, mcpProcess w = Some child ∧ stdin child = []) as (child & Hchild & Hstdin)
    by (eexists; split; vm_compute; reflexivity).
  split; [done|]. split; [reflexivity|]. split; [reflexivity|].
  destruct (anonymous_request_awaits_timeout Demo.env_id Demo.parse Demo.env_text Demo.env
              "/app" Demo.never_throws w Demo.anonymous Demo.today child Hwf Hchild)
    as (Hqueue & Hwritten & _ & _ & Hlater); [reflexivity|reflexivity|].
  split; [exact Hqueue|]. split; [by rewrite Hstdin in Hwritten|].
  intros w2. apply Hlater.
Defined.

(** C10, as the code has it. Whenever the timer of a call that has
    already been settled runs while the first pending entry with its
    identifier belongs to another call that waits, that entry leaves the
    queue, no promise is rejected, and the other call goes on waiting
    without an entry. There is a run in which this happens: two calls are
    registered with identifier 7, the first is answered, and its timer
    runs a second before the deadline of the second. *)
Theorem stale_timer_removes_later_entry :
  (∀ (V : Type) (process_env : gmap string string) (dirname : string)
     (spawn_throws : string → list string → gmap string string → option Error)
     (w : wrapper V) (d : Z) (requestId : jsval) (p : nat) (ts : list timer)
     (i : nat) (e : entry),
     timers w = {| due := d; action := RequestTimeout requestId p |} :: ts →
     d ≤ clock w →
     is_Some (promises w !! p) →
     list_find (λ req, strict_equal (entry_id req) requestId = true) (requestQueue w)
       = Some (i, e) →
     entry_promise e ≠ p → promises w !! entry_promise e = None →
     ∃ w', fire_timer process_env dirname spawn_throws w = Running w' ∧
       requestQueue w' = delete i (requestQueue w) ∧
       promises w' = promises w ∧
       promises w' !! entry_promise e = None ∧
       timers w' = ts) ∧
  (∃ w w',
     Demo.run (Demo.first_answered ++ [Elapse 119000]) Demo.boot = Running w ∧
     clock w = 123000 ∧
     timers w = [{| due := 123000; action := RequestTimeout (VNum 7) 0 |};
                 {| due := 124000; action := RequestTimeout (VNum 7) 1 |}] ∧
     promises w !! 0%nat = Some (Resolved (Demo.request 7 "7")) ∧
     promises w !! 1%nat = None ∧
     requestQueue w = [{| entry_id := VNum 7; entry_promise := 1 |}] ∧
     Demo.step TimerFires w = Running w' ∧
     requestQueue w' = [] ∧
     promises w' = promises w ∧
     timers w' = [{| due := 124000; action := RequestTimeout (VNum 7) 1 |}]).
Proof.
  split.
  - intros V process_env dirname spawn_throws w d requestId p ts i e.
    apply stale_timer_step.
  - do 2 eexists. split; [vm_compute; reflexivity|]. repeat split; vm_compute; reflexivity.
Qed.

(** C10 does not hold as it is worded: in no state does the callback of a
    timer reject the promise of a call other than the one that set it. *)
Lemma timer_rejects_no_other_call :
  ¬ ∃ (w : wrapper Demo.envelope) (requestId : jsval) (p : nat) (e : entry),
      e ∈ requestQueue w ∧ entry_promise e ≠ p ∧
      promises w !! entry_promise e = None ∧
      promises (request_timeout requestId p w) !! entry_promise e
        = Some (Rejected timeout_error).
Proof.
  intros (w & requestId & p & e & _ & Hother & Hpending & Hrejected).
  destruct (request_timeout_lookup requestId p (entry_promise e) w) as [Hsame|[Heq _]].
  - congruence.
  - done.
Qed.

(** Two calls with identifier 7, the first answered; at 123000 the timer
    of the first runs, a second before the deadline of the second. *)
Lemma stale_timer_removes_later_entry_witness :
  let w := Demo.state_after (Demo.first_answered ++ [Elapse 119000]) in
  clock w = 123000 ∧
  promises w !! 0%nat = Some (Resolved (Demo.request 7 "7")) ∧
  requestQueue w = [{| entry_id := VNum 7; entry_promise := 1 |}] ∧
  ∃ w', fire_timer Demo.env "/app" Demo.never_throws w = Running w' ∧
        requestQueue w' = [] ∧ promises w' !! 1%nat = None ∧
        promises w' !! 0%nat = Some (Resolved (Demo.request 7 "7")) ∧
        timers w' = [{| due := 124000; action := RequestTimeout (VNum 7) 1 |}].
Proof.
  intros w. split; [vm_compute; reflexivity|].
  assert (promises w !! 0%nat = Some (Resolved (Demo.request 7 "7"))) as Hfirst
    by (vm_compute; reflexivity).
  split; [done|]. split; [vm_compute; reflexivity|].
  destruct stale_timer_removes_later_entry as [Hstale _].
  destruct (Hstale Demo.envelope Demo.env "/app" Demo.never_throws w 123000 (VNum 7) 0%nat
              [{| due := 124000; action := RequestTimeout (VNum 7) 1 |}] 0%nat
              {| entry_id := VNum 7; entry_promise := 1 |})
    as (w' & Hfire & Hqueue & Hpromises & Hpending & Htimers).
  - vm_compute. reflexivity.
  - vm_compute. discriminate.
  - by rewrite Hfirst.
  - vm_compute. reflexivity.
  - done.
  - vm_compute. reflexivity.
  - exists w'. split; [done|]. split; [rewrite Hqueue; vm_compute; reflexivity|].
    split; [done|]. split; [by rewrite Hpromises|done].
Defined.

(** An empty environment ends the process at once, and so does an
    environment whose token is the empty string; the environment of the
    examples reaches [spawn] with both values in place. A worker started
    with the empty token, in a directory without a file [.env], ends
    with code 1. *)
Lemma startup_requires_configuration_witness :
  (∅ : gmap string string) !! "KIWI_BASE_URL" = None ∧
  initializeMCP ∅ "/app" Demo.never_throws (@constructed Demo.envelope) = Exited 1 ∧
  Lifecycle.empty_token_env !! "KIWI_BASE_URL" = Some "http://localhost:8080" ∧
  Lifecycle.empty_token_env !! "KIWI_TOKEN" = Some "" ∧
  initializeMCP Lifecycle.empty_token_env "/app" Demo.never_throws
    (@constructed Demo.envelope) = Exited 1 ∧
  Demo.env !! "KIWI_BASE_URL" = Some "http://localhost:8080" ∧
  Demo.env !! "KIWI_TOKEN" = Some "secret" ∧
  (∃ w' child,
     initializeMCP Demo.env "/app" Demo.never_throws (@constructed Demo.envelope) = Running w' ∧
     mcpProcess w' = Some child ∧
     child_env child !! "KIWI_BASE_URL" = Some "http://localhost:8080" ∧
     child_env child !! "KIWI_TOKEN" = Some "secret") ∧
  worker_main (λ _, true) (λ env, env) Lifecycle.empty_token_env = Some 1.
Proof.
  split; [reflexivity|]. split.
  { destruct (startup_requires_configuration Demo.env_id Demo.parse Demo.env_text ∅ "/app"
                Demo.never_throws (@constructed Demo.envelope)) as [Habsent _].
    apply Habsent. by left. }
  split; [reflexivity|]. split; [reflexivity|]. split.
  { destruct (startup_requires_configuration Demo.env_id Demo.parse Demo.env_text
                Lifecycle.empty_token_env "/app" Demo.never_throws
                (@constructed Demo.envelope)) as [Habsent _].
    apply Habsent. right. right. right. reflexivity. }
  split; [reflexivity|]. split; [reflexivity|].
  destruct (startup_requires_configuration Demo.env_id Demo.parse Demo.env_text Demo.env
              "/app" Demo.never_throws (@constructed Demo.envelope))
    as (_ & Hpresent & Hworker).
  split.
  - destruct (Hpresent "http://localhost:8080" "secret")
      as (env & Hurl & Htoken & _ & Hspawn); [reflexivity|reflexivity|done|done|].
    unfold Demo.never_throws in Hspawn. destruct Hspawn as (w' & Hrun & Hchild).
    exists w'. eexists. split; [done|]. split; [exact Hchild|]. by split.
  - apply (Hworker (λ _, true) (λ env, env) Lifecycle.empty_token_env "KIWI_TOKEN");
      [by right|right; reflexivity].
Defined.

(** ** The validation utilities *)

Section LimitAndOffset.
Import QArith_base Qcanon Validation.

Lemma Qc_of_Z_le (a b : Z) : (a ≤ b)%Z → (Qc_of_Z a ≤ Qc_of_Z b)%Qc.
Proof.
  intros H. unfold Qcle, Qc_of_Z. simpl. unfold Qle. simpl. lia.
Qed.

Lemma Math_max_finite (x y : Qc) :
  ∃ z, Math_max (Finite x) (Finite y) = Finite z ∧ (y ≤ z)%Qc ∧ (x ≤ z)%Qc ∧ (z = x ∨ z = y).
Proof.
  simpl. case_bool_decide as H.
  - exists y. split; [done|]. split; [done|]. split; [by apply Qclt_le_weak|by right].
  - exists x. split; [done|]. split; [by apply Qcnot_lt_le|]. split; [done|by left].
Qed.

Lemma Math_min_finite (x y : Qc) :
  ∃ z, Math_min (Finite x) (Finite y) = Finite z ∧ (z ≤ y)%Qc ∧ (z ≤ x)%Qc ∧ (z = x ∨ z = y).
Proof.
  simpl. case_bool_decide as H.
  - exists y. split; [done|]. split; [done|]. split; [by apply Qclt_le_weak|by right].
  - exists x. split; [done|]. split; [by apply Qcnot_lt_le|]. split; [done|by left].
Qed.

Lemma clamp_limit (n : number) :
  n ≠ NaN →
  ∃ l, Math_min (Math_max n (of_Z 1)) (of_Z 1000) = Finite l ∧
       (Qc_of_Z 1 ≤ l ≤ Qc_of_Z 1000)%Qc ∧
       (l = Qc_of_Z 1 ∨ l = Qc_of_Z 1000 ∨ n = Finite l).
Proof.
  intros Hn. destruct n as [| | |q]; [done| | |].
  - exists (Qc_of_Z 1000). split; [done|]. split; [|by right; left].
    split; [by apply Qc_of_Z_le|done].
  - exists (Qc_of_Z 1). split; [by vm_compute|]. split; [|by left].
    split; [done|by apply Qc_of_Z_le].
  - unfold of_Z. destruct (Math_max_finite q (Qc_of_Z 1)) as (z & -> & Hz1 & Hzq & Hz).
    destruct (Math_min_finite z (Qc_of_Z 1000)) as (l & -> & Hl1000 & Hlz & Hl).
    exists l. split; [done|]. destruct Hl as [->| ->].
    + split; [done|]. destruct Hz as [->| ->]; [by right; right|by left].
    + split; [|by right; left]. split; [by apply Qc_of_Z_le|done].
Qed.

Lemma or_default_not_NaN (x : option number) (d : number) :
  d ≠ NaN → or_default x d ≠ NaN ∧ (or_default x d = d ∨ Some (or_default x d) = x).
Proof.
  intros Hd. destruct x as [[| | |q]|]; simpl; try (split; [done|by auto]).
  destruct (negb _); split; by auto.
Qed.

Lemma limit_and_offset_bounds_aux (limit offset : option number) :
  let r := validateLimitAndOffset limit offset in
  (∃ l, Validation.limit r = Finite l ∧ (Qc_of_Z 1 ≤ l ≤ Qc_of_Z 1000)%Qc) ∧
  (Validation.limit r = of_Z 1 ∨ Validation.limit r = of_Z 1000 ∨
   Validation.limit r = of_Z 50 ∨ Some (Validation.limit r) = limit) ∧
  number_le (of_Z 0) (Validation.offset r) = true ∧
  (Validation.offset r = of_Z 0 ∨ Some (Validation.offset r) = offset).
Proof.
  simpl. destruct (or_default_not_NaN limit (of_Z 50)) as [Hl Hl']; [done|].
  destruct (clamp_limit _ Hl) as (l & -> & Hbounds & Hfrom).
  split; [by exists l|]. split.
  { destruct Hfrom as [->|[->|Heq]]; [by left|by right; left|].
    rewrite <- Heq. destruct Hl' as [->|]; [by right; right; left|by right; right; right]. }
  destruct (or_default_not_NaN offset (of_Z 0)) as [Ho Ho']; [done|].
  destruct (or_default offset (of_Z 0)) as [| | |q] eqn:Hoffset; [done| | |].
  - split; [done|]. right. by destruct Ho'.
  - split; [by vm_compute|]. by left.
  - unfold of_Z. destruct (Math_max_finite q (Qc_of_Z 0)) as (z & -> & Hz0 & _ & Hz).
    split; [simpl; by apply bool_decide_eq_true_2|].
    destruct Hz as [->| ->]; [|by left]. destruct Ho' as [Heq|]; [|by right].
    left. by rewrite Heq.
Qed.

(** X1. Whatever is passed for the limit and the offset (absent, [NaN],
    infinite, negative, fractional), the limit that comes out is a finite
    number between 1 and 1000 and is 1, 1000, 50 or the limit passed; the
    offset that comes out is at least 0 and is 0 or the offset passed. *)
Theorem limit_and_offset_are_bounded (limit offset : option number) :
  let r := validateLimitAndOffset limit offset in
  (∃ l, Validation.limit r = Finite l ∧ (Qc_of_Z 1 ≤ l ≤ Qc_of_Z 1000)%Qc) ∧
  (Validation.limit r = of_Z 1 ∨ Validation.limit r = of_Z 1000 ∨
   Validation.limit r = of_Z 50 ∨ Some (Validation.limit r) = limit) ∧
  number_le (of_Z 0) (Validation.offset r) = true ∧
  (Validation.offset r = of_Z 0 ∨ Some (Validation.offset r) = offset).
Proof. apply limit_and_offset_bounds_aux. Qed.

(** X2. A limit between 1 and 1000 and an offset of at least 0 come out
    as they went in, and what comes out of the function goes through it
    again unchanged. *)
Theorem limit_and_offset_in_range_are_kept (l : Qc) (o : number) :
  (Qc_of_Z 1 ≤ l ≤ Qc_of_Z 1000)%Qc → number_le (of_Z 0) o = true →
  validateLimitAndOffset (Some (Finite l)) (Some o) = {| limit := Finite l; offset := o |} ∧
  ∀ limit offset,
    let r := validateLimitAndOffset limit offset in
    validateLimitAndOffset (Some (Validation.limit r)) (Some (Validation.offset r)) = r.
Proof.
  assert (∀ (l : Qc) (o : number),
            (Qc_of_Z 1 ≤ l ≤ Qc_of_Z 1000)%Qc → number_le (of_Z 0) o = true →
            validateLimitAndOffset (Some (Finite l)) (Some o)
              = {| limit := Finite l; offset := o |}) as Hkept.
  { clear. intros l o [Hl1 Hl1000] Ho. unfold validateLimitAndOffset. f_equal.
    - assert (number_truthy (Finite l) = true) as Htruthy.
      { simpl. apply negb_true_iff, bool_decide_eq_false_2. intros ->.
        apply (Qcle_not_lt _ _ Hl1). by vm_compute. }
      unfold or_default. rewrite Htruthy. unfold of_Z. simpl.
      rewrite (bool_decide_eq_false_2 (l < Qc_of_Z 1)%Qc) by by apply Qcle_not_lt.
      by rewrite (bool_decide_eq_false_2 (Qc_of_Z 1000 < l)%Qc) by by apply Qcle_not_lt.
    - destruct o as [| | |q]; [done|done|done|]. simpl in Ho.
      apply bool_decide_eq_true_1 in Ho. unfold or_default, of_Z. simpl.
      case_bool_decide as Hzero; simpl.
      + rewrite Hzero. by vm_compute.
      + by rewrite (bool_decide_eq_false_2 (q < Qc_of_Z 0)%Qc) by by apply Qcle_not_lt. }
  intros Hl Ho. split; [by apply Hkept|].
  intros limit offset r.
  destruct (limit_and_offset_bounds_aux limit offset) as ((l' & Hlimit & Hbounds) & _ & Hoffset & _).
  fold r in Hlimit, Hoffset. destruct r as [rl ro]. simpl in *. subst rl. by apply Hkept.
Qed.

Lemma limit_and_offset_in_range_are_kept_witness :
  validateLimitAndOffset (Some (of_Z 25)) (Some (of_Z 10))
    = {| limit := of_Z 25; offset := of_Z 10 |}.
Proof.
  apply (limit_and_offset_in_range_are_kept (Qc_of_Z 25) (of_Z 10)).
  - split; vm_compute; discriminate.
  - vm_compute; reflexivity.
Defined.

Lemma this_Qc_of_Z (z : Z) : this (Qc_of_Z z) = inject_Z z.
Proof.
  reflexivity.
Qed.

Lemma integer_Qc (q : Qc) : Qden (this q) = 1%positive → q = Qc_of_Z (Qnum (this q)).
Proof.
  intros Hden. apply Qc_is_canon. rewrite this_Qc_of_Z.
  destruct q as [[n d] Hcanon]. simpl in *. by subst d.
Qed.

Lemma Qc_of_Z_lt (a b : Z) : (Qc_of_Z a < Qc_of_Z b)%Qc ↔ (a < b)%Z.
Proof.
  unfold Qclt. rewrite !this_Qc_of_Z. unfold Qlt, inject_Z. simpl. lia.
Qed.

(** X9. [validateId] accepts exactly the numbers 1, 2, 3 and so on: no
    text of digits, no boolean, no [null], no [NaN], no infinity, no
    fraction, not 0 and no negative number. *)
Theorem ids_are_positive_integers (id : value) :
  validateId id = true ↔ ∃ z : Z, (0 < z)%Z ∧ id = Num (of_Z z).
Proof.
  split.
  - destruct id as [| | |n| | |]; try done. simpl.
    intros [Hpos Hint]%andb_true_iff.
    destruct n as [| | |q]; try done. simpl in *.
    apply bool_decide_eq_true_1 in Hpos, Hint.
    exists (Qnum (this q)). pose proof (integer_Qc q Hint) as Hq.
    rewrite Hq in Hpos. apply (proj1 (Qc_of_Z_lt _ _)) in Hpos. split; [done|].
    unfold of_Z. by rewrite <- Hq.
  - intros (z & Hz & ->). simpl. apply andb_true_iff. split.
    + apply bool_decide_eq_true_2. by apply (proj2 (Qc_of_Z_lt _ _)).
    + done.
Qed.

End LimitAndOffset.

Section Sanitize.
Import Validation.

(** Induction on a value, with its elements and property values. *)
Lemma value_induction (P : value → Prop) :
  P Undefined → P Null → (∀ b, P (Bool b)) → (∀ n, P (Num n)) → (∀ s, P (Str s)) →
  (∀ elems, Forall P elems → P (Arr elems)) →
  (∀ p props, Forall (λ kv, P kv.2) props → P (Obj p props)) →
  ∀ v, P v.
Proof.
  intros HU HN HB HNum HS HA HO.
  fix IH 1. intros [| |b|n|s|elems|p props]; [done|done|done|done|done| |].
  - apply HA. induction elems as [|x elems IHelems]; constructor; [apply IH|done].
  - apply HO. induction props as [|[k x] props IHprops]; constructor; [apply IH|done].
Qed.

Lemma clean_Arr elems : clean (Arr elems) ↔ Forall clean elems.
Proof.
  induction elems as [|x elems IH]; simpl; [by split|].
  rewrite Forall_cons. simpl in IH. by rewrite IH.
Qed.

Lemma clean_Obj p props :
  clean (Obj p props) ↔
  match p with ProtoValue v => clean v | _ => True end ∧ Forall (λ kv, clean kv.2) props.
Proof.
  simpl. apply and_iff_compat_l.
  induction props as [|kv props IH]; [by split|].
  rewrite Forall_cons. by rewrite IH.
Qed.

Lemma plain_Arr elems : plain (Arr elems) ↔ Forall plain elems.
Proof.
  induction elems as [|x elems IH]; simpl; [by split|].
  rewrite Forall_cons. simpl in IH. by rewrite IH.
Qed.

Lemma plain_Obj p props :
  plain (Obj p props) ↔
  p = ObjectPrototype ∧ NoDup props.*1 ∧ ("__proto__" ∉ props.*1) ∧
  Forall (λ kv, plain kv.2) props.
Proof.
  simpl. do 3 apply and_iff_compat_l.
  induction props as [|kv props IH]; [by split|].
  rewrite Forall_cons. by rewrite IH.
Qed.

Lemma strip_clean s : all_in (λ c, negb (dangerous c)) (strip s) = true.
Proof.
  induction s as [|c s IH]; [done|]. simpl. destruct (dangerous c) eqn:Hc; [done|].
  simpl. by rewrite Hc.
Qed.

Lemma strip_of_clean s : all_in (λ c, negb (dangerous c)) s = true → strip s = s.
Proof.
  induction s as [|c s IH]; [done|]. simpl. intros [Hc Hs]%andb_true_iff.
  apply negb_true_iff in Hc. rewrite Hc. by rewrite IH.
Qed.

Lemma Forall_set_own (Q : value → Prop) key x props :
  Q x → Forall (λ kv, Q kv.2) props → Forall (λ kv, Q kv.2) (set_own key x props).
Proof.
  intros Hx Hprops. induction Hprops as [|[k y] props Hk Hprops IH]; simpl.
  - by constructor.
  - destruct (String.eqb k key); by constructor.
Qed.

Lemma clean_assign p props key x :
  match p with ProtoValue v => clean v | _ => True end →
  Forall (λ kv, clean kv.2) props → clean x →
  match (assign (p, props) key x).1 with ProtoValue v => clean v | _ => True end ∧
  Forall (λ kv, clean kv.2) (assign (p, props) key x).2.
Proof.
  intros Hp Hprops Hx.
  assert (Forall (λ kv, clean kv.2) (set_own key x props)) as Hset.
  { by apply Forall_set_own. }
  unfold assign. destruct (String.eqb key "__proto__" && negb (has_key key props)); [|done].
  destruct (find_proto_property p); [done| |done].
  destruct x; done.
Qed.

Lemma clean_assign_all entries :
  Forall (λ kv, clean kv.2) entries → clean (assign_all entries).
Proof.
  intros Hentries. unfold assign_all.
  assert (∀ o : prototype * list (string * value),
            match o.1 with ProtoValue v => clean v | _ => True end →
            Forall (λ kv, clean kv.2) o.2 →
            let o' := foldl (λ o kv, assign o kv.1 kv.2) o entries in
            match o'.1 with ProtoValue v => clean v | _ => True end ∧
            Forall (λ kv, clean kv.2) o'.2) as Hfold.
  { induction Hentries as [|[k x] entries Hx Hentries IH]; intros [p props] Hp Hprops; [done|].
    cbn [foldl fst snd] in *.
    destruct (clean_assign p props k x Hp Hprops Hx) as [Hp' Hprops'].
    by apply IH. }
  specialize (Hfold (ObjectPrototype, []) I (Forall_nil_2 _)). simpl in Hfold.
  destruct (foldl _ _ entries) as [p props]. by apply clean_Obj.
Qed.

(** X3. In what [sanitizeInput] returns, no string holds an angle
    bracket, a quote, an apostrophe or an ampersand: not at the top, not
    in an element of an array, not in the value of a property, not in a
    prototype, at any depth. *)
Theorem sanitized_strings_are_clean (input : value) : clean (sanitizeInput input).
Proof.
  induction input as [| |b|n|s|elems IH|p props IH] using value_induction; try done.
  - simpl. apply strip_clean.
  - change (clean (Arr (map sanitizeInput elems))). apply clean_Arr.
    by apply Forall_fmap.
  - change (clean (assign_all (map (λ kv, (kv.1, sanitizeInput kv.2)) props))).
    apply clean_assign_all. by apply Forall_fmap.
Qed.

Lemma set_own_fresh key x (props : list (string * value)) :
  key ∉ props.*1 → set_own key x props = props ++ [(key, x)].
Proof.
  induction props as [|[k y] props IH]; [done|]. simpl. intros Hkey.
  apply not_elem_of_cons in Hkey as [Hne Hkey].
  rewrite (proj2 (String.eqb_neq k key)) by done. by rewrite IH.
Qed.

Lemma assign_other_key p props key x :
  key ≠ "__proto__" → key ∉ props.*1 → assign (p, props) key x = (p, props ++ [(key, x)]).
Proof.
  intros Hkey Hfresh. unfold assign.
  rewrite (proj2 (String.eqb_neq key "__proto__")) by done. simpl.
  by rewrite set_own_fresh.
Qed.

Lemma foldl_assign_other_keys entries p props :
  NoDup (props.*1 ++ entries.*1) → "__proto__" ∉ entries.*1 →
  foldl (λ o kv, assign o kv.1 kv.2) (p, props) entries = (p, props ++ entries).
Proof.
  revert props. induction entries as [|[k x] entries IH]; intros props Hnodup Hproto.
  - by rewrite app_nil_r.
  - rewrite fmap_cons in Hnodup, Hproto. cbn [foldl fst snd] in *.
    apply not_elem_of_cons in Hproto as [Hk Hproto].
    assert (NoDup ((props ++ [(k, x)]).*1 ++ entries.*1)) as Hnodup'.
    { rewrite fmap_app. cbn [fmap list_fmap fst]. by rewrite <- app_assoc. }
    apply NoDup_app in Hnodup as (Hprops & Hdisjoint & Hentries).
    rewrite assign_other_key; [|done|intros Hin; eapply Hdisjoint; [done|by left]].
    rewrite IH by done. by rewrite <- app_assoc.
Qed.

Lemma fmap_sanitized_keys (props : list (string * value)) :
  (map (λ kv, (kv.1, sanitizeInput kv.2)) props).*1 = props.*1.
Proof. induction props as [|[k x] props IH]; [done|]. simpl. f_equal. exact IH. Qed.

(** An object none of whose keys is ["__proto__"] keeps its keys, in
    their order, with the values sanitized. *)
Lemma sanitizeInput_object p props :
  NoDup props.*1 → "__proto__" ∉ props.*1 →
  sanitizeInput (Obj p props) =
    Obj ObjectPrototype (map (λ kv, (kv.1, sanitizeInput kv.2)) props).
Proof.
  intros Hnodup Hproto.
  change (sanitizeInput (Obj p props))
    with (assign_all (map (λ kv, (kv.1, sanitizeInput kv.2)) props)).
  unfold assign_all. by rewrite foldl_assign_other_keys; rewrite ?fmap_sanitized_keys.
Qed.

Lemma strip_strip s : strip (strip s) = strip s.
Proof. apply strip_of_clean, strip_clean. Qed.

Lemma sanitizeInput_twice input : plain input → sanitizeInput (sanitizeInput input) = sanitizeInput input.
Proof.
  induction input as [| |b|n|s|elems IH|p props IH] using value_induction; try done.
  - intros _. simpl. by rewrite strip_strip.
  - intros Hplain%plain_Arr.
    change (Arr (map sanitizeInput (map sanitizeInput elems)) = Arr (map sanitizeInput elems)).
    f_equal. induction IH as [|x elems Hx IH IHelems]; [done|].
    apply Forall_cons in Hplain as [Hpx Hplain]. simpl. by rewrite Hx, IHelems.
  - intros (_ & Hnodup & Hproto & Hplain)%plain_Obj.
    rewrite (sanitizeInput_object p props) by done.
    rewrite sanitizeInput_object by by rewrite fmap_sanitized_keys.
    f_equal. clear Hnodup Hproto.
    induction IH as [|[k x] props Hx IH IHprops]; [done|].
    apply Forall_cons in Hplain as [Hpx Hplain]. simpl in *. by rewrite Hx, IHprops.
Qed.

Lemma sanitizeInput_of_clean input : plain input → clean input → sanitizeInput input = input.
Proof.
  induction input as [| |b|n|s|elems IH|p props IH] using value_induction; try done.
  - intros _ Hclean. simpl in *. by rewrite strip_of_clean.
  - intros Hplain%plain_Arr Hclean%clean_Arr.
    change (Arr (map sanitizeInput elems) = Arr elems).
    f_equal. induction IH as [|x elems Hx IH IHelems]; [done|].
    apply Forall_cons in Hplain as [Hpx Hplain]. apply Forall_cons in Hclean as [Hcx Hclean].
    simpl. by rewrite Hx, IHelems.
  - intros (-> & Hnodup & Hproto & Hplain)%plain_Obj [_ Hclean]%clean_Obj.
    rewrite sanitizeInput_object by done.
    f_equal. clear Hnodup Hproto.
    induction IH as [|[k x] props Hx IH IHprops]; [done|].
    apply Forall_cons in Hplain as [Hpx Hplain]. apply Forall_cons in Hclean as [Hcx Hclean].
    simpl in *. by rewrite Hx, IHprops.
Qed.

(** X4. On a value built of plain objects (no key twice, no member
    named [__proto__]), [sanitizeInput] keeps every key of an object as it
    is, in its place, dangerous characters included, and sanitizes the
    values; a second pass changes nothing; and a value whose strings are
    already clean comes back as it is. *)
Theorem sanitizeInput_on_plain_values (input : value) :
  plain input →
  (∀ p props, input = Obj p props →
     sanitizeInput input = Obj ObjectPrototype (map (λ kv, (kv.1, sanitizeInput kv.2)) props)) ∧
  sanitizeInput (sanitizeInput input) = sanitizeInput input ∧
  (clean input → sanitizeInput input = input).
Proof.
  intros Hplain. split; [|split].
  - intros p props ->. apply plain_Obj in Hplain as (_ & Hnodup & Hproto & _).
    by apply sanitizeInput_object.
  - by apply sanitizeInput_twice.
  - by apply sanitizeInput_of_clean.
Qed.

(** X5. A member named [__proto__] is never copied into the result as a
    member. When its value is an object or an array, the sanitized value
    becomes the prototype of the result; when it is [null], the result
    has no prototype; otherwise it is dropped. The other members are kept,
    sanitized. *)
Theorem proto_member_becomes_the_prototype
    (p : prototype) (before after : list (string * value)) (x : value) :
  NoDup (before ++ ("__proto__", x) :: after).*1 →
  sanitizeInput (Obj p (before ++ ("__proto__", x) :: after)) =
    Obj (match x with
         | Arr _ | Obj _ _ => ProtoValue (sanitizeInput x)
         | Null => NullPrototype
         | _ => ObjectPrototype
         end)
        (map (λ kv, (kv.1, sanitizeInput kv.2)) (before ++ after)).
Proof.
  intros Hnodup. rewrite fmap_app in Hnodup. simpl in Hnodup.
  apply NoDup_app in Hnodup as (Hbefore & Hdisjoint & Hafter).
  apply NoDup_cons in Hafter as [Hproto_after Hafter].
  assert ("__proto__" ∉ before.*1) as Hproto_before.
  { intros Hin. eapply Hdisjoint; [done|by left]. }
  change (sanitizeInput (Obj p (before ++ ("__proto__", x) :: after)))
    with (assign_all (map (λ kv, (kv.1, sanitizeInput kv.2))
                        (before ++ ("__proto__", x) :: after))).
  unfold assign_all. rewrite map_app, foldl_app. simpl map.
  rewrite foldl_assign_other_keys by by rewrite ?fmap_sanitized_keys.
  cbn [foldl fst snd app].
  set (before' := map (λ kv, (kv.1, sanitizeInput kv.2)) before).
  set (after' := map (λ kv, (kv.1, sanitizeInput kv.2)) after).
  assert (∀ p', foldl (λ o kv, assign o kv.1 kv.2) (p', before') after'
                = (p', before' ++ after')) as Hrest.
  { intros p'. apply foldl_assign_other_keys.
    - subst before' after'. rewrite !fmap_sanitized_keys. apply NoDup_app.
      split; [done|]. split; [|done]. intros k Hk Hk'. eapply Hdisjoint; [done|by right].
    - subst after'. by rewrite fmap_sanitized_keys. }
  assert (has_key "__proto__" before' = false) as Hkey.
  { unfold has_key. apply bool_decide_eq_false_2. subst before'.
    by rewrite fmap_sanitized_keys. }
  unfold assign at 2. rewrite Hkey. simpl.
  assert (before' ++ after' = map (λ kv, (kv.1, sanitizeInput kv.2)) (before ++ after))
    as Hall by (subst before' after'; by rewrite map_app).
  destruct x as [| |b|n|s|elems|p' props]; simpl; rewrite ?Hrest, ?Hall; try done.
  unfold assign_all at 1 2.
  destruct (foldl _ _ (map _ props)) as [p'' props''] eqn:Hx.
  rewrite Hrest, Hall. unfold assign_all. by rewrite Hx.
Qed.

Lemma sanitizeInput_on_plain_values_witness :
  let input :=
    Obj ObjectPrototype
      [("a<b", Str "<b>Tom & Jerry</b>");
       ("tags", Arr [Str "it's"; Num (of_Z 3); Null]);
       ("nested", Obj ObjectPrototype [("k", Str "plain")])] in
  sanitizeInput input =
    Obj ObjectPrototype
      [("a<b", Str "bTom  Jerry/b");
       ("tags", Arr [Str "its"; Num (of_Z 3); Null]);
       ("nested", Obj ObjectPrototype [("k", Str "plain")])] ∧
  sanitizeInput (sanitizeInput input) = sanitizeInput input.
Proof.
  intros input.
  assert (plain input) as Hplain.
  { subst input. simpl. repeat split; by_computation. }
  destruct (sanitizeInput_on_plain_values input Hplain) as (Hobject & Htwice & _).
  split; [|exact Htwice].
  by rewrite (Hobject _ _ eq_refl).
Defined.

Lemma proto_member_becomes_the_prototype_witness :
  sanitizeInput
    (Obj ObjectPrototype
       [("name", Str "<i>x</i>");
        ("__proto__", Obj ObjectPrototype [("isAdmin", Bool true)]);
        ("id", Num (of_Z 7))]) =
  Obj (ProtoValue (Obj ObjectPrototype [("isAdmin", Bool true)]))
      [("name", Str "ix/i"); ("id", Num (of_Z 7))].
Proof.
  apply (proto_member_becomes_the_prototype ObjectPrototype
           [("name", Str "<i>x</i>")] [("id", Num (of_Z 7))]
           (Obj ObjectPrototype [("isAdmin", Bool true)])).
  by_computation.
Defined.

End Sanitize.

(** ** Patterns: what [validateJiraIssueKey] and [validateEmail] accept *)

Section Patterns.
Import Validation.

Lemma append_nil_inv (a b : string) : a +:+ b = "" → a = "" ∧ b = "".
Proof. by destruct a. Qed.

Lemma append_cons_inv (a b : string) c s :
  a +:+ b = String c s →
  (a = "" ∧ b = String c s) ∨ (∃ a', a = String c a' ∧ s = a' +:+ b).
Proof.
  destruct a as [|x a]; [by left|]. intros [= -> <-]. right. by exists a.
Qed.

Lemma matches_Seq_inv r1 r2 s :
  matches (Seq r1 r2) s → ∃ s1 s2, s = s1 +:+ s2 ∧ matches r1 s1 ∧ matches r2 s2.
Proof. inversion 1; subst. eauto. Qed.

Lemma matches_Alt_inv r1 r2 s : matches (Alt r1 r2) s → matches r1 s ∨ matches r2 s.
Proof. inversion 1; subst; auto. Qed.

Lemma matches_Class_inv member s :
  matches (Class member) s → ∃ c, s = String c "" ∧ member c = true.
Proof. inversion 1; subst. eauto. Qed.

Lemma matches_Epsilon_inv s : matches Epsilon s → s = "".
Proof. by inversion 1. Qed.

Lemma matches_Never_inv s : ¬ matches Never s.
Proof. inversion 1. Qed.

(** A non-empty text of [Star r] starts with a non-empty text of [r]. *)
Lemma matches_Star_cons_inv r c s :
  matches (Star r) (String c s) →
  ∃ s1 s2, s = s1 +:+ s2 ∧ matches r (String c s1) ∧ matches (Star r) s2.
Proof.
  intros H. remember (Star r) as r' eqn:Hr. remember (String c s) as t eqn:Ht.
  induction H as [| | | | | |r0 s1 s2 H1 _ H2 IH2]; try done.
  injection Hr as ->.
  apply append_cons_inv in Ht as [[-> ->]|(s1' & -> & ->)]; [by apply IH2|].
  by exists s1', s2.
Qed.

Lemma nullable_matches r : nullable r = true ↔ matches r "".
Proof.
  induction r as [| |member|r1 IH1 r2 IH2|r1 IH1 r2 IH2|r IH]; simpl.
  - split; [done|]. by intros ?%matches_Never_inv.
  - split; [constructor|done].
  - split; [done|]. by intros (c & ? & _)%matches_Class_inv.
  - rewrite andb_true_iff, IH1, IH2. split.
    + intros [H1 H2]. apply (matches_seq _ _ "" "" H1 H2).
    + intros (s1 & s2 & Heq & H1 & H2)%matches_Seq_inv.
      symmetry in Heq. apply append_nil_inv in Heq as [-> ->]. done.
  - rewrite orb_true_iff, IH1, IH2. split.
    + intros [H|H]; [by apply matches_alt_l|by apply matches_alt_r].
    + apply matches_Alt_inv.
  - split; [constructor|done].
Qed.

Lemma matches_after c r s : matches (after c r) s ↔ matches r (String c s).
Proof.
  revert s. induction r as [| |member|r1 IH1 r2 IH2|r1 IH1 r2 IH2|r IH]; intros s; simpl.
  - split; by intros ?%matches_Never_inv.
  - split; [by intros ?%matches_Never_inv|]. by intros ?%matches_Epsilon_inv.
  - destruct (member c) eqn:Hc.
    + split.
      * intros ->%matches_Epsilon_inv. by constructor.
      * intros (c' & [= -> ->] & _)%matches_Class_inv. constructor.
    + split; [by intros ?%matches_Never_inv|].
      intros (c' & [= -> ->] & Hc')%matches_Class_inv. congruence.
  - assert (matches (Seq (after c r1) r2) s ↔
            ∃ s1 s2, s = s1 +:+ s2 ∧ matches r1 (String c s1) ∧ matches r2 s2) as Hseq.
    { split.
      - intros (s1 & s2 & -> & H1 & H2)%matches_Seq_inv. exists s1, s2. by rewrite <- IH1.
      - intros (s1 & s2 & -> & H1 & H2). apply matches_seq; [by apply IH1|done]. }
    assert (matches (Seq r1 r2) (String c s) ↔
            (∃ s1 s2, s = s1 +:+ s2 ∧ matches r1 (String c s1) ∧ matches r2 s2) ∨
            (matches r1 "" ∧ matches r2 (String c s))) as Hcons.
    { split.
      - intros (s1 & s2 & Heq & H1 & H2)%matches_Seq_inv. symmetry in Heq.
        apply append_cons_inv in Heq as [[-> ->]|(s1' & -> & ->)]; [by right|].
        left. by exists s1', s2.
      - intros [(s1 & s2 & -> & H1 & H2)|[H1 H2]].
        + apply (matches_seq _ _ (String c s1) s2 H1 H2).
        + apply (matches_seq _ _ "" (String c s) H1 H2). }
    rewrite Hcons. destruct (nullable r1) eqn:Hnull.
    + apply nullable_matches in Hnull. split.
      * intros [H|H]%matches_Alt_inv; [left; by apply Hseq|right; split; [done|by apply IH2]].
      * intros [H|[_ H]]; [apply matches_alt_l; by apply Hseq|apply matches_alt_r; by apply IH2].
    + rewrite Hseq. split; [by left|]. intros [H|[H _]]; [done|].
      apply nullable_matches in H. congruence.
  - split.
    + intros [H|H]%matches_Alt_inv; [apply matches_alt_l; by apply IH1|apply matches_alt_r; by apply IH2].
    + intros [H|H]%matches_Alt_inv; [apply matches_alt_l; by apply IH1|apply matches_alt_r; by apply IH2].
  - split.
    + intros (s1 & s2 & -> & H1 & H2)%matches_Seq_inv.
      apply (matches_star_cons _ (String c s1) s2); [by apply IH|done].
    + intros (s1 & s2 & -> & H1 & H2)%matches_Star_cons_inv.
      apply matches_seq; [by apply IH|done].
Qed.

(** The pattern matcher accepts the texts of the pattern, and no other. *)
Lemma test_matches r s : test r s = true ↔ matches r s.
Proof.
  revert r. induction s as [|c s IH]; intros r; simpl.
  - apply nullable_matches.
  - by rewrite IH, matches_after.
Qed.

Lemma matches_Star_Class member s : matches (Star (Class member)) s ↔ all_in member s = true.
Proof.
  split.
  - revert s. induction s as [|c s IH]; [done|].
    intros (s1 & s2 & -> & (c' & [= -> ->] & Hc)%matches_Class_inv & H2)%matches_Star_cons_inv.
    simpl. rewrite Hc. by apply IH.
  - induction s as [|c s IH]; simpl; [constructor|].
    intros [Hc Hs]%andb_true_iff.
    apply (matches_star_cons _ (String c "") s); [by constructor|by apply IH].
Qed.

Lemma matches_Plus_Class member s :
  matches (Plus (Class member)) s ↔ s ≠ "" ∧ all_in member s = true.
Proof.
  unfold Plus. split.
  - intros (s1 & s2 & -> & (c & -> & Hc)%matches_Class_inv & H2%matches_Star_Class)%matches_Seq_inv.
    simpl. by rewrite Hc.
  - intros [Hne Hall]. destruct s as [|c s]; [done|]. simpl in Hall.
    apply andb_true_iff in Hall as [Hc Hs].
    apply (matches_seq _ _ (String c "") s); [by constructor|by apply matches_Star_Class].
Qed.

Lemma matches_Seq r1 r2 s :
  matches (Seq r1 r2) s ↔ ∃ s1 s2, s = s1 +:+ s2 ∧ matches r1 s1 ∧ matches r2 s2.
Proof.
  split; [apply matches_Seq_inv|]. intros (s1 & s2 & -> & H1 & H2). by apply matches_seq.
Qed.

Lemma matches_exactly x s : matches (Class (exactly x)) s ↔ s = String x "".
Proof.
  split.
  - intros (c & -> & Hc)%matches_Class_inv. unfold exactly in Hc.
    by apply Ascii.eqb_eq in Hc as ->.
  - intros ->. constructor. unfold exactly. apply Ascii.eqb_refl.
Qed.

Lemma all_in_app member (a b : string) :
  all_in member (a +:+ b) = all_in member a && all_in member b.
Proof. induction a as [|c a IH]; [done|]. simpl. by rewrite IH, andb_assoc. Qed.

Lemma count_char_app x (a b : string) :
  count_char x (a +:+ b) = (count_char x a + count_char x b)%nat.
Proof. induction a as [|c a IH]; [done|]. simpl. rewrite IH. lia. Qed.

Lemma count_char_none member x s :
  member x = false → all_in member s = true → count_char x s = 0%nat.
Proof.
  intros Hx. induction s as [|c s IH]; [done|]. simpl.
  intros [Hc Hs]%andb_true_iff. rewrite IH by done.
  destruct (Ascii.eqb c x) eqn:Heq; [|done]. apply Ascii.eqb_eq in Heq as ->. congruence.
Qed.

Lemma all_in_impl (member member' : ascii → bool) s :
  (∀ c, member c = true → member' c = true) → all_in member s = true → all_in member' s = true.
Proof.
  intros Himpl. induction s as [|c s IH]; [done|]. simpl.
  intros [Hc Hs]%andb_true_iff. by rewrite (Himpl c Hc), IH.
Qed.

Lemma length_app (a b : string) : String.length (a +:+ b) = (String.length a + String.length b)%nat.
Proof. induction a as [|c a IH]; [done|]. simpl. by rewrite IH. Qed.

(** X6. [validateJiraIssueKey] accepts a text exactly when it is an upper
    case letter, then any number of upper case letters and digits, then
    one hyphen, then one digit or more, with nothing before or after. *)
Theorem jira_issue_keys (issueKey : string) :
  validateJiraIssueKey issueKey = true ↔
  ∃ (c : ascii) (project number : string),
    issueKey = String c project +:+ String "-" number ∧
    upper c = true ∧ all_in (λ c, upper c || digit c) project = true ∧
    number ≠ "" ∧ all_in digit number = true.
Proof.
  unfold validateJiraIssueKey, jira_pattern. rewrite test_matches. split.
  - intros (s1 & s' & -> & (c & -> & Hc)%matches_Class_inv &
            (project & s'' & -> & Hproject%matches_Star_Class &
             (dash & number & -> & ->%matches_exactly &
              [Hne Hnumber]%matches_Plus_Class)%matches_Seq_inv)%matches_Seq_inv)%matches_Seq_inv.
    by exists c, project, number.
  - intros (c & project & number & -> & Hc & Hproject & Hne & Hnumber).
    apply (matches_seq _ _ (String c "") (project +:+ String "-" number)); [by constructor|].
    apply matches_seq; [by apply matches_Star_Class|].
    apply (matches_seq _ _ (String "-" "") number); [by apply matches_exactly|].
    by apply matches_Plus_Class.
Qed.

Lemma email_parts email :
  validateEmail email = true ↔
  ∃ (name domain top : string),
    email = name +:+ String "@" (domain +:+ String "." top) ∧
    name ≠ "" ∧ all_in not_space_nor_at name = true ∧
    domain ≠ "" ∧ all_in not_space_nor_at domain = true ∧
    top ≠ "" ∧ all_in not_space_nor_at top = true.
Proof.
  unfold validateEmail, email_pattern. rewrite test_matches. split.
  - intros (name & s' & -> & [Hname1 Hname2]%matches_Plus_Class &
            (at_ & s'' & -> & ->%matches_exactly &
             (domain & s''' & -> & [Hdomain1 Hdomain2]%matches_Plus_Class &
              (dot & top & -> & ->%matches_exactly &
               [Htop1 Htop2]%matches_Plus_Class)%matches_Seq_inv)%matches_Seq_inv)%matches_Seq_inv)%matches_Seq_inv.
    by exists name, domain, top.
  - intros (name & domain & top & -> & Hname1 & Hname2 & Hdomain1 & Hdomain2 & Htop1 & Htop2).
    apply matches_seq; [by apply matches_Plus_Class|].
    apply (matches_seq _ _ (String "@" "") (domain +:+ String "." top)); [by apply matches_exactly|].
    apply matches_seq; [by apply matches_Plus_Class|].
    apply (matches_seq _ _ (String "." "") top); [by apply matches_exactly|].
    by apply matches_Plus_Class.
Qed.

(** X7. [validateEmail] accepts a text exactly when it is a name, the
    sign [@], a domain, a dot and a last part, where the three parts are
    not empty and hold neither white space nor [@]. Dots are allowed in
    every part, so is every other character. *)
Theorem email_addresses (email : string) :
  validateEmail email = true ↔
  ∃ (name domain top : string),
    email = name +:+ String "@" (domain +:+ String "." top) ∧
    name ≠ "" ∧ all_in not_space_nor_at name = true ∧
    domain ≠ "" ∧ all_in not_space_nor_at domain = true ∧
    top ≠ "" ∧ all_in not_space_nor_at top = true.
Proof. apply email_parts. Qed.

Lemma length_pos (s : string) : s ≠ "" → (1 ≤ String.length s)%nat.
Proof. destruct s; [done|]. simpl. lia. Qed.

(** X8. A text that [validateEmail] accepts holds the sign [@] exactly
    once, holds no white space, and is five characters long or more. *)
Theorem accepted_email_has_one_at_sign (email : string) :
  validateEmail email = true →
  count_char "@" email = 1%nat ∧
  all_in (λ c, negb (is_white c)) email = true ∧
  (5 ≤ String.length email)%nat.
Proof.
  intros (name & domain & top & -> & Hname1 & Hname2 & Hdomain1 & Hdomain2 & Htop1 & Htop2)%email_parts.
  assert (∀ s, all_in not_space_nor_at s = true → count_char "@" s = 0%nat) as Hcount.
  { intros s. by apply count_char_none. }
  assert (∀ s, all_in not_space_nor_at s = true → all_in (λ c, negb (is_white c)) s = true)
    as Hwhite.
  { intros s. apply all_in_impl. intros c. unfold not_space_nor_at.
    by intros [? _]%andb_true_iff. }
  split; [|split].
  - rewrite count_char_app. simpl. rewrite count_char_app. simpl.
    rewrite !Hcount by done. done.
  - rewrite all_in_app. simpl. rewrite all_in_app. simpl.
    by rewrite !Hwhite by done.
  - rewrite length_app. simpl. rewrite length_app. simpl.
    apply length_pos in Hname1, Hdomain1, Htop1. lia.
Qed.

Lemma accepted_email_has_one_at_sign_witness :
  count_char "@" "qa@example.org" = 1%nat ∧
  all_in (λ c, negb (is_white c)) "qa@example.org" = true ∧
  (5 ≤ String.length "qa@example.org")%nat.
Proof. apply (accepted_email_has_one_at_sign "qa@example.org"). vm_compute. reflexivity. Defined.

Example jira_key_accepted : validateJiraIssueKey "QA2-17" = true.
Proof. reflexivity. Qed.

Example jira_key_lower_case : validateJiraIssueKey "qa-17" = false.
Proof. reflexivity. Qed.

Example jira_key_digit_first : validateJiraIssueKey "2QA-17" = false.
Proof. reflexivity. Qed.

Example email_two_dots : validateEmail "a@b..c" = true.
Proof. reflexivity. Qed.

Example email_no_dot : validateEmail "root@localhost" = false.
Proof. reflexivity. Qed.

End Patterns.

(** ** The life of the worker *)

Section WorkerLife.
Import Lifecycle.
Context {V : Type}.
Variable get_id : V → jsval.
Variable JSON_parse : string → completion V.
Variable JSON_stringify : V → string.
Variable process_env : gmap string string.
Variable dirname : string.
Variable spawn_throws : string → list string → gmap string string → option Error.
Implicit Type w : wrapper V.

Local Abbreviation respond := (respond get_id JSON_parse).
Local Abbreviation handleMCPResponse := (handleMCPResponse get_id JSON_parse).
Local Abbreviation on_stdout_data := (on_stdout_data get_id JSON_parse).
Local Abbreviation forwardToMCP := (forwardToMCP get_id JSON_stringify).
Local Abbreviation post_mcp := (post_mcp get_id JSON_stringify).
Local Abbreviation initializeMCP := (initializeMCP process_env dirname spawn_throws).
Local Abbreviation boot := (boot process_env dirname spawn_throws).
Local Abbreviation step :=
  (step get_id JSON_parse JSON_stringify process_env dirname spawn_throws).
Local Abbreviation run :=
  (run get_id JSON_parse JSON_stringify process_env dirname spawn_throws).

Lemma foldl_respond_fields lines w :
  mcpProcess (foldl (flip respond) w lines) = mcpProcess w ∧
  isReady (foldl (flip respond) w lines) = isReady w ∧
  next_promise (foldl (flip respond) w lines) = next_promise w ∧
  timers (foldl (flip respond) w lines) = timers w ∧
  clock (foldl (flip respond) w lines) = clock w.
Proof.
  revert w. induction lines as [|text lines IH]; intros w; [done|]. simpl.
  destruct (IH (respond text w)) as (-> & -> & -> & -> & ->).
  pose proof (respond_fields get_id JSON_parse text w). tauto.
Qed.

Lemma run_stdout chunks w :
  run (StdoutData <$> chunks) (Running w) =
    Running (foldl (flip respond)
               (set_responseBuffer (stream_lines chunks (responseBuffer w)).2 w)
               (stream_lines chunks (responseBuffer w)).1).
Proof.
  assert (∀ w, run (StdoutData <$> chunks) (Running w)
               = uncaught (forEach on_stdout_data chunks w)) as Hrun.
  { clear w. induction chunks as [|data chunks IH]; intros w; [done|].
    cbn [fmap list_fmap KiwiTcmsMCPWrapper.run KiwiTcmsMCPWrapper.step forEach].
    rewrite on_stdout_data_respond. cbn [uncaught]. apply IH. }
  by rewrite Hrun, stdout_chunks_respond.
Qed.

(** X10. Whatever the worker prints, in whatever chunks, the wrapper
    keeps running: no text on the standard output of the worker ends the
    process. Such output changes neither the worker, nor the ready flag,
    nor the timers, nor the clock; it only takes entries out of the queue
    and settles promises that were pending. *)
Theorem worker_output_never_ends_the_wrapper (chunks : list string) (w : wrapper V) :
  ∃ w', run (StdoutData <$> chunks) (Running w) = Running w' ∧
        mcpProcess w' = mcpProcess w ∧ isReady w' = isReady w ∧
        timers w' = timers w ∧ clock w' = clock w ∧ next_promise w' = next_promise w ∧
        requestQueue w' `sublist_of` requestQueue w ∧
        (∀ p o, promises w !! p = Some o → promises w' !! p = Some o).
Proof.
  eexists. split; [apply run_stdout|].
  destruct (foldl_respond_fields (stream_lines chunks (responseBuffer w)).1
              (set_responseBuffer (stream_lines chunks (responseBuffer w)).2 w))
    as (-> & -> & -> & -> & ->).
  repeat split; try done.
  - etrans; [apply foldl_respond_queue_sublist|done].
  - intros p o Hp. by apply foldl_respond_settled.
Qed.

(** What every step on an event of a kind keeps holds along every run
    of events of that kind. *)
Lemma run_invariant_on (Q : event V → Prop) (P : wrapper V → Prop) :
  (∀ ev w w', Q ev → P w → step ev w = Running w' → P w') →
  ∀ evs w w', Forall Q evs → P w → run evs (Running w) = Running w' → P w'.
Proof.
  intros Hstep evs. induction evs as [|ev evs IH]; intros w w' Hevs Hw; simpl.
  - by intros [= <-].
  - apply Forall_cons in Hevs as [Hev Hevs].
    destruct (step ev w) as [w1|code] eqn:Hstep1.
    + apply IH; [done|]. by eapply Hstep.
    + by destruct evs.
Qed.

(** X11. In every state the wrapper reaches from its start, the buffer
    holds no line terminator: a line is handled in the event that brings
    its terminator, and the buffer only ever keeps the unfinished rest. *)
Theorem buffer_holds_no_complete_line (evs : list (event V)) (w : wrapper V) :
  run evs boot = Running w → has_newline (responseBuffer w) = false.
Proof. apply buffer_newline_free_reachable. Qed.

Lemma step_keeps_buffer ev w w' :
  not_stdout ev = true → step ev w = Running w' → responseBuffer w' = responseBuffer w.
Proof.
  destruct ev as [body date_now write_error|data|data|code|error|ms|]; simpl; try done.
  - intros _ [= <-]. unfold KiwiTcmsMCPWrapper.post_mcp. destruct (negb (isReady w)); [done|].
    apply forwardToMCP_responseBuffer.
  - by intros _ [= <-].
  - by intros _ [= <-].
  - by intros _ [= <-].
  - by intros _ [= <-].
  - intros _. unfold KiwiTcmsMCPWrapper.fire_timer. destruct (timers w) as [|t ts]; [by intros [= <-]|].
    destruct (due t <=? clock w); [|by intros [= <-]].
    destruct (action t) as [requestId q| |]; simpl.
    + intros [= <-].
      by rewrite (proj2 (proj2 (proj2 (request_timeout_fields requestId q (set_timers ts w))))).
    + by intros [= <-].
    + intros (_ & _ & _ & Hb & _)%initializeMCP_running. by rewrite Hb.
Qed.

Lemma framed_line buffer line :
  has_newline buffer = false → has_newline line = false →
  framed buffer (line +:+ String newline "") = ([buffer +:+ line], "").
Proof.
  intros Hbuffer Hline. rewrite framed_split.
  assert (buffer +:+ (line +:+ String newline "") = unlines [buffer +:+ line] +:+ "") as ->.
  { simpl. by rewrite append_empty_r, append_assoc. }
  rewrite split_unlines; [done| |done].
  apply Forall_singleton. rewrite has_newline_app. by rewrite Hbuffer, Hline.
Qed.

(** X12. The buffer belongs to the wrapper, not to a worker: requests,
    timers, the exit of the worker and its restart leave it as it is. The
    unfinished line of a worker that exited is still there when the next
    worker prints its first line, and it is that fragment followed by the
    line which is handed to [handleMCPResponse]. *)
Theorem fragment_outlives_the_worker
    (evs : list (event V)) (w w' : wrapper V) (line : string) :
  Forall (λ ev, not_stdout ev = true) evs →
  run evs (Running w) = Running w' →
  has_newline (responseBuffer w) = false → has_newline line = false →
  responseBuffer w' = responseBuffer w ∧
  on_stdout_data (line +:+ String newline "") w' =
    (if JsString.truthy (trim (responseBuffer w +:+ line))
     then handleMCPResponse (trim (responseBuffer w +:+ line)) (set_responseBuffer "" w')
     else Normal (set_responseBuffer "" w')).
Proof.
  intros Hevs Hrun Hbuffer Hline.
  assert (responseBuffer w' = responseBuffer w) as Hkept.
  { revert Hrun. apply (run_invariant_on (λ ev, not_stdout ev = true)
                          (λ w', responseBuffer w' = responseBuffer w)); [|done..].
    intros ev w1 w2 Hev H1 Hstep. rewrite <- H1. by eapply step_keeps_buffer. }
  split; [done|].
  unfold KiwiTcmsMCPWrapper.on_stdout_data. rewrite Hkept, framed_line by done.
  cbn [forEach]. destruct (JsString.truthy _); [|done].
  by destruct (handleMCPResponse _ _).
Qed.

Lemma or_else_registrable (id : jsval) (date_now : Z) :
  registrable (or_else id (VNum date_now)) = true.
Proof.
  unfold or_else, registrable. destruct (truthy id) eqn:Hid; [by rewrite Hid|].
  apply orb_true_r.
Qed.

Lemma step_registrable ev w w' :
  Forall (λ e, registrable (entry_id e) = true) (requestQueue w) →
  step ev w = Running w' →
  Forall (λ e, registrable (entry_id e) = true) (requestQueue w').
Proof.
  intros Hqueue.
  assert (∀ l, l `sublist_of` requestQueue w →
               Forall (λ e, registrable (entry_id e) = true) l) as Hsub.
  { intros l Hl. rewrite Forall_forall in Hqueue |- *. intros e He.
    apply Hqueue. by eapply elem_of_sublist. }
  destruct ev as [body date_now write_error|data|data|code|error|ms|]; simpl.
  - intros [= <-]. unfold KiwiTcmsMCPWrapper.post_mcp. destruct (negb (isReady w)); [done|].
    unfold KiwiTcmsMCPWrapper.forwardToMCP. destruct (stdin_write _ _ _); simpl;
      rewrite ?settle_queue; simpl.
    all: apply Forall_app; split; [done|].
    all: apply Forall_singleton; apply or_else_registrable.
  - rewrite on_stdout_data_respond. intros [= <-]. apply Hsub.
    etrans; [apply foldl_respond_queue_sublist|done].
  - by intros [= <-].
  - by intros [= <-].
  - by intros [= <-].
  - by intros [= <-].
  - unfold KiwiTcmsMCPWrapper.fire_timer. destruct (timers w) as [|t ts]; [by intros [= <-]|].
    destruct (due t <=? clock w); [|by intros [= <-]].
    destruct (action t) as [requestId q| |]; simpl.
    + intros [= <-]. apply Hsub.
      etrans; [apply request_timeout_queue_sublist|done].
    + by intros [= <-].
    + intros (Hq & _)%initializeMCP_running. by rewrite Hq.
Qed.

Lemma registrable_reachable evs w :
  run evs boot = Running w → Forall (λ e, registrable (entry_id e) = true) (requestQueue w).
Proof.
  unfold KiwiTcmsMCPWrapper.boot.
  destruct (initializeMCP constructed) as [w0|code] eqn:Hboot; [|by destruct evs].
  apply (run_invariant get_id JSON_parse JSON_stringify process_env dirname spawn_throws
           (λ w, Forall (λ e, registrable (entry_id e) = true) (requestQueue w))).
  - intros ev w1 w2 H1 Hev. by eapply step_registrable.
  - apply initializeMCP_running in Hboot as (Hq & _). by rewrite Hq.
Qed.

(** X13. No call is ever registered under [undefined], [null], [false]
    or the empty text: a request with such an [id] is registered under
    the time of its arrival. So, in every state the wrapper reaches, a
    response of the worker whose [id] is absent, [null], [false] or empty
    (a notification, or an error that names no request) reaches no
    caller: the handler returns and leaves the state as it is. *)
Theorem response_without_identifier_reaches_no_caller
    (evs : list (event V)) (w : wrapper V) (text : string) (response : V) :
  run evs boot = Running w →
  JSON_parse (trim text) = Normal response →
  registrable (get_id response) = false →
  handleMCPResponse text w = Normal w.
Proof.
  intros Hrun Hparse Hid. rewrite handleMCPResponse_respond. f_equal.
  apply (respond_unmatched get_id JSON_parse text response w Hparse).
  eapply Forall_impl; [by apply (registrable_reachable evs)|].
  intros e He. simpl in He. destruct (strict_equal_parsed _ _) eqn:Heq; [|done].
  apply strict_equal_parsed_true in Heq. congruence.
Qed.

(** X14. The ready flag is set by a timer, three seconds after the
    worker was spawned, and nothing looks at the worker then. When the
    worker exits within these three seconds, the flag is cleared at the
    exit and set again when the timer runs: the wrapper says it is ready
    although the worker is gone and the restart is still to come, and a
    request that arrives then is not turned away: it is registered and
    its text goes to the standard input of the worker that exited. *)
Theorem ready_flag_outlives_the_worker (w0 : wrapper V) (code ms : Z) :
  boot = Running w0 → 0 ≤ ms ≤ 3000 →
  ∃ w, run [Elapse ms; Close code; Elapse (3000 - ms); TimerFires] (Running w0) = Running w ∧
       isReady w = true ∧ mcpProcess w = mcpProcess w0 ∧
       timers w = [{| due := ms + 5000; action := Restart |}] ∧
       ∀ body date_now write_error,
         let w' := post_mcp body date_now write_error w in
         requestQueue w' =
           [{| entry_id := or_else (get_id body) (VNum date_now); entry_promise := 0 |}] ∧
         (write_error = None →
          (stdin <$> mcpProcess w') = Some [JSON_stringify body +:+ String newline ""]).
Proof.
  unfold KiwiTcmsMCPWrapper.boot, KiwiTcmsMCPWrapper.initializeMCP.
  destruct (negb _ || negb _); [done|].
  unfold spawn. destruct (spawn_throws _ _ _); [done|].
  intros [= <-] Hms. eexists. split.
  - cbn [KiwiTcmsMCPWrapper.run KiwiTcmsMCPWrapper.step]. unfold on_close, setTimeout. simpl.
    rewrite (Z.max_r 0 ms), (Z.max_r 0 (3000 - ms)) by lia. rewrite !Z.add_0_l.
    replace (ms + 5000 <? 3000) with false by (symmetry; apply Z.ltb_ge; lia).
    unfold KiwiTcmsMCPWrapper.fire_timer. simpl.
    replace (3000 <=? ms + (3000 - ms)) with true by (symmetry; apply Z.leb_le; lia).
    simpl. reflexivity.
  - simpl. repeat split; [|by intros ->].
    by destruct write_error.
Qed.

(** X15. The worker that the wrapper spawns always finds the two
    variables: its own check never reports a missing variable. But the
    check of the worker asks more than the check of the wrapper: the
    worker ends when the address is no URL, and when the token is made of
    white space only, cases in which the wrapper has started and has
    spawned it. *)
Theorem spawned_worker_checks_more_than_the_wrapper
    (valid_url : string → bool) (w w' : wrapper V) (child : child_process) :
  initializeMCP w = Running w' → mcpProcess w' = Some child →
  let url := default "" (process_env !! "KIWI_BASE_URL") in
  let token := default "" (process_env !! "KIWI_TOKEN") in
  validateEnvironment valid_url (child_env child) =
    if negb (valid_url url) then
      Throw {| message := "Invalid KIWI_BASE_URL format: " +:+ url |}
    else if bool_decide (String.length (trim token) = 0%nat) then
      Throw {| message := "KIWI_TOKEN cannot be empty" |}
    else Normal ().
Proof.
  unfold KiwiTcmsMCPWrapper.initializeMCP.
  destruct (negb _ || negb _) eqn:Hset; [done|].
  apply orb_false_iff in Hset as [Hurl%negb_false_iff Htoken%negb_false_iff].
  unfold spawn. destruct (spawn_throws _ _ _); [done|].
  intros [= <-]. simpl. intros [= <-]. simpl.
  destruct (process_env !! "KIWI_BASE_URL") as [url|] eqn:Hurl'; [|done].
  destruct (process_env !! "KIWI_TOKEN") as [token|] eqn:Htoken'; [|done].
  simpl. unfold validateEnvironment.
  rewrite !filter_cons, filter_nil.
  rewrite (lookup_insert_ne _ "LOG_LEVEL" "KIWI_BASE_URL") by done.
  rewrite (lookup_insert_ne _ "KIWI_TOKEN" "KIWI_BASE_URL") by done.
  rewrite lookup_insert_eq.
  rewrite (lookup_insert_ne _ "LOG_LEVEL" "KIWI_TOKEN") by done.
  rewrite lookup_insert_eq.
  rewrite Hurl, Htoken. rewrite !decide_False by done. simpl. done.
Qed.

Lemma step_keeps_entry id e ev w w' :
  quiet_for get_id id ev = true → entry_id e = id →
  e ∈ requestQueue w ∧ no_timeout_for id w →
  step ev w = Running w' →
  e ∈ requestQueue w' ∧ no_timeout_for id w'.
Proof.
  intros Hquiet Hid [He Htimers]. unfold no_timeout_for in *.
  destruct ev as [body date_now write_error|data|data|code|error|ms|]; simpl in *; try done.
  - intros [= <-]. unfold KiwiTcmsMCPWrapper.post_mcp. destruct (negb (isReady w)); [done|].
    apply negb_true_iff in Hquiet.
    unfold KiwiTcmsMCPWrapper.forwardToMCP. destruct (stdin_write _ _ _); simpl.
    + split; [apply elem_of_app; by left|]. by apply (Forall_insert_timer (V:=V)).
    + rewrite settle_queue, settle_timers. simpl. split; [apply elem_of_app; by left|done].
  - by intros [= <-].
  - intros [= <-]. simpl. split; [done|]. by apply (Forall_insert_timer (V:=V)).
  - by intros [= <-].
  - by intros [= <-].
  - unfold KiwiTcmsMCPWrapper.fire_timer.
    destruct (timers w) as [|t ts] eqn:Hts; [intros [= <-]; by rewrite Hts|].
    destruct (due t <=? clock w); [|intros [= <-]; by rewrite Hts].
    apply Forall_cons in Htimers as [Ht Htimers].
    destruct (action t) as [requestId q| |]; simpl.
    + intros [= <-].
      rewrite (proj1 (proj2 (request_timeout_fields requestId q (set_timers ts w)))).
      split; [|done]. unfold request_timeout.
      destruct (findIndex _ _) as [i|] eqn:Hfind; [|done].
      rewrite settle_queue. simpl in *.
      apply findIndex_Some in Hfind as (e' & Hi & Hmatch & _).
      apply (elem_of_delete_other _ i e e'); [done|done|].
      intros ->. apply strict_equal_true in Hmatch. rewrite Hmatch in Hid. subst id.
      rewrite (proj2 (strict_equal_true requestId requestId) eq_refl) in Ht. done.
    + by intros [= <-].
    + intros (Hq & _ & _ & _ & _ & _ & Ht')%initializeMCP_running.
      rewrite Hq, Ht'. simpl. split; [done|]. by apply (Forall_insert_timer (V:=V)).
Qed.

(** X16. When the write to the worker throws, the caller has the error
    at once, but the entry of the call stays in the queue and no timer is
    set for it. Provided that, when the call is made, no timeout timer of
    an earlier call under the same identifier is pending
    ([no_timeout_for]; such a timer would remove the entry when it runs),
    nothing takes the entry away as time passes: it is still in the queue
    after every sequence of events that brings neither output of the
    worker nor a request registered under the same identifier, the exit
    and the restart of the worker included. *)
Theorem failed_write_leaves_its_entry_behind
    (w w'' : wrapper V) (body : V) (date_now : Z) (error : Error) (evs : list (event V)) :
  let id := or_else (get_id body) (VNum date_now) in
  let w' := post_mcp body date_now (Some error) w in
  isReady w = true → well_formed w → no_timeout_for id w →
  Forall (λ ev, quiet_for get_id id ev = true) evs →
  run evs (Running w') = Running w'' →
  promises w'' !! next_promise w =
    Some (Rejected (match mcpProcess w with Some _ => error | None => null_process_error end)) ∧
  timers w' = timers w ∧
  {| entry_id := id; entry_promise := next_promise w |} ∈ requestQueue w''.
Proof.
  intros id w' Hready (_ & _ & Hfresh & _) Htimers Hevs Hrun.
  assert (w' = settle (next_promise w)
                 (Rejected (match mcpProcess w with
                            | Some _ => error | None => null_process_error end))
                 (set_requestQueue
                    (requestQueue w ++ [{| entry_id := id; entry_promise := next_promise w |}])
                    (set_next_promise (S (next_promise w)) w))) as Hw'.
  { subst w'. unfold KiwiTcmsMCPWrapper.post_mcp. rewrite Hready. simpl.
    unfold KiwiTcmsMCPWrapper.forwardToMCP. simpl. by destruct (mcpProcess w). }
  split; [|split].
  - eapply (run_settled get_id JSON_parse JSON_stringify process_env dirname spawn_throws);
      [exact Hrun|].
    rewrite Hw'. apply settle_pending. simpl. by apply Hfresh.
  - by rewrite Hw', settle_timers.
  - assert ({| entry_id := id; entry_promise := next_promise w |} ∈ requestQueue w'' ∧
            no_timeout_for id w'') as [Hin _]; [|done].
    revert Hrun.
    apply (run_invariant_on (λ ev, quiet_for get_id id ev = true)
             (λ w1, {| entry_id := id; entry_promise := next_promise w |} ∈ requestQueue w1 ∧
                    no_timeout_for id w1)); [|done|].
    + intros ev w1 w2 Hev H1 Hstep. by eapply step_keeps_entry.
    + rewrite Hw'. unfold no_timeout_for. rewrite settle_queue, settle_timers. simpl.
      split; [|done]. apply elem_of_app. right. by left.
Qed.

(** X17. A caller never gets the response to another identifier. Once
    a request has been written to the worker, whatever happens
    afterwards, responses to other calls, duplicates, exits and restarts
    of the worker included, the promise of the call is pending, or
    rejected with the timeout error, or resolved with a response whose
    [id] is the identifier under which the call was registered. *)
Theorem caller_gets_a_response_to_its_own_identifier
    (w : wrapper V) (request : V) (date_now : Z) (child : child_process) :
  well_formed w → mcpProcess w = Some child →
  let id := or_else (get_id request) (VNum date_now) in
  let p := next_promise w in
  let w1 := forwardToMCP request date_now None w in
  ∀ evs w2, run evs (Running w1) = Running w2 →
    match promises w2 !! p with
    | None => True
    | Some (Rejected error) => error = timeout_error
    | Some (Resolved response) => get_id response = id
    end.
Proof.
  intros Hwf Hchild id p w1 evs w2 Hrun.
  destruct (forwardToMCP_written get_id JSON_stringify request date_now w child Hchild)
    as (Hqueue & Hpromises & Hnext & _).
  fold w1 id p in Hqueue, Hpromises, Hnext.
  assert (promises w1 !! p = None) as Hpending by (rewrite Hpromises; by apply Hwf).
  assert (registered_as get_id id p w1) as Hreg.
  { unfold registered_as. rewrite Hnext, Hpending, Hqueue. split; [lia|]. split; [|done].
    intros e [He|[->|[]%elem_of_nil]%elem_of_cons]%elem_of_app Heq; [|done].
    destruct Hwf as (Hentries & _). rewrite Forall_forall in Hentries.
    specialize (Hentries e He). subst p. lia. }
  assert (registered_as get_id id p w2) as (_ & _ & Ho).
  { revert Hrun.
    apply (run_invariant get_id JSON_parse JSON_stringify process_env dirname spawn_throws
             (registered_as get_id id p)); [|done].
    intros ev wa wb Ha Hev.
    by eapply (registered_as_step get_id JSON_parse JSON_stringify process_env dirname
                 spawn_throws). }
  destruct (promises w2 !! p) as [[response|error]|]; [|done|done].
  simpl in Ho. symmetry. by apply strict_equal_parsed_true.
Qed.

Lemma respond_first_match text response older e newer w :
  requestQueue w = older ++ e :: newer →
  looks_like_json text = true → JSON_parse (trim text) = Normal response →
  Forall (λ e', strict_equal_parsed (entry_id e') (get_id response) = false) older →
  strict_equal_parsed (entry_id e) (get_id response) = true →
  respond text w =
    settle (entry_promise e) (Resolved response) (set_requestQueue (older ++ newer) w).
Proof.
  intros Hqueue Hjson Hparse Holder He.
  rewrite (respond_matched get_id JSON_parse text response (length older) e w Hjson Hparse).
  - by rewrite Hqueue, delete_middle.
  - apply list_find_Some. rewrite Hqueue. split; [by apply list_lookup_middle|].
    split; [done|]. intros j y Hj Hlt. rewrite lookup_app_l in Hj by done.
    apply list_elem_of_lookup_2 in Hj. rewrite Forall_forall in Holder.
    rewrite (Holder y Hj). done.
Qed.

Lemma unknown_id_parsed id id' w :
  unknown_id id w → strict_equal_parsed id id' = true →
  Forall (λ e', strict_equal_parsed (entry_id e') id' = false) (requestQueue w).
Proof.
  intros Hunknown Hid. apply strict_equal_parsed_true in Hid as <-.
  eapply Forall_impl; [exact Hunknown|]. intros e' He'. simpl in He'.
  destruct (strict_equal_parsed (entry_id e') id) eqn:Heq; [|done].
  apply strict_equal_parsed_implies in Heq. congruence.
Qed.

(** X20. Calls that share an identifier are answered in the order of
    their registration. When two requests are registered under one
    identifier that no other pending entry carries, the first response
    with that identifier resolves the call registered first and leaves the
    second waiting, and the second response resolves the second; what
    the worker meant each response for plays no part. *)
Theorem calls_under_one_identifier_are_answered_in_order
    (w : wrapper V) (first second : V) (date1 date2 : Z) (child : child_process)
    (text1 text2 : string) (response1 response2 : V) :
  let id := or_else (get_id first) (VNum date1) in
  let p := next_promise w in
  let w2 := forwardToMCP second date2 None (forwardToMCP first date1 None w) in
  well_formed w → mcpProcess w = Some child →
  or_else (get_id second) (VNum date2) = id → unknown_id id w →
  looks_like_json text1 = true → JSON_parse (trim text1) = Normal response1 →
  strict_equal_parsed id (get_id response1) = true →
  looks_like_json text2 = true → JSON_parse (trim text2) = Normal response2 →
  strict_equal_parsed id (get_id response2) = true →
  ∃ w3 w4,
    handleMCPResponse text1 w2 = Normal w3 ∧ handleMCPResponse text2 w3 = Normal w4 ∧
    promises w3 !! p = Some (Resolved response1) ∧ promises w3 !! S p = None ∧
    requestQueue w3 = requestQueue w ++ [{| entry_id := id; entry_promise := S p |}] ∧
    promises w4 !! p = Some (Resolved response1) ∧
    promises w4 !! S p = Some (Resolved response2) ∧
    requestQueue w4 = requestQueue w.
Proof.
  intros id p w2 Hwf Hchild Hsame Hunknown Hjson1 Hparse1 Hid1 Hjson2 Hparse2 Hid2.
  destruct (forwardToMCP_written get_id JSON_stringify first date1 w child Hchild)
    as (Hqueue1 & Hpromises1 & Hnext1 & _ & Hstdin1 & _).
  set (w1 := forwardToMCP first date1 None w) in *. fold id p in Hqueue1, Hnext1.
  destruct (mcpProcess w1) as [child1|] eqn:Hchild1; [|done].
  destruct (forwardToMCP_written get_id JSON_stringify second date2 w1 child1 Hchild1)
    as (Hqueue2 & Hpromises2 & Hnext2 & _).
  fold w2 in Hqueue2, Hpromises2, Hnext2.
  rewrite Hsame, Hqueue1, Hnext1, <- app_assoc in Hqueue2. simpl in Hqueue2.
  rewrite Hpromises1 in Hpromises2.
  destruct Hwf as (_ & _ & Hfresh & _).
  set (e1 := {| entry_id := id; entry_promise := p |}) in *.
  set (e2 := {| entry_id := id; entry_promise := S p |}) in *.
  assert (respond text1 w2 =
          settle p (Resolved response1) (set_requestQueue (requestQueue w ++ [e2]) w2)) as H3.
  { apply (respond_first_match text1 response1 (requestQueue w) e1 [e2] w2); try done.
    by eapply unknown_id_parsed. }
  set (w3 := respond text1 w2) in *.
  assert (requestQueue w3 = requestQueue w ++ [e2]) as Hqueue3
    by by rewrite H3, settle_queue.
  assert (promises w3 !! p = Some (Resolved response1)) as Hp3.
  { rewrite H3. apply settle_pending. simpl. rewrite Hpromises2. apply Hfresh. lia. }
  assert (promises w3 !! S p = None) as Hq3.
  { rewrite H3, settle_other by lia. simpl. rewrite Hpromises2. apply Hfresh. subst p. lia. }
  assert (respond text2 w3 =
          settle (S p) (Resolved response2) (set_requestQueue (requestQueue w ++ []) w3)) as H4.
  { apply (respond_first_match text2 response2 (requestQueue w) e2 [] w3); try done.
    by eapply unknown_id_parsed. }
  exists w3, (respond text2 w3).
  rewrite !(handleMCPResponse_respond get_id JSON_parse). fold w3.
  split; [done|]. split; [done|]. split; [done|]. split; [done|]. split; [done|].
  rewrite H4. split; [|split].
  - rewrite settle_other by lia. done.
  - by apply settle_pending.
  - rewrite settle_queue. simpl. by rewrite app_nil_r.
Qed.

End WorkerLife.

(** ** The life of the worker on concrete runs *)

(** The worker prints the response to call 7 and the beginning of a
    second line in one chunk: the beginning stays in the buffer. *)
Lemma buffer_holds_no_complete_line_witness :
  let evs := Demo.one_call ++ [StdoutData (Demo.line "7" +:+ Demo.nl +:+ Demo.id_prefix)] in
  responseBuffer (Demo.state_after evs) = Demo.id_prefix ∧
  has_newline (responseBuffer (Demo.state_after evs)) = false.
Proof.
  intros evs. split; [vm_compute; reflexivity|].
  apply (buffer_holds_no_complete_line Demo.env_id Demo.parse Demo.env_text Demo.env "/app"
           Demo.never_throws evs).
  vm_compute. reflexivity.
Defined.

(** The worker exits in the middle of a line while call 7 waits. After
    the restart the new worker answers call 7 with a complete line: the
    line is glued to the fragment, the text fails to parse, and call 7
    still waits. *)
Lemma fragment_outlives_the_worker_witness :
  let w := Demo.state_after (Demo.one_call ++ [StdoutData Demo.id_prefix]) in
  let evs := [Close 1; Elapse 5000; TimerFires] in
  let w' := Demo.state_after (Demo.one_call ++ [StdoutData Demo.id_prefix] ++ evs) in
  responseBuffer w' = Demo.id_prefix ∧
  on_stdout_data Demo.env_id Demo.parse (Demo.line "7" +:+ Demo.nl) w' =
    handleMCPResponse Demo.env_id Demo.parse (Demo.id_prefix +:+ Demo.line "7")
      (set_responseBuffer "" w') ∧
  Demo.parse (Demo.id_prefix +:+ Demo.line "7") = Throw Demo.syntax_error ∧
  promises (Demo.state_after
              (Demo.one_call ++ [StdoutData Demo.id_prefix] ++ evs ++
               [StdoutData (Demo.line "7" +:+ Demo.nl)])) !! 0%nat = None.
Proof.
  intros w evs w'.
  destruct (fragment_outlives_the_worker Demo.env_id Demo.parse Demo.env_text Demo.env "/app"
              Demo.never_throws evs w w' (Demo.line "7")) as [Hbuffer Hdata].
  - by repeat constructor.
  - vm_compute. reflexivity.
  - vm_compute. reflexivity.
  - vm_compute. reflexivity.
  - split; [rewrite Hbuffer; vm_compute; reflexivity|]. split; [exact Hdata|].
    split; vm_compute; reflexivity.
Defined.

(** While call 7 waits, the worker prints a response whose [id] is
    [null]: nothing changes. *)
Lemma response_without_identifier_reaches_no_caller_witness :
  let w := Demo.state_after Demo.one_call in
  requestQueue w = [{| entry_id := VNum 7; entry_promise := 0 |}] ∧
  handleMCPResponse Demo.env_id Lifecycle.parse_with_null (Demo.line "null") w = Normal w.
Proof.
  intros w. split; [vm_compute; reflexivity|].
  apply (response_without_identifier_reaches_no_caller Demo.env_id Lifecycle.parse_with_null
           Demo.env_text Demo.env "/app" Demo.never_throws Demo.one_call w (Demo.line "null")
           {| Demo.env_id := VNull; Demo.env_text := Demo.line "null" |}).
  - vm_compute. reflexivity.
  - vm_compute. reflexivity.
  - reflexivity.
Defined.

(** The worker exits a tenth of a second after it was spawned. Three
    seconds after the spawn the wrapper is ready, two seconds before the
    restart. *)
Lemma ready_flag_outlives_the_worker_witness :
  ∃ w, KiwiTcmsMCPWrapper.run Demo.env_id Demo.parse Demo.env_text Demo.env "/app"
         Demo.never_throws [Elapse 100; Close 1; Elapse (3000 - 100); TimerFires]
         (Running (Demo.state_after [])) = Running w ∧
       isReady w = true ∧
       timers w = [{| due := 100 + 5000; action := Restart |}].
Proof.
  destruct (ready_flag_outlives_the_worker Demo.env_id Demo.parse Demo.env_text Demo.env "/app"
              Demo.never_throws (Demo.state_after []) 1 100)
    as (w & Hrun & Hready & _ & Htimers & _).
  - vm_compute. reflexivity.
  - lia.
  - by exists w.
Defined.

(** With a token of three blanks the wrapper starts and spawns the
    worker, and the worker throws in its own check. *)
Lemma spawned_worker_checks_more_than_the_wrapper_witness :
  ∃ w' child,
    initializeMCP Lifecycle.blank_token_env "/app" Demo.never_throws
      (@constructed Demo.envelope) = Running w' ∧
    mcpProcess w' = Some child ∧
    validateEnvironment (λ text, String.eqb text "http://localhost:8080") (child_env child)
      = Throw {| message := "KIWI_TOKEN cannot be empty" |}.
Proof.
  eexists. eexists. split; [vm_compute; reflexivity|]. split; [reflexivity|].
  eapply (spawned_worker_checks_more_than_the_wrapper Lifecycle.blank_token_env "/app"
            Demo.never_throws (λ text, String.eqb text "http://localhost:8080")
            (@constructed Demo.envelope)).
  - vm_compute. reflexivity.
  - reflexivity.
Defined.

(** The write of call 7 throws. More than two minutes later, after an
    exit and a restart of the worker and a call under identifier 8, the
    entry of call 7 is still in the queue. *)
Lemma failed_write_leaves_its_entry_behind_witness :
  let w := Demo.state_after Demo.warm_up in
  let broken := {| message := "write EPIPE" |} in
  let evs := [Elapse 200000; TimerFires; Close 1; Elapse 5000; TimerFires;
              Post (Demo.request 8 "8") Demo.today None] in
  let w'' := Demo.state_after
               (Demo.warm_up ++ Post (Demo.request 7 "7") Demo.today (Some broken) :: evs) in
  promises w'' !! 0%nat = Some (Rejected broken) ∧
  {| entry_id := VNum 7; entry_promise := 0 |} ∈ requestQueue w''.
Proof.
  intros w broken evs w''.
  assert (well_formed w) as Hwf by reached Demo.warm_up.
  destruct (failed_write_leaves_its_entry_behind Demo.env_id Demo.parse Demo.env_text Demo.env
              "/app" Demo.never_throws w w'' (Demo.request 7 "7") Demo.today broken evs)
    as (Hrejected & _ & Hentry).
  - vm_compute. reflexivity.
  - exact Hwf.
  - assert (timers w = []) as Htimers by (vm_compute; reflexivity).
    unfold Lifecycle.no_timeout_for. rewrite Htimers. constructor.
  - by repeat constructor.
  - vm_compute. reflexivity.
  - split; [exact Hrejected|exact Hentry].
Defined.

(** Without that precondition the entry can go. Call 7 is answered and
    its timer stays; a second call under 7 follows whose write throws.
    When the timer of the first call runs at 123000, it takes the entry
    of the second call out of the queue. *)
Example stale_timer_takes_the_entry_of_a_failed_write :
  let broken := {| message := "write EPIPE" |} in
  let evs := Demo.one_call ++ [StdoutData (Demo.line "7" +:+ Demo.nl);
                               Post (Demo.request 7 "7") Demo.today (Some broken)] in
  let w := Demo.state_after evs in
  promises w !! 1%nat = Some (Rejected broken) ∧
  requestQueue w = [{| entry_id := VNum 7; entry_promise := 1 |}] ∧
  timers w = [{| due := 123000; action := RequestTimeout (VNum 7) 0 |}] ∧
  requestQueue (Demo.state_after (evs ++ [Elapse 120000; TimerFires])) = [].
Proof. intros broken evs w. repeat split; vm_compute; reflexivity. Qed.

(** Calls 1, 2 and 3 wait. The worker answers 3, then 1, then 3 again
    and, after an exit and a restart, 2: call 2 is resolved with the
    response that carries 2. *)
Lemma caller_gets_a_response_to_its_own_identifier_witness :
  let w := Demo.state_after (Demo.warm_up ++ [Post (Demo.request 1 "1") Demo.today None]) in
  let evs := [Post (Demo.request 3 "3") Demo.today None;
              StdoutData (Demo.line "3" +:+ Demo.nl +:+ Demo.line "1" +:+ Demo.nl);
              StdoutData (Demo.line "3" +:+ Demo.nl); Close 1; Elapse 5000; TimerFires;
              StdoutData (Demo.line "2" +:+ Demo.nl)] in
  let w2 := Demo.state_after
              (Demo.warm_up ++ [Post (Demo.request 1 "1") Demo.today None;
                                Post (Demo.request 2 "2") Demo.today None] ++ evs) in
  promises w2 !! 1%nat = Some (Resolved (Demo.request 2 "2")) ∧
  Demo.env_id (Demo.request 2 "2") = VNum 2.
Proof.
  intros w evs w2.
  assert (well_formed w) as Hwf
    by reached (Demo.warm_up ++ [Post (Demo.request 1 "1") Demo.today None]).
  assert (∃ child, mcpProcess w = Some child) as [child Hchild]
    by (eexists; vm_compute; reflexivity).
  pose proof (caller_gets_a_response_to_its_own_identifier Demo.env_id Demo.parse Demo.env_text
                Demo.env "/app" Demo.never_throws w (Demo.request 2 "2") Demo.today child
                Hwf Hchild evs w2) as Hown.
  assert (promises w2 !! 1%nat = Some (Resolved (Demo.request 2 "2"))) as Hresolved
    by (vm_compute; reflexivity).
  split; [done|].
  assert (next_promise w = 1%nat) as Hnext by (vm_compute; reflexivity).
  rewrite Hnext, Hresolved in Hown. apply Hown. vm_compute. reflexivity.
Defined.

(** ** The log of the worker on the way of the responses *)

Section WorkerLog.
Import Logger.
Context {V : Type}.
Variable get_id : V → jsval.
Variable JSON_parse : string → completion V.
Variable JSON_stringify : V → string.
Variable process_env : gmap string string.
Variable dirname : string.
Variable spawn_throws : string → list string → gmap string string → option Error.
Implicit Type w : wrapper V.

Local Abbreviation respond := (respond get_id JSON_parse).
Local Abbreviation run :=
  (run get_id JSON_parse JSON_stringify process_env dirname spawn_throws).

Lemma trim_first c s : is_white c = false → ∃ t, trim (String c s) = String c t.
Proof.
  intros Hc. unfold trim. cbn [trimStart]. rewrite Hc. cbn [trimEnd]. rewrite Hc.
  by eexists.
Qed.

Lemma no_json_line_skipped l :
  no_json_line l → JsString.truthy (trim l) = true ∧ looks_like_json (trim l) = false.
Proof.
  intros (_ & c & rest & -> & Hc & Hbrace & Hbracket).
  destruct (trim_first c rest Hc) as [t ->]. split; [done|].
  unfold looks_like_json. destruct (trim_first c t Hc) as [t' ->].
  unfold startsWith. cbn [String.prefix].
  destruct (ascii_dec "{" c) as [<-|_]; [done|].
  destruct (ascii_dec "[" c) as [<-|_]; [done|]. done.
Qed.

Lemma foldl_respond_no_json ls w :
  Forall no_json_line ls → foldl (flip respond) w (delivered ls) = w.
Proof.
  induction 1 as [|l ls Hl _ IH]; [done|].
  change (l :: ls) with ([l] ++ ls). rewrite delivered_app, foldl_app.
  destruct (no_json_line_skipped l Hl) as [Htruthy Hskip].
  assert (delivered [l] = [trim l]) as ->.
  { unfold delivered. rewrite filter_cons, decide_True by done. by rewrite filter_nil. }
  simpl. by rewrite respond_not_json.
Qed.

Lemma timestamp_first timestamp :
  starts_like_a_timestamp timestamp = true →
  ∃ c rest, timestamp = String c rest ∧ is_white c = false ∧ c ≠ "{"%char ∧ c ≠ "["%char.
Proof.
  destruct timestamp as [|c rest]; [done|]. simpl. intros Hc. exists c, rest. split; [done|].
  revert Hc. unfold Validation.digit, Validation.between.
  destruct c as [[] [] [] [] [] [] [] []]; by vm_compute.
Qed.

Lemma formatMessage_no_json_line component timestamp level message :
  starts_like_a_timestamp timestamp = true → has_newline timestamp = false →
  has_newline level = false → has_newline component = false → has_newline message = false →
  no_json_line (formatMessage component timestamp level message None).
Proof.
  intros Hstart Hts Hlevel Hcomponent Hmessage. split.
  - unfold formatMessage. rewrite !has_newline_app.
    by rewrite Hts, Hlevel, Hcomponent, Hmessage.
  - destruct (timestamp_first timestamp Hstart) as (c & rest & -> & Hc).
    exists c. eexists. split; [|done]. unfold formatMessage. simpl. reflexivity.
Qed.

Lemma to_stdout_cons_stdout text writes :
  to_stdout ((Stdout, text) :: writes) = text +:+ to_stdout writes.
Proof. done. Qed.

Lemma to_stdout_cons_stderr text writes : to_stdout ((Stderr, text) :: writes) = to_stdout writes.
Proof. done. Qed.

Lemma plain_writes_lines writes :
  Forall plain_write writes →
  ∃ ls, to_stdout writes = unlines ls ∧ Forall no_json_line ls.
Proof.
  induction 1 as [|write writes Hwrite _ (ls & Hls & Hlines)]; [by exists []|].
  destruct Hwrite as [component env timestamp message write Hstart Hts Hcomponent Hmessage Hin].
  assert (∀ level, has_newline level = false →
            write = console_log (formatMessage component timestamp level message None) →
            ∃ ls, to_stdout (write :: writes) = unlines ls ∧ Forall no_json_line ls) as Hlog.
  { intros level Hlevel ->.
    exists (formatMessage component timestamp level message None :: ls).
    split; [|constructor; [by apply formatMessage_no_json_line|done]].
    unfold console_log. rewrite to_stdout_cons_stdout, Hls. simpl.
    by rewrite append_assoc. }
  assert (∀ text, write = (Stderr, text) →
            ∃ ls, to_stdout (write :: writes) = unlines ls ∧ Forall no_json_line ls) as Herr.
  { intros text ->. exists ls. by rewrite to_stdout_cons_stderr. }
  unfold info, warn, error, debug in Hin.
  rewrite !elem_of_app, !list_elem_of_singleton in Hin.
  destruct Hin as [Hin|[Hin|[Hin|Hin]]].
  - by apply (Hlog "INFO").
  - by eapply Herr.
  - by eapply Herr.
  - case_bool_decide; [|by apply elem_of_nil in Hin].
    apply list_elem_of_singleton in Hin. by apply (Hlog "DEBUG").
Qed.

(** X18. The worker logs on the channel of its responses: [info] and
    [debug] write to the standard output. The lines of messages logged
    without data never count as a response: however the output is cut
    into chunks, the wrapper skips every such line without parsing it,
    and is afterwards in the state it was in. What [warn] and [error]
    write does not come this way. *)
Theorem log_lines_are_no_responses
    (w : wrapper V) (writes : list (stream * string)) (chunks : list string) :
  Forall plain_write writes →
  responseBuffer w = "" →
  JsString.concat chunks = to_stdout writes →
  run (StdoutData <$> chunks) (Running w) = Running w.
Proof.
  intros Hwrites Hbuffer Hchunks.
  destruct (plain_writes_lines writes Hwrites) as (ls & Hls & Hlines).
  rewrite (run_stdout get_id JSON_parse JSON_stringify process_env dirname spawn_throws).
  rewrite stream_lines_concat by by rewrite Hbuffer.
  rewrite Hbuffer. change ("" +:+ JsString.concat chunks) with (JsString.concat chunks).
  rewrite Hchunks, Hls, <- (append_empty_r (unlines ls)).
  rewrite split_unlines; [|by eapply Forall_impl; [exact Hlines|intros l [? _]]|done].
  rewrite removelast_snoc, last_snoc. cbn [fst snd default].
  rewrite foldl_respond_no_json by done.
  f_equal. destruct w. simpl in *. by rewrite Hbuffer.
Qed.

(** X19. The worker never runs without a log level: the wrapper hands
    its own level on, and [INFO] when it has none or an empty one. So
    the worker prints its debug messages exactly when the level of the
    wrapper is [DEBUG], and then on the standard output. *)
Theorem worker_debug_follows_the_wrapper
    (w w' : wrapper V) (child : child_process)
    (component timestamp message : string) (data : option string) :
  initializeMCP process_env dirname spawn_throws w = Running w' →
  mcpProcess w' = Some child →
  (∃ level, child_env child !! "LOG_LEVEL" = Some level ∧ level ≠ "" ∧
            (level = "INFO" ∨ process_env !! "LOG_LEVEL" = Some level)) ∧
  (process_env !! "LOG_LEVEL" = Some "DEBUG" →
   debug component (child_env child) timestamp message data =
     [console_log (formatMessage component timestamp "DEBUG" message data)]) ∧
  (process_env !! "LOG_LEVEL" ≠ Some "DEBUG" →
   debug component (child_env child) timestamp message data = []).
Proof.
  unfold KiwiTcmsMCPWrapper.initializeMCP.
  destruct (negb _ || negb _); [done|].
  unfold spawn. destruct (spawn_throws _ _ _); [done|].
  intros [= <-]. simpl. intros [= <-]. simpl. unfold debug.
  rewrite lookup_insert_eq.
  destruct (process_env !! "LOG_LEVEL") as [level|] eqn:Hlevel; simpl.
  - destruct level as [|c level]; simpl.
    + split; [exists "INFO"; by auto|]. by split.
    + split; [eexists; by auto|]. split.
      * intros [= -> ->]. by rewrite bool_decide_eq_true_2.
      * intros Hne. rewrite bool_decide_eq_false_2; [done|]. congruence.
  - split; [exists "INFO"; by auto|]. by split.
Qed.

End WorkerLog.

(** The worker logs two lines while call 7 waits; the output arrives in
    three chunks that cut the lines anywhere. *)
Lemma log_lines_are_no_responses_witness :
  let w := Demo.state_after Demo.one_call in
  let stamp := "2024-05-01T10:00:00.000Z" in
  let writes := Logger.info "KiwiMCPServer" stamp "Listing available Kiwi TCMS tools" None ++
                Logger.error "KiwiMCPServer" stamp "Failed" None ++
                Logger.info "KiwiMCPServer" stamp "Kiwi TCMS MCP Server is running on stdio" None in
  let text := Logger.to_stdout writes in
  Demo.run (StdoutData <$> [substring0 30 text; String.substring 30 40 text;
                            String.substring 70 200 text])
    (Running w) = Running w.
Proof.
  intros w stamp writes text.
  apply (log_lines_are_no_responses Demo.env_id Demo.parse Demo.env_text Demo.env "/app"
           Demo.never_throws w writes).
  - repeat constructor.
    + apply (Logger.plain_write_of "KiwiMCPServer" ∅ stamp "Listing available Kiwi TCMS tools");
        [reflexivity..|]. apply elem_of_app. left. by left.
    + apply (Logger.plain_write_of "KiwiMCPServer" ∅ stamp "Failed"); [reflexivity..|].
      apply elem_of_app. right. apply elem_of_app. right. apply elem_of_app. left. by left.
    + apply (Logger.plain_write_of "KiwiMCPServer" ∅ stamp
               "Kiwi TCMS MCP Server is running on stdio"); [reflexivity..|].
      apply elem_of_app. left. by left.
  - vm_compute. reflexivity.
  - vm_compute. reflexivity.
Defined.

(** The wrapper of the examples has no log level: the worker has [INFO]
    and prints no debug message. *)
Lemma worker_debug_follows_the_wrapper_witness :
  ∃ w' child,
    initializeMCP Demo.env "/app" Demo.never_throws (@constructed Demo.envelope) = Running w' ∧
    mcpProcess w' = Some child ∧
    child_env child !! "LOG_LEVEL" = Some "INFO" ∧
    Logger.debug "KiwiApiClient" (child_env child) "2024-05-01T10:00:00.000Z"
      "Mock: getProducts" None = [].
Proof.
  eexists. eexists. split; [vm_compute; reflexivity|]. split; [reflexivity|].
  split; [vm_compute; reflexivity|].
  eapply (worker_debug_follows_the_wrapper Demo.env "/app" Demo.never_throws
            (@constructed Demo.envelope)).
  - vm_compute. reflexivity.
  - reflexivity.
  - vm_compute. discriminate.
Defined.

(** Two calls under identifier 7, two responses with identifier 7. *)
Lemma calls_under_one_identifier_are_answered_in_order_witness :
  let w := Demo.state_after Demo.warm_up in
  let w2 := forwardToMCP Demo.env_id Demo.env_text (Demo.request 7 "7") Demo.today None
              (forwardToMCP Demo.env_id Demo.env_text (Demo.request 7 "7") Demo.today None w) in
  ∃ w3 w4,
    handleMCPResponse Demo.env_id Demo.parse (Demo.line "7") w2 = Normal w3 ∧
    handleMCPResponse Demo.env_id Demo.parse (Demo.line "7") w3 = Normal w4 ∧
    promises w3 !! 0%nat = Some (Resolved (Demo.request 7 "7")) ∧
    promises w3 !! 1%nat = None ∧
    promises w4 !! 1%nat = Some (Resolved (Demo.request 7 "7")).
Proof.
  intros w w2.
  assert (well_formed w) as Hwf by reached Demo.warm_up.
  assert (∃ child, mcpProcess w = Some child) as [child Hchild]
    by (eexists; vm_compute; reflexivity).
  destruct (calls_under_one_identifier_are_answered_in_order Demo.env_id Demo.parse
              Demo.env_text w (Demo.request 7 "7") (Demo.request 7 "7") Demo.today Demo.today
              child (Demo.line "7") (Demo.line "7") (Demo.request 7 "7") (Demo.request 7 "7"))
    as (w3 & w4 & H3 & H4 & Hp3 & Hq3 & _ & _ & Hq4 & _);
    try done; try reflexivity.
  - assert (requestQueue w = []) as Hqueue by (vm_compute; reflexivity).
    unfold unknown_id. rewrite Hqueue. constructor.
  - exists w3, w4. assert (next_promise w = 0%nat) as Hnext by (vm_compute; reflexivity).
    rewrite Hnext in Hp3, Hq3, Hq4. done.
Defined.

(** ** Test steps: from steps to texts and back *)

Section StepTexts.
Import TestSteps.

Local Abbreviation digit := Validation.digit.

Lemma drop_0 (s : string) : drop 0 s = s.
Proof. by destruct s. Qed.

Lemma drop_app_length (a b : string) (k : nat) :
  drop (String.length a + k) (a +:+ b) = drop k b.
Proof. induction a as [|c a IH]; [done|]. exact IH. Qed.

Lemma run_length_all (member : ascii → bool) (a b : string) :
  Validation.all_in member a = true → run_length member b = 0%nat →
  run_length member (a +:+ b) = String.length a.
Proof.
  intros Ha Hb. induction a as [|c a IH]; [done|]. simpl in *.
  apply andb_true_iff in Ha as [-> Ha]. by rewrite IH.
Qed.

Lemma trimStart_white c s : is_white c = true → trimStart (String c s) = trimStart s.
Proof. simpl. by intros ->. Qed.

Lemma trimStart_twice s : trimStart (trimStart s) = trimStart s.
Proof.
  induction s as [|c s IH]; [done|]. simpl. destruct (is_white c) eqn:Hc; [done|].
  simpl. by rewrite Hc.
Qed.

Lemma trim_trimStart s : trim (trimStart s) = trim s.
Proof. unfold trim. by rewrite trimStart_twice. Qed.

(** A text is not blank when something is left of it without the white
    space at its start. *)
Lemma nonblank_trimStart s :
  nonblank s = true ↔ ∃ c t, trimStart s = String c t ∧ is_white c = false.
Proof.
  unfold nonblank, trim. split.
  - induction s as [|c s IH]; [done|]. simpl. destruct (is_white c) eqn:Hc; [done|].
    intros _. by exists c, s.
  - intros (c & t & -> & Hc). simpl. by rewrite Hc.
Qed.

Lemma run_length_white_app x tail :
  nonblank x = true → run_length is_white (x +:+ tail) = run_length is_white x.
Proof.
  intros (c & t & Hx & Hc)%nonblank_trimStart. revert Hx.
  induction x as [|d x IH]; [done|]. simpl. destruct (is_white d) eqn:Hd.
  - intros Hx. by rewrite IH.
  - done.
Qed.

Lemma drop_white x tail :
  drop (run_length is_white x) (x +:+ tail) = trimStart x +:+ tail ∨ trimStart x = "".
Proof.
  induction x as [|c x IH]; [by right|]. simpl. destruct (is_white c); [exact IH|by left].
Qed.

Lemma no_number_dot_tail c s : no_number_dot (String c s) = true → no_number_dot s = true.
Proof. simpl. destruct s; [done|]. by intros [_ ?]%andb_true_iff. Qed.

Lemma no_number_dot_trimStart s : no_number_dot s = true → no_number_dot (trimStart s) = true.
Proof.
  induction s as [|c s IH]; [done|]. intros Hs. simpl. destruct (is_white c); [|done].
  by apply IH, (no_number_dot_tail c).
Qed.

Lemma at_line_end_no_digit tail : at_line_end tail → run_length digit tail = 0%nat.
Proof. by intros [->|[t ->]]. Qed.

Lemma digits_then_no_dot c s tail :
  digit c = true → no_number_dot (String c s) = true → at_line_end tail →
  ∀ rest, drop (run_length digit (s +:+ tail)) (s +:+ tail) ≠ String "." rest.
Proof.
  intros Hc Hs Htail. revert c Hc Hs. induction s as [|d s IH]; intros c Hc Hs rest.
  - change ("" +:+ tail) with tail. rewrite at_line_end_no_digit, drop_0 by done.
    by destruct Htail as [->|[t ->]].
  - change (String d s +:+ tail) with (String d (s +:+ tail)).
    cbn [run_length]. destruct (digit d) eqn:Hd.
    + cbn [drop]. apply (IH d Hd). by apply (no_number_dot_tail c).
    + cbn [drop]. intros [= -> _]. simpl in Hs. rewrite Hc in Hs. simpl in Hs.
      by destruct s.
Qed.

Lemma number_dot_length_none s tail :
  no_number_dot s = true → at_line_end tail → number_dot_length (s +:+ tail) = None.
Proof.
  intros Hs Htail. unfold number_dot_length. destruct s as [|c s].
  - change ("" +:+ tail) with tail. by rewrite at_line_end_no_digit.
  - change (String c s +:+ tail) with (String c (s +:+ tail)). cbn [run_length].
    destruct (digit c) eqn:Hc; [|done]. cbn [drop].
    pose proof (digits_then_no_dot c s tail Hc Hs Htail) as Hdot.
    destruct (drop _ _) as [|d rest]; [done|].
    destruct (Ascii.eqb_spec d ".") as [->|Hne]; [by destruct (Hdot rest)|].
    destruct d as [[] [] [] [] [] [] [] []]; try done.
Qed.

Lemma step_number_length_none s tail :
  s ≠ "" → no_number_dot s = true → at_line_end tail →
  step_number_length (s +:+ tail) = None.
Proof.
  intros Hne Hs Htail. destruct s as [|c s]; [done|].
  change (String c s +:+ tail) with (String c (s +:+ tail)). unfold step_number_length.
  destruct (Ascii.eqb_spec c newline) as [->|_].
  - rewrite (number_dot_length_none s tail); [|by eapply no_number_dot_tail|done].
    by apply (number_dot_length_none (String newline s) tail).
  - by apply (number_dot_length_none (String c s) tail).
Qed.

(** The characters of a text in which nothing matches join the piece. *)
Lemma split_from_text x tail piece :
  no_number_dot x = true → at_line_end tail →
  split_from step_number_length (x +:+ tail) 0 piece =
    split_from step_number_length tail 0 (piece +:+ x).
Proof.
  intros Hx Htail. revert piece Hx. induction x as [|c x IH]; intros piece Hx.
  - by rewrite append_empty_r.
  - change (String c x +:+ tail) with (String c (x +:+ tail)). cbn [split_from].
    change (String c (x +:+ tail)) with (String c x +:+ tail).
    rewrite step_number_length_none by done.
    rewrite IH by by eapply no_number_dot_tail.
    f_equal. by rewrite append_assoc.
Qed.

Lemma split_from_skip match_length s skip piece :
  split_from match_length s skip piece = split_from match_length (drop skip s) 0 piece.
Proof.
  revert skip. induction s as [|c s IH]; intros skip; [by destruct skip|].
  destruct skip as [|skip]; [done|]. cbn [split_from drop]. apply IH.
Qed.

Lemma split_from_match match_length s n piece :
  s ≠ "" → match_length s = Some (S n) →
  split_from match_length s 0 piece = piece :: split_from match_length (drop (S n) s) 0 "".
Proof.
  intros Hne Hmatch. destruct s as [|c s]; [done|].
  cbn [split_from drop]. rewrite Hmatch. by rewrite split_from_skip.
Qed.

Lemma decimal_digits (d : Decimal.uint) :
  Validation.all_in digit (DecimalString.NilEmpty.string_of_uint d) = true.
Proof. induction d; simpl; try done. Qed.

Lemma decimal_first n : ∃ c t, decimal n = String c t ∧ digit c = true.
Proof.
  unfold decimal. pose proof (decimal_digits (Nat.to_uint n)) as Hall.
  assert (Nat.to_uint n ≠ Decimal.Nil) as Hnil.
  { rewrite <- (DecimalNat.Unsigned.of_to n) at 1. rewrite DecimalNat.Unsigned.to_of.
    unfold Decimal.unorm. by destruct (Decimal.nzhead _). }
  destruct (Nat.to_uint n); try done; simpl in *; by eexists _, _.
Qed.

(** The number of a step, its dot and the white space after it make a
    match, up to the first character of the text that is no white
    space. *)
Lemma number_dot_length_step n x tail :
  nonblank x = true →
  ∃ k, number_dot_length (decimal n +:+ ". " +:+ x +:+ tail) = Some (S k) ∧
       drop (S k) (decimal n +:+ ". " +:+ x +:+ tail) = trimStart x +:+ tail.
Proof.
  intros Hx. unfold number_dot_length.
  rewrite (run_length_all digit (decimal n)); [|apply decimal_digits|done].
  pose proof (drop_app_length (decimal n) (". " +:+ x +:+ tail) 0) as Hdot.
  rewrite Nat.add_0_r, drop_0 in Hdot.
  destruct (decimal_first n) as (c & t & Hdec & _).
  destruct (String.length (decimal n)) as [|len] eqn:Hlen; [by rewrite Hdec in Hlen|].
  rewrite Hdot.
  change (". " +:+ x +:+ tail) with (String "." (String " " (x +:+ tail))).
  cbn [run_length]. change (is_white " ") with true. cbv iota.
  rewrite run_length_white_app by done.
  exists (len + 1 + S (run_length is_white x))%nat. split; [f_equal; lia|].
  replace (S (len + 1 + S (run_length is_white x)))
    with (String.length (decimal n) + (2 + run_length is_white x))%nat by lia.
  rewrite drop_app_length. cbn [drop Nat.add].
  destruct (drop_white x tail) as [->|Hblank]; [done|].
  apply nonblank_trimStart in Hx as (c' & t' & Hx & _). congruence.
Qed.

Lemma step_number_length_first n x tail :
  nonblank x = true →
  ∃ k, step_number_length (decimal n +:+ ". " +:+ x +:+ tail) = Some (S k) ∧
       drop (S k) (decimal n +:+ ". " +:+ x +:+ tail) = trimStart x +:+ tail.
Proof.
  intros Hx. destruct (number_dot_length_step n x tail Hx) as (k & Hk & Hdrop).
  exists k. split; [|done]. destruct (decimal_first n) as (c & t & Hdec & Hc).
  rewrite Hdec in Hk |- *.
  change (String c t +:+ ". " +:+ x +:+ tail) with (String c (t +:+ ". " +:+ x +:+ tail)) in *.
  unfold step_number_length.
  destruct (Ascii.eqb_spec c newline) as [->|_]; [done|]. exact Hk.
Qed.

Lemma step_number_length_next n x tail :
  nonblank x = true →
  ∃ k, step_number_length (String newline (decimal n +:+ ". " +:+ x +:+ tail)) = Some (S k) ∧
       drop (S k) (String newline (decimal n +:+ ". " +:+ x +:+ tail)) = trimStart x +:+ tail.
Proof.
  intros Hx. destruct (number_dot_length_step n x tail Hx) as (k & Hk & Hdrop).
  exists (S k). unfold step_number_length. rewrite Ascii.eqb_refl, Hk. by split.
Qed.

Lemma join_lines_numbered from x texts :
  join_lines (numbered from (x :: texts)) =
    decimal (S from) +:+ ". " +:+ x +:+ following (S from) texts.
Proof.
  destruct texts as [|y texts]; simpl.
  - by rewrite !append_empty_r.
  - by rewrite !append_assoc.
Qed.

Lemma following_at_line_end from texts : at_line_end (following from texts).
Proof. destruct texts; [by left|right; by eexists]. Qed.

Lemma split_from_following x from texts :
  no_number_dot x = true → Forall usable texts →
  split_from step_number_length (trimStart x +:+ following from texts) 0 "" =
    trimStart x :: (trimStart <$> texts).
Proof.
  intros Hx Htexts. revert x from Hx.
  induction Htexts as [|y texts [Hy1 Hy2] _ IH]; intros x from Hx.
  - rewrite split_from_text; [done|by apply no_number_dot_trimStart|by left].
  - rewrite split_from_text;
      [|by apply no_number_dot_trimStart|apply following_at_line_end].
    change ("" +:+ trimStart x) with (trimStart x).
    unfold following at 1. rewrite join_lines_numbered.
    destruct (step_number_length_next (S from) y (following (S from) texts) Hy1)
      as (k & Hk & Hdrop).
    rewrite (split_from_match _ _ k) by done. rewrite Hdrop.
    by rewrite IH.
Qed.

Lemma split_pattern_numbered texts :
  texts ≠ [] → Forall usable texts →
  split_pattern step_number_length (join_lines (numbered 0 texts)) = "" :: (trimStart <$> texts).
Proof.
  intros Hne Htexts. destruct Htexts as [|x texts [Hx1 Hx2] Htexts]; [done|].
  unfold split_pattern. rewrite join_lines_numbered.
  destruct (step_number_length_first 1 x (following 1 texts) Hx1) as (k & Hk & Hdrop).
  rewrite (split_from_match _ _ k) by done. rewrite Hdrop.
  by rewrite split_from_following.
Qed.

Lemma step_texts_numbered texts :
  texts ≠ [] → Forall usable texts →
  step_texts (join_lines (numbered 0 texts)) = trimStart <$> texts.
Proof.
  intros Hne Htexts. unfold step_texts.
  assert (JsString.truthy (join_lines (numbered 0 texts)) = true) as ->.
  { destruct texts as [|x texts]; [done|]. rewrite join_lines_numbered.
    destruct (decimal_first 1) as (c & t & -> & _). done. }
  rewrite split_pattern_numbered by done.
  rewrite filter_cons, decide_False by done.
  induction Htexts as [|x texts [Hx1 Hx2] _ IH]; [done|].
  rewrite fmap_cons, filter_cons, decide_True.
  - f_equal. destruct texts as [|y texts]; [done|]. by apply IH.
  - unfold nonblank. by rewrite trim_trimStart.
Qed.

Lemma validateTestSteps_nonblank steps :
  validateTestSteps steps = true →
  steps ≠ [] ∧
  Forall (λ s, nonblank (step_action s) = true ∧ nonblank (step_expected s) = true) steps.
Proof.
  unfold validateTestSteps. case_bool_decide as Hlen; [done|]. intros Hall.
  split; [by destruct steps|]. rewrite forallb_forall in Hall. apply Forall_forall.
  intros s Hs%list_elem_of_In. specialize (Hall s Hs).
  apply andb_true_iff in Hall as [Ha He]. unfold nonblank.
  apply Nat.ltb_lt in Ha, He. split.
  - by destruct (trim (step_action s)); [simpl in Ha; lia|].
  - by destruct (trim (step_expected s)); [simpl in He; lia|].
Qed.

(** X21. Steps that [validateTestSteps] accepts and in whose texts no
    digit has a dot after it come back from the two text fields of Kiwi
    TCMS as they went in, up to the white space around each text:
    [parseTestSteps] of what [formatTestSteps] made gives the steps with
    their texts trimmed, as many as there were and in their order. *)
Theorem steps_come_back_from_their_texts (steps : list step) :
  validateTestSteps steps = true →
  Forall (λ s, no_number_dot (step_action s) = true ∧
               no_number_dot (step_expected s) = true) steps →
  parseTestSteps (kiwi_action (formatTestSteps steps)) (expected_result (formatTestSteps steps))
    = trimmed <$> steps.
Proof.
  intros (Hne & Hnonblank)%validateTestSteps_nonblank Hdots.
  assert (Forall usable (step_action <$> steps)) as Hactions.
  { apply Forall_fmap, Forall_forall. intros s Hs. rewrite Forall_forall in Hnonblank, Hdots.
    split; [by apply Hnonblank|by apply Hdots]. }
  assert (Forall usable (step_expected <$> steps)) as Hexpected.
  { apply Forall_fmap, Forall_forall. intros s Hs. rewrite Forall_forall in Hnonblank, Hdots.
    split; [by apply Hnonblank|by apply Hdots]. }
  unfold parseTestSteps, formatTestSteps. cbn [kiwi_action expected_result].
  rewrite !step_texts_numbered by (done || by destruct steps).
  assert (JsString.truthy (join_lines (numbered 0 (step_action <$> steps))) = true) as ->.
  { destruct steps as [|s steps]; [done|]. rewrite fmap_cons, join_lines_numbered.
    destruct (decimal_first 1) as (c & t & -> & _). done. }
  cbn [negb andb]. rewrite !length_fmap, Nat.max_id.
  assert (∀ i s, steps !! i = Some s →
            text_at (trimStart <$> (step_action <$> steps)) i = trim (step_action s) ∧
            text_at (trimStart <$> (step_expected <$> steps)) i = trim (step_expected s))
    as Htext.
  { intros i s Hi. unfold text_at. rewrite !list_lookup_fmap, Hi. simpl.
    by rewrite !trim_trimStart. }
  rewrite (list_fmap_alt trimmed steps). apply list_omap_ext.
  apply Forall2_same_length_lookup_2; [by rewrite length_seq|].
  intros i j s [-> _]%lookup_seq Hs. simpl in *.
  destruct (Htext i s Hs) as [-> ->].
  rewrite Forall_forall in Hnonblank.
  destruct (Hnonblank s) as [Haction _]; [by eapply list_elem_of_lookup_2|].
  unfold nonblank in Haction. by rewrite Haction.
Qed.

End StepTexts.

(** Two steps with white space around their texts. *)
Lemma steps_come_back_from_their_texts_witness :
  let steps := [{| TestSteps.step_action := " Open the page";
                   TestSteps.step_expected := "The page opens " |};
                {| TestSteps.step_action := "Enter v1 and go on";
                   TestSteps.step_expected := "Shown: 3 rows" |}] in
  TestSteps.kiwi_action (TestSteps.formatTestSteps steps) =
    "1.  Open the page" +:+ String newline "2. Enter v1 and go on" ∧
  TestSteps.parseTestSteps (TestSteps.kiwi_action (TestSteps.formatTestSteps steps))
    (TestSteps.expected_result (TestSteps.formatTestSteps steps)) =
    [{| TestSteps.step_action := "Open the page";
        TestSteps.step_expected := "The page opens" |};
     {| TestSteps.step_action := "Enter v1 and go on";
        TestSteps.step_expected := "Shown: 3 rows" |}].
Proof.
  intros steps. split; [reflexivity|].
  apply (steps_come_back_from_their_texts steps); [reflexivity|].
  by repeat constructor.
Defined.

(** A number with a dot in a text is taken for the number of a step:
    one step goes in, two come back. *)
Example number_with_a_dot_makes_a_step :
  let steps := [{| TestSteps.step_action := "Enter 3.14";
                   TestSteps.step_expected := "Accepted" |}] in
  TestSteps.validateTestSteps steps = true ∧
  TestSteps.parseTestSteps (TestSteps.kiwi_action (TestSteps.formatTestSteps steps))
    (TestSteps.expected_result (TestSteps.formatTestSteps steps)) =
    [{| TestSteps.step_action := "Enter"; TestSteps.step_expected := "Accepted" |};
     {| TestSteps.step_action := "14"; TestSteps.step_expected := "" |}].
Proof. split; reflexivity. Qed.

(** ** Test steps: written by one service, read by the other *)

Section CaseTexts.
Import TestSteps Management.

Local Abbreviation digit := Validation.digit.

(** The characters of a text in which a pattern matches nowhere join
    the piece. *)
Lemma split_from_quiet pattern x tail piece :
  (∀ a b, x = a +:+ b → b ≠ "" → pattern (b +:+ tail) = None) →
  split_from pattern (x +:+ tail) 0 piece = split_from pattern tail 0 (piece +:+ x).
Proof.
  revert piece. induction x as [|c x IH]; intros piece Hquiet.
  - by rewrite append_empty_r.
  - change (String c x +:+ tail) with (String c (x +:+ tail)). cbn [split_from].
    change (String c (x +:+ tail)) with (String c x +:+ tail).
    rewrite (Hquiet "" (String c x)) by done.
    rewrite IH.
    + f_equal. by rewrite append_assoc.
    + intros a b -> Hb. by apply (Hquiet (String c a) b).
Qed.

Lemma filter_all {A} (P : A → Prop) `{!∀ x, Decision (P x)} (l : list A) :
  Forall P l → filter P l = l.
Proof. induction 1 as [|x l Hx _ IH]; [done|]. by rewrite filter_cons_True, IH. Qed.

Lemma has_newline_suffix a b : has_newline (a +:+ b) = false → has_newline b = false.
Proof. rewrite has_newline_app. by intros [_ ?]%orb_false_iff. Qed.

Lemma no_number_dot_suffix a b : no_number_dot (a +:+ b) = true → no_number_dot b = true.
Proof.
  induction a as [|c a IH]; [done|]. intros H. apply IH. by apply (no_number_dot_tail c).
Qed.

Lemma never_suffix label a b : never label (a +:+ b) = true → never label b = true.
Proof.
  induction a as [|c a IH]; [done|]. simpl. by intros [_ ?%IH]%andb_true_iff.
Qed.

Lemma number_dot_none s tail :
  no_number_dot s = true → at_line_end tail → number_dot (s +:+ tail) = None.
Proof.
  intros Hs Htail. unfold number_dot. destruct s as [|c s].
  - change ("" +:+ tail) with tail. by rewrite at_line_end_no_digit.
  - change (String c s +:+ tail) with (String c (s +:+ tail)). cbn [run_length].
    destruct (digit c) eqn:Hc; [|done]. cbn [drop].
    pose proof (digits_then_no_dot c s tail Hc Hs Htail) as Hdot.
    destruct (drop _ _) as [|d rest]; [done|].
    destruct (Ascii.eqb_spec d ".") as [->|Hne]; [by destruct (Hdot rest)|].
    destruct d as [[] [] [] [] [] [] [] []]; try done.
Qed.

(** A word of one line at the start of a text is at the start of its
    first line. *)
Lemma prefix_line word b tail :
  has_newline word = false → at_line_end tail →
  String.prefix word (b +:+ tail) = true → String.prefix word b = true.
Proof.
  intros Hword Htail. revert b. induction word as [|a word IH]; intros b; [by destruct b|].
  simpl in Hword. apply orb_false_iff in Hword as [Ha Hword].
  destruct b as [|c b].
  - change ("" +:+ tail) with tail. destruct Htail as [->|[t ->]]; [done|]. simpl.
    destruct (ascii_dec a newline) as [->|_]; [|done]. by rewrite Ascii.eqb_refl in Ha.
  - change (String c b +:+ tail) with (String c (b +:+ tail)). simpl.
    destruct (ascii_dec a c); [by apply IH|done].
Qed.

Lemma prefix_drop word b tail :
  String.prefix word b = true →
  drop (String.length word) (b +:+ tail) = drop (String.length word) b +:+ tail.
Proof.
  revert b. induction word as [|a word IH]; intros b.
  - intros _. by rewrite !drop_0.
  - destruct b as [|c b]; [done|]. simpl. destruct (ascii_dec a c); [by apply IH|done].
Qed.

Lemma run_length_stop (member : ascii → bool) a b :
  run_length member b = 0%nat → run_length member (a +:+ b) = run_length member a.
Proof.
  intros Hb. induction a as [|c a IH]; [done|]. simpl. by rewrite IH.
Qed.

(** What comes after the digits at the start of a text and is followed
    by the start of a line is no colon, unless it is in the text. *)
Lemma after_digits_line a tail :
  at_line_end tail →
  match drop (run_length digit a) (a +:+ tail) with
  | String ":"%char _ => ∃ rest, drop (run_length digit a) a = String ":"%char rest
  | _ => True
  end.
Proof.
  intros Htail. induction a as [|c a IH].
  - change ("" +:+ tail) with tail. simpl. rewrite ?drop_0.
    destruct Htail as [->|[t ->]]; [done|]. done.
  - change (String c a +:+ tail) with (String c (a +:+ tail)). cbn [run_length].
    destruct (digit c) eqn:Hc; [exact IH|]. cbn [drop].
    destruct (Ascii.eqb_spec c ":") as [->|Hne]; [by eexists|].
    destruct c as [[] [] [] [] [] [] [] []]; try done.
Qed.

Lemma step_label_line b tail :
  at_line_end tail → step_label b = None → step_label (b +:+ tail) = None.
Proof.
  intros Htail. unfold step_label.
  destruct (String.prefix "Step " (b +:+ tail)) eqn:Hprefix; [|done].
  apply prefix_line in Hprefix; [|done..]. rewrite Hprefix.
  pose proof (prefix_drop "Step " b tail Hprefix) as Hdrop.
  change (String.length "Step ") with 5%nat in Hdrop. rewrite Hdrop. clear Hdrop.
  set (rest := drop 5 b).
  rewrite (run_length_stop digit rest tail) by by apply at_line_end_no_digit.
  pose proof (after_digits_line rest tail Htail) as Hcolon.
  destruct (run_length digit rest) as [|k] eqn:Hk; [done|].
  destruct (drop (S k) (rest +:+ tail)) as [|d t]; [done|].
  destruct (Ascii.eqb_spec d ":") as [->|Hne].
  - destruct Hcolon as [t' ->]. done.
  - intros _. destruct d as [[] [] [] [] [] [] [] []]; try done.
Qed.

Lemma expected_label_line b tail :
  at_line_end tail → expected_label b = None → expected_label (b +:+ tail) = None.
Proof.
  intros Htail. unfold expected_label.
  destruct (String.prefix "Expected:" (b +:+ tail)) eqn:Hprefix; [|done].
  apply prefix_line in Hprefix; [|done..]. by rewrite Hprefix.
Qed.

Lemma one_line_quiet label x tail :
  line_bound label → one_line label x → at_line_end tail →
  ∀ a b, x = a +:+ b → b ≠ "" →
    first_of [line_end; number_dot; label] (b +:+ tail) = None.
Proof.
  intros Hlabel (Hline & Hdots & Hnever) Htail a b -> Hb.
  apply has_newline_suffix in Hline. apply no_number_dot_suffix in Hdots.
  apply never_suffix in Hnever.
  destruct b as [|c b]; [done|]. cbn [first_of].
  assert (line_end (String c b +:+ tail) = None) as ->.
  { simpl in *. by apply orb_false_iff in Hline as [-> _]. }
  rewrite number_dot_none by done.
  rewrite Hlabel; [done|done|]. simpl in Hnever.
  apply andb_true_iff in Hnever as [Hnone _]. by apply bool_decide_eq_true_1 in Hnone.
Qed.

Lemma spaced_quiet label x tail :
  label (" " +:+ x +:+ tail) = None →
  (∀ a b, x = a +:+ b → b ≠ "" → first_of [line_end; number_dot; label] (b +:+ tail) = None) →
  ∀ a b, " " +:+ x = a +:+ b → b ≠ "" →
    first_of [line_end; number_dot; label] (b +:+ tail) = None.
Proof.
  intros Hlabel Hx a b Heq Hb. destruct a as [|c a].
  - change ("" +:+ b) with b in Heq. subst b. cbn [first_of].
    change ((" " +:+ x) +:+ tail) with (String " " (x +:+ tail)).
    change (line_end (String " " (x +:+ tail))) with (@None nat).
    change (number_dot (String " " (x +:+ tail))) with (@None nat).
    change (" " +:+ x +:+ tail) with (String " " (x +:+ tail)) in Hlabel.
    by rewrite Hlabel.
  - change (String " " x = String c (a +:+ b)) in Heq. injection Heq as _ Heq.
    by apply (Hx a b).
Qed.

(** The number of a step and its dot make a match, and the space after
    the dot is the first character after it. *)
Lemma number_dot_step n rest :
  number_dot (decimal n +:+ ". " +:+ rest) = Some (String.length (decimal n) + 1)%nat ∧
  drop (String.length (decimal n) + 1) (decimal n +:+ ". " +:+ rest) = " " +:+ rest.
Proof.
  unfold number_dot.
  rewrite (run_length_all digit (decimal n)); [|apply decimal_digits|done].
  pose proof (drop_app_length (decimal n) (". " +:+ rest) 0) as Hdot.
  rewrite Nat.add_0_r, drop_0 in Hdot.
  destruct (decimal_first n) as (c & t & Hdec & _).
  destruct (String.length (decimal n)) as [|len] eqn:Hlen; [by rewrite Hdec in Hlen|].
  rewrite Hdot. split; [done|].
  rewrite <- Hlen. by rewrite drop_app_length.
Qed.

Lemma first_of_number label n rest :
  ∃ k, first_of [line_end; number_dot; label] (decimal n +:+ ". " +:+ rest) = Some (S k) ∧
       drop (S k) (decimal n +:+ ". " +:+ rest) = " " +:+ rest.
Proof.
  destruct (number_dot_step n rest) as [Hmatch Hdrop].
  exists (String.length (decimal n)). rewrite Nat.add_1_r in Hmatch, Hdrop.
  split; [|done]. cbn [first_of]. rewrite Hmatch.
  destruct (decimal_first n) as (c & t & -> & Hc).
  change (String c t +:+ ". " +:+ rest) with (String c (t +:+ ". " +:+ rest)).
  unfold line_end. by destruct (Ascii.eqb_spec c newline) as [->|_].
Qed.

Section OnePattern.
Variable label : string → option nat.
Hypothesis label_line_bound : line_bound label.
Hypothesis label_not_at_space : ∀ s, label (String " " s) = None.

Local Abbreviation pattern := (first_of [line_end; number_dot; label]).

Lemma split_from_lines x from texts :
  one_line label x → Forall (one_line label) texts →
  split_from pattern ((" " +:+ x) +:+ following from texts) 0 "" =
    (" " +:+ x) :: (texts ≫= λ y, [""; " " +:+ y]).
Proof.
  intros Hx Htexts. revert x from Hx.
  induction Htexts as [|y texts Hy _ IH]; intros x from Hx.
  - rewrite split_from_quiet; [done|].
    apply spaced_quiet; [apply label_not_at_space|]. by apply one_line_quiet; [| |left].
  - rewrite split_from_quiet; last first.
    { apply spaced_quiet; [apply label_not_at_space|].
      apply one_line_quiet; [done..|apply following_at_line_end]. }
    change ("" +:+ " " +:+ x) with (" " +:+ x).
    unfold following at 1. rewrite join_lines_numbered.
    rewrite (split_from_match _ _ 0); [|done|by cbn [first_of line_end]; rewrite Ascii.eqb_refl].
    cbn [drop].
    destruct (first_of_number label (S from) (y +:+ following (S from) texts))
      as (k & Hk & Hdrop).
    rewrite (split_from_match _ _ k); [|by destruct (decimal_first (S from)) as (? & ? & -> & _)|done].
    rewrite Hdrop. change (" " +:+ y +:+ following (S from) texts)
      with ((" " +:+ y) +:+ following (S from) texts).
    rewrite IH by done. done.
Qed.

Lemma step_texts_lines texts :
  texts ≠ [] → Forall (one_line label) texts → Forall (λ x, nonblank x = true) texts →
  step_texts pattern (join_lines (numbered 0 texts)) = (λ x, " " +:+ x) <$> texts.
Proof.
  intros Hne Htexts Hnonblank. unfold step_texts.
  assert (JsString.truthy (join_lines (numbered 0 texts)) = true) as ->.
  { destruct texts as [|x texts]; [done|]. rewrite join_lines_numbered.
    destruct (decimal_first 1) as (c & t & -> & _). done. }
  destruct Htexts as [|x texts Hx Htexts]; [done|].
  unfold split_pattern. rewrite join_lines_numbered.
  destruct (first_of_number label 1 (x +:+ following 1 texts)) as (k & Hk & Hdrop).
  rewrite (split_from_match _ _ k); [|by destruct (decimal_first 1) as (? & ? & -> & _)|done].
  rewrite Hdrop. change (" " +:+ x +:+ following 1 texts)
    with ((" " +:+ x) +:+ following 1 texts).
  rewrite split_from_lines by done.
  rewrite filter_cons_False by done.
  assert (∀ y, nonblank y = true → nonblank (" " +:+ y) = true) as Hspace by done.
  apply Forall_cons in Hnonblank as [Hx' Hnonblank].
  rewrite filter_cons_True by by apply Hspace. rewrite fmap_cons. f_equal.
  clear Hne Hx Hk Hdrop Hx' Htexts. induction Hnonblank as [|y texts Hy _ IH]; [done|].
  cbn [mbind list_bind app fmap list_fmap].
  rewrite filter_cons_False by done. rewrite filter_cons_True by by apply Hspace.
  by rewrite IH.
Qed.

End OnePattern.

Lemma step_label_not_at_space s : step_label (String " " s) = None.
Proof. done. Qed.

Lemma expected_label_not_at_space s : expected_label (String " " s) = None.
Proof. done. Qed.

(** X22. What one service writes the other reads back. For steps that
    [validateTestSteps] accepts, whose texts have one line each and hold
    no digit with a dot after it, no label [Step n:] in an action and no
    label [Expected:] in an expected result, the [parseTestSteps] of the
    management service applied to the two texts that [formatTestSteps]
    of the authoring service makes gives the steps back, in their number
    and order, with their texts trimmed. *)
Theorem written_steps_are_read_back (steps : list step) :
  validateTestSteps steps = true →
  Forall (λ s, one_line step_label (step_action s) ∧
               one_line expected_label (step_expected s)) steps →
  Management.parseTestSteps (kiwi_action (formatTestSteps steps))
                            (expected_result (formatTestSteps steps))
    = trimmed <$> steps.
Proof.
  intros (Hne & Hnonblank)%validateTestSteps_nonblank Hlines.
  assert (step_texts action_pattern (kiwi_action (formatTestSteps steps))
          = (λ x, " " +:+ x) <$> (step_action <$> steps)) as Hactions.
  { apply (step_texts_lines step_label).
    - intros b tail. apply step_label_line.
    - apply step_label_not_at_space.
    - by destruct steps.
    - apply Forall_fmap. eapply Forall_impl; [exact Hlines|]. by intros s [? _].
    - apply Forall_fmap. eapply Forall_impl; [exact Hnonblank|]. by intros s [? _]. }
  assert (step_texts expected_pattern (expected_result (formatTestSteps steps))
          = (λ x, " " +:+ x) <$> (step_expected <$> steps)) as Hexpected.
  { apply (step_texts_lines expected_label).
    - intros b tail. apply expected_label_line.
    - apply expected_label_not_at_space.
    - by destruct steps.
    - apply Forall_fmap. eapply Forall_impl; [exact Hlines|]. by intros s [_ ?].
    - apply Forall_fmap. eapply Forall_impl; [exact Hnonblank|]. by intros s [_ ?]. }
  unfold Management.parseTestSteps. rewrite Hactions, Hexpected.
  assert (JsString.truthy (kiwi_action (formatTestSteps steps)) = true) as ->.
  { unfold formatTestSteps. cbn [kiwi_action].
    destruct steps as [|s steps]; [done|]. rewrite fmap_cons, join_lines_numbered.
    destruct (decimal_first 1) as (c & t & -> & _). done. }
  cbn [negb andb]. rewrite !length_fmap, Nat.max_id.
  assert ((λ i, {| step_action := text_at ((λ x, " " +:+ x) <$> (step_action <$> steps)) i;
                   step_expected :=
                     text_at ((λ x, " " +:+ x) <$> (step_expected <$> steps)) i |})
            <$> seq 0 (length steps) = trimmed <$> steps) as ->.
  { apply list_eq. intros i. rewrite !list_lookup_fmap.
    destruct (steps !! i) as [s|] eqn:Hs; simpl.
    - rewrite (proj2 (lookup_seq 0 (length steps) i i)); [|split; [done|]; by eapply lookup_lt_Some].
      simpl. unfold text_at. rewrite !list_lookup_fmap, Hs. done.
    - rewrite lookup_seq_ge; [done|]. by apply lookup_ge_None. }
  apply filter_all, Forall_fmap. eapply Forall_impl; [exact Hnonblank|].
  intros s [Haction _]. simpl. unfold nonblank in Haction. by rewrite Haction.
Qed.

End CaseTexts.

(** Two steps of one line each. *)
Lemma written_steps_are_read_back_witness :
  let steps := [{| TestSteps.step_action := " Open the page";
                   TestSteps.step_expected := "The page opens " |};
                {| TestSteps.step_action := "Enter v1 and go on";
                   TestSteps.step_expected := "Shown: 3 rows" |}] in
  Management.parseTestSteps (TestSteps.kiwi_action (TestSteps.formatTestSteps steps))
    (TestSteps.expected_result (TestSteps.formatTestSteps steps)) =
    [{| TestSteps.step_action := "Open the page";
        TestSteps.step_expected := "The page opens" |};
     {| TestSteps.step_action := "Enter v1 and go on";
        TestSteps.step_expected := "Shown: 3 rows" |}].
Proof.
  intros steps.
  apply (written_steps_are_read_back steps); [reflexivity|].
  by repeat constructor.
Defined.

(** An action of two lines is read back as two steps. *)
Example second_line_makes_a_step :
  let steps := [{| TestSteps.step_action := "Open the page" +:+ String newline "Wait";
                   TestSteps.step_expected := "The page opens" |}] in
  TestSteps.validateTestSteps steps = true ∧
  Management.parseTestSteps (TestSteps.kiwi_action (TestSteps.formatTestSteps steps))
    (TestSteps.expected_result (TestSteps.formatTestSteps steps)) =
    [{| TestSteps.step_action := "Open the page";
        TestSteps.step_expected := "The page opens" |};
     {| TestSteps.step_action := "Wait"; TestSteps.step_expected := "" |}].
Proof. split; reflexivity. Qed.

(** ** Statuses and priorities: names and identifiers *)

Section StatusNames.
Import Validation Status.

Lemma upper_unit_no_lower (c : N) : Forall (λ u, lower_letter u = false) (upper_unit c).
Proof.
  unfold upper_unit, lower_letter.
  repeat match goal with
         | |- context [(?a <=? ?b)%N] => destruct (N.leb_spec a b)
         | |- context [(?a =? ?b)%N] => destruct (N.eqb_spec a b)
         end; simpl; repeat constructor.
  all: repeat match goal with
         | |- context [(?a <=? ?b)%N] => destruct (N.leb_spec a b)
         end; simpl; try done; lia.
Qed.

Lemma toUpperCase_no_lower (s : string) : Forall (λ u, lower_letter u = false) (toUpperCase s).
Proof.
  unfold toUpperCase. induction (units s) as [|c l IH]; [constructor|].
  cbn [mbind list_bind]. apply Forall_app. split; [apply upper_unit_no_lower|exact IH].
Qed.

Lemma inherited_names_lower :
  Forall (λ name, Exists (λ u, lower_letter u = true) (units name)) inherited_names.
Proof. by_computation. Qed.

(** No text in upper case is the name of an inherited member. *)
Lemma toUpperCase_not_inherited (s : string) : toUpperCase s ∉ units <$> inherited_names.
Proof.
  intros (name & Hname & Hin)%list_elem_of_fmap.
  pose proof inherited_names_lower as Hlower. rewrite Forall_forall in Hlower.
  specialize (Hlower name Hin). rewrite <- Hname in Hlower.
  apply Exists_exists in Hlower as (u & Hu & Hlow).
  pose proof (toUpperCase_no_lower s) as Hupper. rewrite Forall_forall in Hupper.
  specialize (Hupper u Hu). congruence.
Qed.

Lemma get_or_upper (map : list (string * Z)) (fallback : Z) (key : string) :
  get_or map fallback key =
    match list_find (λ kv, units kv.1 = toUpperCase key) map with
    | Some (_, (_, id)) => if (id =? 0)%Z then Own fallback else Own id
    | None => Own fallback
    end.
Proof.
  unfold get_or, get. destruct (list_find _ map) as [[i [name id]]|]; [done|].
  rewrite bool_decide_eq_false_2; [done|]. apply toUpperCase_not_inherited.
Qed.

(** X23. [getStatusId] always gives one of the identifiers 1 to 5,
    never a member that the map inherits. For a status that
    [validateStatus] accepts it gives the identifier whose name, by
    [getStatusName], is the status in upper case; for every other text
    it gives 1, the identifier of [IDLE]. And [getStatusName] gives a
    name that [validateStatus] accepts, [IDLE] for a number that is no
    identifier, and [getStatusId] maps that name back to the identifier
    it came from. *)
Theorem status_names_and_identifiers :
  (∀ status,
     ∃ id, getStatusId status = Own id ∧ 1 ≤ id ≤ 5 ∧
           (validateStatus status = true →
            units (getStatusName (of_Z id)) = toUpperCase status) ∧
           (validateStatus status = false → id = 1)) ∧
  (∀ n, validateStatus (getStatusName n) = true ∧
        ((∀ id, 1 ≤ id ≤ 5 → n ≠ of_Z id) → getStatusName n = "IDLE")) ∧
  (∀ id, 1 ≤ id ≤ 5 → getStatusId (getStatusName (of_Z id)) = Own id).
Proof.
  split; [|split].
  - intros status. unfold getStatusId, validateStatus, includes_upper.
    rewrite get_or_upper. unfold statusMap. cbn [list_find fst snd].
    destruct (decide (units "IDLE" = toUpperCase status)) as [<-|H1];
      [exists 1; by vm_compute|].
    destruct (decide (units "PASS" = toUpperCase status)) as [<-|H2];
      [exists 2; by vm_compute|].
    destruct (decide (units "FAIL" = toUpperCase status)) as [<-|H3];
      [exists 3; by vm_compute|].
    destruct (decide (units "BLOCKED" = toUpperCase status)) as [<-|H4];
      [exists 4; by vm_compute|].
    destruct (decide (units "ERROR" = toUpperCase status)) as [<-|H5];
      [exists 5; by vm_compute|].
    exists 1. simpl. split; [done|]. split; [lia|]. split; [|done].
    intros Hin%bool_decide_eq_true_1. cbn [fmap list_fmap] in Hin.
    repeat (apply elem_of_cons in Hin as [Hin|Hin]; [by symmetry in Hin|]).
    by apply elem_of_nil in Hin.
  - intros n. unfold getStatusName, name_of, statusMap. cbn [list_find fst snd].
    destruct (decide (of_Z 1 = n)) as [<-|H1]; [by split|].
    destruct (decide (of_Z 2 = n)) as [<-|H2];
      [split; [by vm_compute|]; intros Hno; by destruct (Hno 2)|].
    destruct (decide (of_Z 3 = n)) as [<-|H3];
      [split; [by vm_compute|]; intros Hno; by destruct (Hno 3)|].
    destruct (decide (of_Z 4 = n)) as [<-|H4];
      [split; [by vm_compute|]; intros Hno; by destruct (Hno 4)|].
    destruct (decide (of_Z 5 = n)) as [<-|H5];
      [split; [by vm_compute|]; intros Hno; by destruct (Hno 5)|].
    by split.
  - intros id Hid. assert (id = 1 ∨ id = 2 ∨ id = 3 ∨ id = 4 ∨ id = 5) as Hcases by lia.
    destruct Hcases as [->|[->|[->|[->| ->]]]]; by vm_compute.
Qed.

(** X24. [getPriorityId] always gives one of the identifiers 1 to 4,
    never a member that the map inherits. For a priority that
    [validatePriority] accepts it gives the identifier whose name, by
    [getPriorityName], is the priority in upper case; for every other
    text it gives 3, the identifier of [P3]. And [getPriorityName] gives
    a name that [validatePriority] accepts, [P3] for a number that is no
    identifier, and [getPriorityId] maps that name back to the
    identifier it came from. *)
Theorem priority_names_and_identifiers :
  (∀ priority,
     ∃ id, getPriorityId priority = Own id ∧ 1 ≤ id ≤ 4 ∧
           (validatePriority priority = true →
            units (getPriorityName (of_Z id)) = toUpperCase priority) ∧
           (validatePriority priority = false → id = 3)) ∧
  (∀ n, validatePriority (getPriorityName n) = true ∧
        ((∀ id, 1 ≤ id ≤ 4 → n ≠ of_Z id) → getPriorityName n = "P3")) ∧
  (∀ id, 1 ≤ id ≤ 4 → getPriorityId (getPriorityName (of_Z id)) = Own id).
Proof.
  split; [|split].
  - intros priority. unfold getPriorityId, validatePriority, includes_upper.
    rewrite get_or_upper. unfold priorityMap. cbn [list_find fst snd].
    destruct (decide (units "P1" = toUpperCase priority)) as [<-|H1];
      [exists 1; by vm_compute|].
    destruct (decide (units "P2" = toUpperCase priority)) as [<-|H2];
      [exists 2; by vm_compute|].
    destruct (decide (units "P3" = toUpperCase priority)) as [<-|H3];
      [exists 3; by vm_compute|].
    destruct (decide (units "P4" = toUpperCase priority)) as [<-|H4];
      [exists 4; by vm_compute|].
    exists 3. simpl. split; [done|]. split; [lia|]. split; [|done].
    intros Hin%bool_decide_eq_true_1. cbn [fmap list_fmap] in Hin.
    repeat (apply elem_of_cons in Hin as [Hin|Hin]; [by symmetry in Hin|]).
    by apply elem_of_nil in Hin.
  - intros n. unfold getPriorityName, name_of, priorityMap. cbn [list_find fst snd].
    destruct (decide (of_Z 1 = n)) as [<-|H1];
      [split; [by vm_compute|]; intros Hno; by destruct (Hno 1)|].
    destruct (decide (of_Z 2 = n)) as [<-|H2];
      [split; [by vm_compute|]; intros Hno; by destruct (Hno 2)|].
    destruct (decide (of_Z 3 = n)) as [<-|H3]; [by split|].
    destruct (decide (of_Z 4 = n)) as [<-|H4];
      [split; [by vm_compute|]; intros Hno; by destruct (Hno 4)|].
    by split.
  - intros id Hid. assert (id = 1 ∨ id = 2 ∨ id = 3 ∨ id = 4) as Hcases by lia.
    destruct Hcases as [->|[->|[->| ->]]]; by vm_compute.
Qed.

End StatusNames.

(** A status in lower case, a status with the sharp s, and a text that
    is no status. *)
Example status_in_lower_case :
  Status.validateStatus "blocked" = true ∧ Status.getStatusId "blocked" = Status.Own 4 ∧
  Status.getStatusName (Validation.of_Z 4) = "BLOCKED".
Proof. by vm_compute. Qed.

Example status_with_sharp_s :
  Status.validateStatus (String "p" (String "a" (String (ascii_of_nat 223) ""))) = true ∧
  Status.getStatusId (String "p" (String "a" (String (ascii_of_nat 223) ""))) = Status.Own 2.
Proof. by vm_compute. Qed.

Example status_constructor :
  Status.validateStatus "constructor" = false ∧
  Status.getStatusId "constructor" = Status.Own 1.
Proof. by vm_compute. Qed.

(** ** The counts of a run report *)

Section ReportCounts.
Import Validation Status Report.

Lemma getStatusName_cases (n : number) :
  (n = of_Z 2 ∧ getStatusName n = "PASS") ∨ (n = of_Z 3 ∧ getStatusName n = "FAIL") ∨
  (n = of_Z 4 ∧ getStatusName n = "BLOCKED") ∨ (n = of_Z 5 ∧ getStatusName n = "ERROR") ∨
  ((n ∉ of_Z <$> [2; 3; 4; 5]) ∧ getStatusName n = "IDLE").
Proof.
  unfold getStatusName, name_of, statusMap. cbn [list_find fst snd].
  destruct (decide (of_Z 1 = n)) as [<-|H1].
  { do 4 right. split; [|done]. by_computation. }
  destruct (decide (of_Z 2 = n)) as [<-|H2]; [by left|].
  destruct (decide (of_Z 3 = n)) as [<-|H3]; [right; by left|].
  destruct (decide (of_Z 4 = n)) as [<-|H4]; [do 2 right; by left|].
  destruct (decide (of_Z 5 = n)) as [<-|H5]; [do 3 right; by left|].
  do 4 right. split; [|done]. cbn [fmap list_fmap].
  intros Hin. repeat (apply elem_of_cons in Hin as [Hin|Hin]; [by symmetry in Hin|]).
  by apply elem_of_nil in Hin.
Qed.

Lemma with_status_cons id status statuses :
  with_status id (status :: statuses) =
    if decide (status = of_Z id) then S (with_status id statuses) else with_status id statuses.
Proof. unfold with_status. rewrite filter_cons. by case_decide. Qed.

Lemma without_result_cons status statuses :
  without_result (status :: statuses) =
    if decide (status ∉ of_Z <$> [2; 3; 4; 5]) then S (without_result statuses)
    else without_result statuses.
Proof. unfold without_result. rewrite filter_cons. by case_decide. Qed.

Lemma results_differ :
  of_Z 2 ≠ of_Z 3 ∧ of_Z 2 ≠ of_Z 4 ∧ of_Z 2 ≠ of_Z 5 ∧ of_Z 3 ≠ of_Z 4 ∧
  of_Z 3 ≠ of_Z 5 ∧ of_Z 4 ≠ of_Z 5.
Proof. repeat split; by_computation. Qed.

Lemma results_listed : Forall (λ id, of_Z id ∈ of_Z <$> [2; 3; 4; 5]) [2; 3; 4; 5].
Proof. repeat constructor; by_computation. Qed.

(** One status more: the count it adds to. *)
Lemma counts_cons status statuses :
  (status = of_Z 2 ∧
   with_status 2 (status :: statuses) = S (with_status 2 statuses) ∧
   with_status 3 (status :: statuses) = with_status 3 statuses ∧
   with_status 4 (status :: statuses) = with_status 4 statuses ∧
   with_status 5 (status :: statuses) = with_status 5 statuses ∧
   without_result (status :: statuses) = without_result statuses) ∨
  (status = of_Z 3 ∧
   with_status 2 (status :: statuses) = with_status 2 statuses ∧
   with_status 3 (status :: statuses) = S (with_status 3 statuses) ∧
   with_status 4 (status :: statuses) = with_status 4 statuses ∧
   with_status 5 (status :: statuses) = with_status 5 statuses ∧
   without_result (status :: statuses) = without_result statuses) ∨
  (status = of_Z 4 ∧
   with_status 2 (status :: statuses) = with_status 2 statuses ∧
   with_status 3 (status :: statuses) = with_status 3 statuses ∧
   with_status 4 (status :: statuses) = S (with_status 4 statuses) ∧
   with_status 5 (status :: statuses) = with_status 5 statuses ∧
   without_result (status :: statuses) = without_result statuses) ∨
  (status = of_Z 5 ∧
   with_status 2 (status :: statuses) = with_status 2 statuses ∧
   with_status 3 (status :: statuses) = with_status 3 statuses ∧
   with_status 4 (status :: statuses) = with_status 4 statuses ∧
   with_status 5 (status :: statuses) = S (with_status 5 statuses) ∧
   without_result (status :: statuses) = without_result statuses) ∨
  ((status ∉ of_Z <$> [2; 3; 4; 5]) ∧
   with_status 2 (status :: statuses) = with_status 2 statuses ∧
   with_status 3 (status :: statuses) = with_status 3 statuses ∧
   with_status 4 (status :: statuses) = with_status 4 statuses ∧
   with_status 5 (status :: statuses) = with_status 5 statuses ∧
   without_result (status :: statuses) = S (without_result statuses)).
Proof.
  destruct results_differ as (H23 & H24 & H25 & H34 & H35 & H45).
  pose proof results_listed as Hlisted.
  apply Forall_cons in Hlisted as [Hin2 Hlisted]. apply Forall_cons in Hlisted as [Hin3 Hlisted].
  apply Forall_cons in Hlisted as [Hin4 Hlisted]. apply Forall_cons in Hlisted as [Hin5 _].
  rewrite !with_status_cons, without_result_cons.
  destruct (decide (status = of_Z 2)) as [->|N2];
    [left; repeat case_decide; try done; by exfalso; eauto|].
  destruct (decide (status = of_Z 3)) as [->|N3];
    [right; left; repeat case_decide; try done; by exfalso; eauto|].
  destruct (decide (status = of_Z 4)) as [->|N4];
    [do 2 right; left; repeat case_decide; try done; by exfalso; eauto|].
  destruct (decide (status = of_Z 5)) as [->|N5];
    [do 3 right; left; repeat case_decide; try done; by exfalso; eauto|].
  do 4 right.
  assert (status ∉ of_Z <$> [2; 3; 4; 5]) as Hother.
  { cbn [fmap list_fmap]. intros Hin.
    repeat (apply elem_of_cons in Hin as [Hin|Hin]; [done|]). by apply elem_of_nil in Hin. }
  by rewrite decide_True by done.
Qed.

Lemma tally_from (statuses : list number) (s0 : stats) :
  let s := foldl (λ s status, count (toLowerCase (getStatusName status)) s) s0 statuses in
  pass s = (pass s0 + with_status 2 statuses)%nat ∧
  fail s = (fail s0 + with_status 3 statuses)%nat ∧
  blocked s = (blocked s0 + with_status 4 statuses)%nat ∧
  error s = (error s0 + with_status 5 statuses)%nat ∧
  idle s = (idle s0 + without_result statuses)%nat ∧
  added s = added s0.
Proof.
  revert s0. induction statuses as [|status statuses IH]; intros s0.
  - simpl. unfold with_status, without_result. simpl. repeat split; lia.
  - cbn [foldl]. cbv zeta in IH |- *.
    destruct (IH (count (toLowerCase (getStatusName status)) s0))
      as (-> & -> & -> & -> & -> & ->).
    destruct (counts_cons status statuses) as
      [(Hs & -> & -> & -> & -> & ->)|[(Hs & -> & -> & -> & -> & ->)|
       [(Hs & -> & -> & -> & -> & ->)|[(Hs & -> & -> & -> & -> & ->)|
        (Hs & -> & -> & -> & -> & ->)]]]].
    1-4: subst status; simpl; repeat split; lia.
    destruct (getStatusName_cases status) as
      [[-> _]|[[-> _]|[[-> _]|[[-> _]|[_ ->]]]]].
    1-4: exfalso; apply Hs; by_computation.
    simpl. repeat split; lia.
Qed.

(** X25. The report of a run counts every execution once. The four
    counts of the report are the numbers of executions whose status is
    the identifier of [PASS], [FAIL], [BLOCKED] and [ERROR]; every other
    execution, idle or with a status that is no identifier, is counted
    as idle, a count that the report leaves out; so the total of the
    report is the sum of its four counts and of these other executions,
    and no member is ever added to the counters. *)
Theorem report_counts_every_execution (statuses : list number) :
  let r := json_report statuses in
  let s := tally statuses in
  report_pass r = with_status 2 statuses ∧ report_fail r = with_status 3 statuses ∧
  report_blocked r = with_status 4 statuses ∧ report_error r = with_status 5 statuses ∧
  idle s = without_result statuses ∧
  total r = (report_pass r + report_fail r + report_blocked r + report_error r + idle s)%nat ∧
  added s = [].
Proof.
  intros r s. destruct (tally_from statuses no_stats) as (Hp & Hf & Hb & He & Hi & Ha).
  fold (tally statuses) in Hp, Hf, Hb, He, Hi, Ha. fold s in Hp, Hf, Hb, He, Hi, Ha.
  simpl in Hp, Hf, Hb, He, Hi, Ha. subst r. unfold json_report. fold s. simpl.
  split; [done|]. split; [done|]. split; [done|]. split; [done|]. split; [done|].
  split; [|done]. rewrite Hp, Hf, Hb, He, Hi. clear.
  induction statuses as [|status statuses IH]; [done|]. simpl length. rewrite IH.
  destruct (counts_cons status statuses) as
    [(_ & -> & -> & -> & -> & ->)|[(_ & -> & -> & -> & -> & ->)|
     [(_ & -> & -> & -> & -> & ->)|[(_ & -> & -> & -> & -> & ->)|
      (_ & -> & -> & -> & -> & ->)]]]]; lia.
Qed.

End ReportCounts.

Example report_of_six :
  let statuses := Validation.of_Z <$> [2; 2; 3; 1; 7; 5] in
  Report.json_report statuses =
    {| Report.report_pass := 2; Report.report_fail := 1; Report.report_blocked := 0;
       Report.report_error := 1; Report.total := 6 |} ∧
  Report.idle (Report.tally statuses) = 2%nat.
Proof. by vm_compute. Qed.
